(** * imgcube: deprojection, emission surface and rotation sweep

    A shallow embedding of the parts of [cube.py], [rotatedcube.py] and
    [misc/rotatedcube.py] that the specification talks about, followed by
    the properties proved about them.

    Numbers.  The program computes with IEEE doubles through numpy.  They
    are modelled by [num]: a real number (rounding is idealised away), the
    two infinities, or NaN.  Zero carries no sign.  Comparisons with NaN
    are false, as in numpy.

    Arrays.  One-dimensional arrays are lists; images are lists of rows
    (index [i] runs over [yaxis], index [j] over [xaxis]).

    Exceptions.  A method that can raise returns [res]; a method that also
    writes to [self] returns the new object next to its value.  A call
    that raises returns no object, except where a method is modelled
    with the object it leaves behind. *)

From Stdlib Require Import Reals Lra Lia Psatz ZArith String Ascii List.
From stdpp Require Import base strings gmap list.

Open Scope R_scope.

(** ** Idealised doubles *)

Inductive num : Type :=
| Fin (r : R)
| PInf
| NInf
| NaN.

Definition isnan (a : num) : bool :=
  match a with NaN => true | _ => false end.

Definition isfinite (a : num) : bool :=
  match a with Fin _ => true | _ => false end.

Definition Rsign (x : R) : comparison :=
  if Rlt_dec 0 x then Gt else if Rlt_dec x 0 then Lt else Eq.

Definition signed_inf (s : comparison) : num :=
  match s with Gt => PInf | Lt => NInf | Eq => NaN end.

Definition nneg (a : num) : num :=
  match a with
  | Fin r => Fin (- r)
  | PInf => NInf
  | NInf => PInf
  | NaN => NaN
  end.

Definition nabs (a : num) : num :=
  match a with
  | Fin r => Fin (Rabs r)
  | PInf | NInf => PInf
  | NaN => NaN
  end.

Definition nadd (a b : num) : num :=
  match a, b with
  | NaN, _ | _, NaN => NaN
  | Fin x, Fin y => Fin (x + y)
  | PInf, NInf | NInf, PInf => NaN
  | PInf, _ | _, PInf => PInf
  | NInf, _ | _, NInf => NInf
  end.

Definition nsub (a b : num) : num := nadd a (nneg b).

Definition nmul (a b : num) : num :=
  match a, b with
  | NaN, _ | _, NaN => NaN
  | Fin x, Fin y => Fin (x * y)
  | Fin x, PInf | PInf, Fin x => signed_inf (Rsign x)
  | Fin x, NInf | NInf, Fin x => signed_inf (CompOpp (Rsign x))
  | PInf, PInf | NInf, NInf => PInf
  | PInf, NInf | NInf, PInf => NInf
  end.

(** numpy division: a zero divisor gives an infinity (or NaN for 0/0)
    and a warning, never an exception. *)
Definition ndiv (a b : num) : num :=
  match a, b with
  | NaN, _ | _, NaN => NaN
  | Fin x, Fin y =>
      if Req_dec_T y 0 then signed_inf (Rsign x) else Fin (x / y)
  | Fin _, PInf | Fin _, NInf => Fin 0
  | PInf, Fin y => if Rlt_dec y 0 then NInf else PInf
  | NInf, Fin y => if Rlt_dec y 0 then PInf else NInf
  | PInf, PInf | PInf, NInf | NInf, PInf | NInf, NInf => NaN
  end.

Definition nltb (a b : num) : bool :=
  match a, b with
  | NaN, _ | _, NaN => false
  | Fin x, Fin y => if Rlt_dec x y then true else false
  | NInf, NInf => false
  | NInf, _ => true
  | PInf, _ => false
  | Fin _, PInf => true
  | Fin _, NInf => false
  end.

Definition nleb (a b : num) : bool :=
  match a, b with
  | NaN, _ | _, NaN => false
  | Fin x, Fin y => if Rle_dec x y then true else false
  | NInf, _ => true
  | _, PInf => true
  | PInf, _ => false
  | Fin _, NInf => false
  end.

Definition ngtb (a b : num) : bool := nltb b a.
Definition ngeb (a b : num) : bool := nleb b a.

Definition neqb (a b : num) : bool :=
  match a, b with
  | Fin x, Fin y => if Req_dec_T x y then true else false
  | PInf, PInf | NInf, NInf => true
  | _, _ => false
  end.

Declare Scope num_scope.
Delimit Scope num_scope with num.
Bind Scope num_scope with num.
Infix "+" := nadd : num_scope.
Infix "-" := nsub : num_scope.
Infix "*" := nmul : num_scope.
Infix "/" := ndiv : num_scope.
Notation "- a" := (nneg a) : num_scope.
Infix "<?" := nltb : num_scope.
Infix "<=?" := nleb : num_scope.
Infix ">?" := ngtb : num_scope.
Infix ">=?" := ngeb : num_scope.
Infix "=?" := neqb : num_scope.

(** ** Exceptions *)

Inductive exn : Type :=
| ValueError (msg : string)
| KeyError (key : string)
| IndexError
| TypeError
| AttributeError
| UnboundLocalError.

Inductive res (A : Type) : Type :=
| Ok (a : A)
| Raise (e : exn).
Arguments Ok {A} a.
Arguments Raise {A} e.

#[global] Instance res_ret : MRet res := fun A a => Ok a.

#[global] Instance res_bind : MBind res := fun A B k m =>
  match m with
  | Ok a => k a
  | Raise e => Raise e
  end.

(** [try: m except: h] with a bare [except]. *)
Definition try_except {A : Type} (m h : res A) : res A :=
  match m with
  | Ok a => Ok a
  | Raise _ => h
  end.

Definition of_option {A : Type} (e : exn) (o : option A) : res A :=
  match o with
  | Some a => Ok a
  | None => Raise e
  end.

(** ** The numpy functions the program calls *)

Definition Rceil (x : R) : Z := (- Int_part (- x))%Z.

Definition Ris_int (y : R) : bool :=
  if Req_dec_T (IZR (Int_part y)) y then true else false.

(** C's [atan2] on finite arguments. *)
Definition Ratan2 (y x : R) : R :=
  if Rlt_dec 0 x then atan (y / x)
  else if Rlt_dec x 0 then
    (if Rle_dec 0 y then atan (y / x) + PI else atan (y / x) - PI)
  else if Rlt_dec 0 y then PI / 2
  else if Rlt_dec y 0 then - (PI / 2)
  else 0.

Module np.

Definition radians (a : num) : num := (a * Fin (PI / 180))%num.

Definition cos (a : num) : num :=
  match a with Fin r => Fin (Rtrigo_def.cos r) | _ => NaN end.

Definition sin (a : num) : num :=
  match a with Fin r => Fin (Rtrigo_def.sin r) | _ => NaN end.

Definition tan (a : num) : num := (sin a / cos a)%num.

Definition hypot (a b : num) : num :=
  match a, b with
  | PInf, _ | NInf, _ | _, PInf | _, NInf => PInf
  | NaN, _ | _, NaN => NaN
  | Fin x, Fin y => Fin (R_sqrt.sqrt (x * x + y * y))
  end.

Definition arctan2 (a b : num) : num :=
  match a, b with
  | NaN, _ | _, NaN => NaN
  | Fin y, Fin x => Fin (Ratan2 y x)
  | Fin _, PInf => Fin 0
  | Fin y, NInf => if Rle_dec 0 y then Fin PI else Fin (- PI)
  | PInf, Fin _ => Fin (PI / 2)
  | NInf, Fin _ => Fin (- (PI / 2))
  | PInf, PInf => Fin (PI / 4)
  | PInf, NInf => Fin (3 * PI / 4)
  | NInf, PInf => Fin (- (PI / 4))
  | NInf, NInf => Fin (- (3 * PI / 4))
  end.

(** C's [pow], which [np.power] applies element by element. *)
Definition power (a b : num) : num :=
  if (b =? Fin 0)%num then Fin 1
  else if (a =? Fin 1)%num then Fin 1
  else
    match a, b with
    | NaN, _ | _, NaN => NaN
    | Fin x, Fin y =>
        if Rlt_dec 0 x then Fin (Rpower x y)
        else if Rlt_dec x 0 then
          (if Ris_int y then
             (if Z.even (Int_part y) then Fin (Rpower (- x) y)
              else Fin (- Rpower (- x) y))
           else NaN)
        else if Rlt_dec 0 y then Fin 0 else PInf
    | Fin x, PInf =>
        if Rlt_dec (Rabs x) 1 then Fin 0
        else if Rlt_dec 1 (Rabs x) then PInf else Fin 1
    | Fin x, NInf =>
        if Rlt_dec (Rabs x) 1 then PInf
        else if Rlt_dec 1 (Rabs x) then Fin 0 else Fin 1
    | PInf, Fin y => if Rlt_dec 0 y then PInf else Fin 0
    | NInf, Fin y =>
        if Rlt_dec 0 y then
          (if Ris_int y && negb (Z.even (Int_part y)) then NInf else PInf)
        else Fin 0
    | PInf, PInf | NInf, PInf => PInf
    | PInf, NInf | NInf, NInf => Fin 0
    end.

Definition zeros (n : nat) : list num := replicate n (Fin 0).

Definition ones (n : nat) : list num := replicate n (Fin 1).

(** [np.diff(a)]: [a[1:] - a[:-1]]. *)
Definition diff (a : list num) : list num :=
  zip_with nsub (drop 1 a) a.

(** [np.arange(n)] for an integer [n]. *)
Definition arange_n (n : nat) : list num :=
  map (fun i => Fin (INR i)) (seq 0 n).

(** [np.arange(start, stop, step)] on doubles: [ceil((stop-start)/step)]
    values [start + i*step]; a length that is not a finite number is a
    [ValueError]. *)
Definition arange (start stop step : num) : res (list num) :=
  match ((stop - start) / step)%num with
  | Fin q =>
      Ok (map (fun i => (start + Fin (INR i) * step)%num)
              (seq 0 (Z.to_nat (Rceil q))))
  | _ => Raise (ValueError "arange: cannot compute length")
  end.

(** [np.linspace(start, stop, num)] with the default [endpoint=True]. *)
Definition linspace (start stop : num) (n : nat) : list num :=
  let div := Fin (INR (n - 1)) in
  let y := arange_n n in
  let delta := (stop - start)%num in
  let y :=
    if (1 <? n)%nat then
      let step := (delta / div)%num in
      if (step =? Fin 0)%num
      then map (fun v => (v / div * delta)%num) y
      else map (fun v => (v * step)%num) y
    else map (fun v => (v * delta)%num) y in
  let y := map (fun v => (v + start)%num) y in
  if (1 <? n)%nat then <[(n - 1)%nat := stop]> y else y.

(** [np.average([a, b], axis=0)]. *)
Definition average2 (a b : list num) : list num :=
  zip_with (fun x y => ((x + y) / Fin 2)%num) a b.

Definition max2 (a b : num) : num :=
  if isnan a then NaN
  else if isnan b then NaN
  else if (a <? b)%num then b else a.

(** [a.max()]: NaN wins; an empty array is a [ValueError]. *)
Definition max (a : list num) : res num :=
  match a with
  | [] => Raise (ValueError "zero-size array to reduction operation")
  | x :: l => Ok (foldl max2 x l)
  end.

Fixpoint first_true (l : list bool) : option nat :=
  match l with
  | [] => None
  | true :: _ => Some 0%nat
  | false :: l' => S <$> first_true l'
  end.

(** [mask.argmax()] on a boolean array: the first [True], 0 if none. *)
Definition argmax (l : list bool) : res nat :=
  match l with
  | [] => Raise (ValueError "attempt to get argmax of an empty sequence")
  | _ => Ok (default 0%nat (first_true l))
  end.

(** [np.meshgrid(xs, ys)]. *)
Definition meshgrid (xs ys : list num) : list (list num) * list (list num) :=
  (map (fun _ => xs) ys, map (fun y => map (fun _ => y) xs) ys).

Definition map2d (f : num -> num) (a : list (list num)) : list (list num) :=
  map (map f) a.

Definition zip2d {A : Type} (f : num -> num -> A)
    (a b : list (list num)) : list (list A) :=
  zip_with (zip_with f) a b.

(** [np.nansum]: NaNs count as zero. *)
Definition nansum (a : list num) : num :=
  foldl (fun s v => if isnan v then s else (s + v)%num) (Fin 0) a.

Definition sum (a : list num) : num := foldl nadd (Fin 0) a.

(** [a.mean()] *)
Definition mean (a : list num) : num :=
  (sum a / Fin (INR (length a)))%num.

Definition nanmean (a : list num) : num :=
  (nansum a
   / Fin (INR (length (List.filter (fun v => negb (isnan v)) a))))%num.

Definition min2 (a b : num) : num :=
  if isnan a then NaN
  else if isnan b then NaN
  else if (b <? a)%num then b else a.

Definition min (a : list num) : res num :=
  match a with
  | [] => Raise (ValueError "zero-size array to reduction operation")
  | x :: l => Ok (foldl min2 x l)
  end.

Definition sqrt (a : num) : num :=
  match a with
  | Fin x => if Rlt_dec x 0 then NaN else Fin (R_sqrt.sqrt x)
  | PInf => PInf
  | NInf | NaN => NaN
  end.

Definition log (a : num) : num :=
  match a with
  | Fin x =>
      if Rlt_dec 0 x then Fin (ln x)
      else if Rlt_dec x 0 then NaN else NInf
  | PInf => PInf
  | NInf | NaN => NaN
  end.

End np.

(** Arrays of the three shapes the program passes around. *)
Inductive ndarray : Type :=
| Scalar (v : num)
| Vec (l : list num)
| Img (a : list (list num)).

Definition ndmap (f : num -> num) (a : ndarray) : ndarray :=
  match a with
  | Scalar v => Scalar (f v)
  | Vec l => Vec (map f l)
  | Img m => Img (np.map2d f m)
  end.

Definition ndflatten (a : ndarray) : list num :=
  match a with
  | Scalar v => [v]
  | Vec l => l
  | Img m => concat m
  end.

(** Python's [a[i]] for [i >= 0] and [a[-1]]. *)
Definition index {A : Type} (a : list A) (i : nat) : res A :=
  of_option IndexError (a !! i).

Definition index_last {A : Type} (a : list A) : res A :=
  of_option IndexError (last a).

(** ** scipy.interpolate.interp1d, linear kind *)

Module scipy.

(** numpy's sorting order: NaN after everything else. *)
Definition sort_leb (a b : num) : bool :=
  if isnan b then true else if isnan a then false else (a <=? b)%num.

Fixpoint insert_sorted (p : num * num) (l : list (num * num))
    : list (num * num) :=
  match l with
  | [] => [p]
  | q :: l' =>
      if sort_leb p.1 q.1 then p :: l else q :: insert_sorted p l'
  end.

(** [ind = np.argsort(x); x = x[ind]; y = y[ind]]. *)
Definition sort_xy (x y : list num) : list (num * num) :=
  foldr insert_sorted [] (zip x y).

Record interp1d : Type := mk_interp1d {
  xs : list num;
  ys : list num;
  extrapolate : bool
}.

(** The constructor, with [assume_sorted=False]. [fill] is true for
    [fill_value='extrapolate'] (which turns the bounds check off) and
    false for the default, where a point outside the range raises. *)
Definition new (x y : list num) (fill : bool) : res interp1d :=
  if negb (length x =? length y)%nat then
    Raise (ValueError "x and y arrays must be equal in length along interpolation axis.")
  else if (length x <? 2)%nat then
    Raise (ValueError "x and y arrays must have at least 2 entries")
  else
    let s := sort_xy x y in
    Ok (mk_interp1d (map fst s) (map snd s) fill).

(** [np.searchsorted(x, v)] on the sorted [x]: how many entries come
    strictly before [v]. *)
Definition searchsorted (x : list num) (v : num) : nat :=
  length (List.filter (fun xi => negb (sort_leb v xi)) x).

Definition call_linear (f : interp1d) (v : num) : num :=
  let hi := Nat.min (Nat.max (searchsorted (xs f) v) 1) (length (xs f) - 1) in
  let lo := (hi - 1)%nat in
  let x_lo := nth lo (xs f) NaN in
  let x_hi := nth hi (xs f) NaN in
  let y_lo := nth lo (ys f) NaN in
  let y_hi := nth hi (ys f) NaN in
  let slope := ((y_hi - y_lo) / (x_hi - x_lo))%num in
  (slope * (v - x_lo) + y_lo)%num.

Definition out_of_bounds (f : interp1d) (v : num) : bool :=
  (v <? nth 0 (xs f) NaN)%num || (v >? List.last (xs f) NaN)%num.

(** [f(x_new)]. *)
Definition call (f : interp1d) (x_new : ndarray) : res ndarray :=
  if negb (extrapolate f) && existsb (out_of_bounds f) (ndflatten x_new)
  then Raise (ValueError "A value in x_new is outside the interpolation range.")
  else Ok (ndmap (call_linear f) x_new).

End scipy.

(** ** FITS header *)

Inductive hval : Type :=
| HInt (z : Z)
| HFloat (v : num)
| HStr (s : string).

(** [header[key]]. *)
Definition getitem (header : gmap string hval) (key : string) : res hval :=
  of_option (KeyError key) (header !! key).

(** A header value used in arithmetic. *)
Definition as_num (v : hval) : res num :=
  match v with
  | HInt z => Ok (Fin (IZR z))
  | HFloat v => Ok v
  | HStr _ => Raise TypeError
  end.

(** [except KeyError:] *)
Definition except_KeyError {A : Type} (m h : res A) : res A :=
  match m with
  | Raise (KeyError _) => h
  | _ => m
  end.

Definition lower_ascii (c : ascii) : ascii :=
  let n := nat_of_ascii c in
  if ((65 <=? n) && (n <=? 90))%nat then ascii_of_nat (n + 32) else c.

(** [s.lower()] *)
Fixpoint lower (s : string) : string :=
  match s with
  | EmptyString => EmptyString
  | String c s' => String (lower_ascii c) (lower s')
  end.

(** [sub in s] *)
Fixpoint contains (sub s : string) : bool :=
  String.prefix sub s ||
  match s with
  | EmptyString => false
  | String _ s' => contains sub s'
  end.

(** [scipy.constants.c] *)
Definition sc_c : num := Fin 299792458.

(** ** cube.py: class imagecube *)

(** The attributes [imagecube.__init__] leaves on [self] that the methods
    below read.  [data] is indexed [velocity][y][x]. *)
Record imagecube : Type := mk_imagecube {
  header : gmap string hval;
  xaxis : list num;
  yaxis : list num;
  velax : list num;
  bmaj : num;
  data : list (list (list num))
}.

Definition _readspectralaxis (header : gmap string hval) : res (list num) :=
  a_len ← getitem header "naxis3";
  a_del ← getitem header "cdelt3";
  a_pix ← getitem header "crpix3";
  a_ref ← getitem header "crval3";
  idx ← match a_len with
        | HInt n => Ok (np.arange_n (Z.to_nat n))
        | HFloat v => np.arange (Fin 0) v (Fin 1)
        | HStr _ => Raise TypeError
        end;
  a_pix ← as_num a_pix;
  a_del ← as_num a_del;
  a_ref ← as_num a_ref;
  Ok (map (fun i => (a_ref + (i - a_pix + Fin 1) * a_del)%num) idx).

Definition _readrestfreq (header : gmap string hval) : res hval :=
  except_KeyError (getitem header "restfreq")
    (except_KeyError (getitem header "restfrq")
       (getitem header "crval3")).

Definition _readvelocityaxis (header : gmap string hval) : res (list num) :=
  ctype3 ← getitem header "ctype3";
  match ctype3 with
  | HStr s =>
      if contains "freq" (lower s) then
        specax ← _readspectralaxis header;
        nu ← _readrestfreq header ≫= as_num;
        Ok (map (fun s => ((nu - s) * sc_c / nu)%num) specax)
      else _readspectralaxis header
  | _ => Raise AttributeError
  end.

Definition _radial_sampling (self : imagecube)
    (rbins rvals : option (list num)) : res (list num * list num) :=
  if bool_decide (rbins ≠ None) && bool_decide (rvals ≠ None) then
    Raise (ValueError "Specify only 'rbins' or 'rvals', not both.")
  else
    rbins ← match rvals with
            | Some rv =>
                d0 ← index (np.diff rv) 0;
                let dr := (d0 * Fin 0.5)%num in
                r0 ← index rv 0;
                rl ← index_last rv;
                Ok (Some (np.linspace (r0 - dr) (rl + dr) (length rv + 1)))
            | None => Ok rbins
            end;
    match rbins with
    | Some rb =>
        Ok (rb, np.average2 (drop 1 rb) (take (length rb - 1) rb))
    | None =>
        xmax ← np.max (xaxis self);
        rb0 ← np.arange (Fin 0) xmax (Fin 0.25 * bmaj self);
        let rb := drop 1 rb0 in
        Ok (rb, np.average2 (drop 1 rb) (take (length rb - 1) rb))
    end.

Definition _rotate (x y : list (list num)) (PA : num)
    : list (list num) * list (list num) :=
  let PArad := np.radians (PA + Fin 90) in
  (np.zip2d (fun x y => (x * np.cos PArad + y * np.sin PArad)%num) x y,
   np.zip2d (fun x y => (y * np.cos PArad - x * np.sin PArad)%num) x y).

Definition _incline (x y : list (list num)) (inc : num)
    : list (list num) * list (list num) :=
  (x, np.map2d (fun y => (y / np.cos (np.radians inc))%num) y).

Definition disk_coordinates (self : imagecube) (x0 y0 inc PA : num)
    : list (list num) * list (list num) :=
  let '(x_sky, y_sky) :=
    np.meshgrid (map (fun x => (x - x0)%num) (reverse (xaxis self)))
                (map (fun y => (y - y0)%num) (yaxis self)) in
  let '(x_rot, y_rot) := _rotate x_sky y_sky (PA + Fin 90) in
  let '(x_dep, y_dep) := _incline x_rot y_rot inc in
  (np.zip2d np.hypot x_dep y_dep, np.zip2d np.arctan2 y_dep x_dep).

(** ** rotatedcube.py: class rotatedcube(imagecube) *)

Record rotatedcube : Type := mk_rotatedcube {
  base :> imagecube;
  tilt : string;
  x0 : num;
  y0 : num;
  inc : num;
  dist : num;
  mstar : num;
  rdisk : list (list num);
  tdisk : list (list num);
  rbins : list num;
  rvals : list num;
  zvals : list num
}.

(** [self.zvals = z], and the in-place writes [self.zvals[...] = ...]. *)
Definition set_zvals (self : rotatedcube) (z : list num) : rotatedcube :=
  mk_rotatedcube (base self) (tilt self) (x0 self) (y0 self) (inc self)
    (dist self) (mstar self) (rdisk self) (tdisk self) (rbins self)
    (rvals self) z.

(** [rotatedcube.__init__], from the point where [imagecube.__init__] has
    read the file into [cube].  [None] stands for an omitted argument. *)
Definition __init__ (cube : imagecube) (tilt : string)
    (inc mstar dist : option num) (x0 y0 : num) : res rotatedcube :=
  if negb (bool_decide (lower tilt ∈ ["north"; "south"]))
  then Raise (ValueError "Must specify tilt as 'north' or 'south'.")
  else
    inc ← of_option (ValueError "WARNING: No inclination specified.") inc;
    if negb ((Fin 0 <=? inc)%num && (inc <=? Fin 90)%num)
    then Raise (ValueError "Inclination must be 0 <= i <= 90.")
    else
      dist ← of_option (ValueError "WARNING: No distance specified.") dist;
      let '(rdisk, tdisk) := disk_coordinates cube x0 y0 inc (Fin 0) in
      mstar ← of_option (ValueError "WARNING: No stellar mass specified.") mstar;
      '(rbins, rvals) ← _radial_sampling cube None None;
      Ok (mk_rotatedcube cube (lower tilt) x0 y0 inc dist mstar rdisk tdisk
            rbins rvals (np.zeros (length rvals))).

(** The two repairs at the top of [emission_surface], on [self.rvals] and
    [self.zvals]; each returns [self.zvals] after its in-place write.
    (The method has the same text in rotatedcube.py and in
    misc/rotatedcube.py.) *)

(** [if np.isnan(self.zvals[0]): ...] *)
Definition repair_leading (rvals zvals : list num) : res (list num) :=
  z0 ← index zvals 0;
  if isnan z0 then
    idx ← np.argmax (map isfinite zvals);
    r_idx ← index rvals idx;
    z_idx ← index zvals idx;
    rim ← scipy.new [Fin 0; r_idx] [Fin 0; z_idx] false;
    ramp ← scipy.call rim (Vec (take idx rvals));
    Ok (ndflatten ramp ++ drop idx zvals)
  else Ok zvals.

(** [if np.isnan(self.zvals[-1]): ...] *)
Definition repair_trailing (zvals : list num) : res (list num) :=
  z_last ← index_last zvals;
  if isnan z_last then
    idx ← np.argmax (map isnan zvals);
    Ok (take idx zvals ++ replicate (length zvals - idx) (Fin 0))
  else Ok zvals.

Definition emission_surface_repair (rvals zvals : list num)
    : res (list num) :=
  zvals ← repair_leading rvals zvals;
  repair_trailing zvals.

(** The whole body: the value returned and [self.zvals] afterwards. *)
Definition emission_surface_body (rvals zvals : list num) (radii : ndarray)
    : res (ndarray * list num) :=
  zvals ← emission_surface_repair rvals zvals;
  f ← scipy.new rvals zvals true;
  z ← scipy.call f radii;
  Ok (z, zvals).

(** [emission_surface(radii)]: the value and the object after the call. *)
Definition emission_surface (self : rotatedcube) (radii : ndarray)
    : res (ndarray * rotatedcube) :=
  '(z, zvals) ← emission_surface_body (rvals self) (zvals self) radii;
  Ok (z, set_zvals self zvals).

Definition _disk_coordinates_3D_iteration (self : rotatedcube)
    (rpix : option (list (list num)))
    : res ((list (list num) * list (list num)) * rotatedcube) :=
  let rpix :=
    match rpix with
    | None => map (fun y => map (fun x => np.hypot x y) (xaxis self))
                  (yaxis self)
    | Some r => r
    end in
  let inc := np.radians (inc self) in
  '(zpix, self) ← emission_surface self (Img rpix);
  let zpix :=
    np.map2d (fun z => (z * (if String.eqb (tilt self) "north"
                             then Fin 1 else Fin (-1)))%num)
             (match zpix with Img z => z | _ => [] end) in
  let ypix := map (fun y => map (fun _ => (Fin 1 * y / np.cos inc)%num)
                               (xaxis self)) (yaxis self) in
  let xpix := map (fun _ => map (fun x => (Fin 1 * x)%num) (xaxis self))
                  (yaxis self) in
  let ypix := np.zip2d (fun y z => (y - z * np.tan inc)%num) ypix zpix in
  Ok ((np.zip2d np.hypot ypix xpix, np.zip2d np.arctan2 ypix xpix), self).

(** The [for _ in range(niter)] loop of [disk_coordinates_3D]; [cur] holds
    [(rpix, tpix)] once they are bound. *)
Fixpoint disk_coordinates_3D_loop (niter : nat) (self : rotatedcube)
    (cur : option (list (list num) * list (list num)))
    : res (option (list (list num) * list (list num)) * rotatedcube) :=
  match niter with
  | O => Ok (cur, self)
  | S n =>
      '(rt, self) ← _disk_coordinates_3D_iteration self (fst <$> cur);
      disk_coordinates_3D_loop n self (Some rt)
  end.

Definition disk_coordinates_3D (self : rotatedcube) (niter : nat)
    : res ((list (list num) * list (list num)) * rotatedcube) :=
  '(cur, self) ← disk_coordinates_3D_loop niter self None;
  match cur with
  | Some rt => Ok (rt, self)
  | None => Raise UnboundLocalError
  end.

(** Lines 119-122 of [imagecube.radial_profile], on a rotated cube:
    [try: rvals = self.disk_coordinates_3D()[0] except: rvals =
    self.disk_coordinates(x0, y0, inc, PA)[0]]. *)
Definition radial_profile_rvals (self : rotatedcube) (x0 y0 inc PA : num)
    : list (list num) :=
  match disk_coordinates_3D self 5 with
  | Ok (rt, _) => fst rt
  | Raise _ => fst (disk_coordinates self x0 y0 inc PA)
  end.

Definition set_emission_surface_analytical (self : rotatedcube)
    (func : string) (theta : list num) : res rotatedcube :=
  if String.eqb (lower func) "powerlaw" then
    if negb (length theta =? 2)%nat then Raise (ValueError "theta = [z_0, z_q].")
    else
      t0 ← index theta 0;
      t1 ← index theta 1;
      Ok (set_zvals self (map (fun r => (t0 * np.power r t1)%num) (rvals self)))
  else if String.eqb (lower func) "conical" then
    if negb ((1 <=? length theta)%nat && (length theta <? 3)%nat)
    then Raise (ValueError "theta = [psi, (z_0)].")
    else
      z0 ← (if (length theta =? 2)%nat then index theta 1 else Ok (Fin 0));
      t0 ← index theta 0;
      Ok (set_zvals self
            (map (fun r => (r * np.tan (np.radians t0) + z0)%num) (rvals self)))
  else Raise (ValueError "func must be 'powerlaw' or 'conical'.").

(** [imagecube._get_mask].  Its first statement calls
    [self.disk_coordinates_3D(x0, y0, inc)]; the method takes [niter] only
    (and a plain imagecube has no such method), so the call raises and the
    bare [except] takes the flat coordinates. *)
Definition _get_mask (self : imagecube) (r_min r_max PA_min PA_max : option num)
    (exclude_r exclude_PA : bool) (x0 y0 inc PA : num)
    : res (list (list bool)) :=
  '(rvals, tvals) ← try_except (Raise TypeError)
                      (Ok (disk_coordinates self x0 y0 inc PA));
  r_min ← match r_min with None => np.min (concat rvals) | Some v => Ok v end;
  r_max ← match r_max with None => np.max (concat rvals) | Some v => Ok v end;
  PA_min ← match PA_min with None => np.min (concat tvals) | Some v => Ok v end;
  PA_max ← match PA_max with None => np.max (concat tvals) | Some v => Ok v end;
  let r_mask := map (map (fun r => (r >=? r_min)%num && (r <=? r_max)%num)) rvals in
  let PA_mask := map (map (fun t => (t >=? PA_min)%num && (t <=? PA_max)%num)) tvals in
  let r_mask := if exclude_r then map (map negb) r_mask else r_mask in
  let PA_mask := if exclude_PA then map (map negb) PA_mask else PA_mask in
  Ok (zip_with (zip_with andb) r_mask PA_mask).

(** [a[mask]] on flattened arrays; the lengths must agree. *)
Definition boolean_index {A : Type} (a : list A) (mask : list bool)
    : res (list A) :=
  if (length a =? length mask)%nat
  then Ok (fst <$> List.filter snd (zip a mask))
  else Raise IndexError.

(** One call of a rotation solver, as the sweep makes it: the bin and the
    annulus handed over. *)
Inductive solver_call : Type :=
| call_dV (r : nat) (spectra : list (list num)) (angles : list num)
| call_GP (r : nat) (spectra : list (list num)) (angles : list num)
          (vkep : num).

Fixpoint foldM {A S : Type} (f : S -> A -> res S) (s : S) (l : list A)
    : res S :=
  match l with
  | [] => Ok s
  | a :: l' => s' ← f s a; foldM f s' l'
  end.

Section rotation.

(** [scipy.constants.G] and [scipy.constants.au]. *)
Variables sc_G sc_au : num.

(** [imagecube.msun] *)
Definition msun : num := Fin 1.988e30.

(** The spectral stage ([_deprojected_spectrum], lines 85-98, which ends
    in [functions.sort_arrays]) and the celerite model: [celerite_GP]
    stands for building the kernel and [gp.compute(x)], and returns
    [gp.log_likelihood]. *)
Variable _deprojected_spectrum :
  rotatedcube -> list (list num) -> list num -> num -> bool
  -> res (list num * list num).
Variable celerite_GP :
  num -> num -> num -> num -> list num -> res (list num -> num).

Definition _log_probability_M32 (self : rotatedcube) (theta : list num)
    (spectra : list (list num)) (angles : list num) (resample : bool)
    (vkep : num) : res num :=
  match theta with
  | [vrot; noise; lnsigma; lnrho] =>
      if (nabs (vrot - vkep) / vkep >? Fin 0.3)%num then Ok NInf
      else if (noise <=? Fin 0)%num then Ok NInf
      else if negb ((Fin (-5) <? lnsigma)%num && (lnsigma <? Fin 10)%num)
      then Ok NInf
      else if negb ((Fin 0 <=? lnrho)%num && (lnrho <=? Fin 10)%num)
      then Ok NInf
      else
        '(x, y) ← _deprojected_spectrum self spectra angles vrot resample;
        match celerite_GP (np.log noise) lnsigma lnrho (np.nanmean y) x with
        | Raise _ => Ok NInf
        | Ok log_likelihood =>
            let ll := log_likelihood y in
            Ok (if isfinite ll then ll else NInf)
        end
  | _ => Raise (ValueError "too many values to unpack")
  end.

(** The two solvers of rotatedcube.py, [_get_vrot_from_width] (built on
    scipy.optimize) and [_get_vrot_from_GP] (built on emcee). *)
Variable _get_vrot_from_width :
  rotatedcube -> list (list num) -> list num -> bool -> res ndarray.
Variable _get_vrot_from_GP :
  rotatedcube -> list (list num) -> list num -> bool -> nat -> nat -> nat
  -> bool -> bool -> num -> res ndarray.

Definition _projected_vkep (self : rotatedcube) (radius : num) : num :=
  let vkep := (sc_G * mstar self * msun)%num in
  let vkep := np.sqrt (vkep / radius / dist self / sc_au)%num in
  let vkep := (vkep * Fin 1)%num in
  (vkep * np.sin (np.radians (inc self)))%num.

(** The body of the [for r in range(1, rbins.size)] loop of
    [get_rotation_profile]; the state is [v_rot] and the solver calls
    made so far. *)
Definition get_rotation_profile_step (self : rotatedcube)
    (rbins : list num) (dvals_T : list (list num)) (tvals : list num)
    (resample : bool) (PA_min PA_max : option num) (exclude_PA : bool)
    (method : string) (nwalkers nburnin nsteps : nat)
    (plot_walkers plot_corner : bool)
    (st : list ndarray * list solver_call) (r : nat)
    : res (list ndarray * list solver_call) :=
  r_lo ← index rbins (r - 1);
  r_hi ← index rbins r;
  mask ← _get_mask self (Some r_lo) (Some r_hi) PA_min PA_max false
           exclude_PA (Fin 0) (Fin 0) (Fin 0) (Fin 0);
  spectra ← boolean_index dvals_T (concat mask);
  angles ← boolean_index tvals (concat mask);
  if String.eqb (lower method) "dV" then
    v ← _get_vrot_from_width self spectra angles resample;
    Ok (st.1 ++ [v], st.2 ++ [call_dV r spectra angles])
  else
    let radius := np.mean [r_lo; r_hi] in
    let vkep := _projected_vkep self radius in
    v ← _get_vrot_from_GP self spectra angles resample nwalkers nburnin
          nsteps plot_walkers plot_corner vkep;
    Ok (st.1 ++ [v], st.2 ++ [call_GP r spectra angles vkep]).

(** [get_rotation_profile]: the bin centres, one result per bin, the
    solver calls made, and the object (the raised coordinates may write
    to [zvals]). *)
Definition get_rotation_profile (self : rotatedcube) (include_height : bool)
    (rbins rpnts : option (list num)) (resample : bool)
    (PA_min PA_max : option num) (exclude_PA : bool) (method : string)
    (nwalkers nburnin nsteps : nat) (plot_walkers plot_corner : bool)
    : res ((list num * list ndarray) * list solver_call * rotatedcube) :=
  if negb (bool_decide (lower method ∈ ["dv"; "gp"]))
  then Raise (ValueError "Must specify method: 'dV' or 'GP'.")
  else
    let resample :=
      if String.eqb (lower method) "gp" && resample then false
      else resample in
    '(rt, self) ← (if include_height then disk_coordinates_3D self 5
                   else Ok (disk_coordinates self (x0 self) (y0 self)
                              (inc self) (Fin 0), self)
                   : res ((list (list num) * list (list num)) * rotatedcube));
    let self : rotatedcube := self in
    let tvals := concat rt.2 in
    '(rbins, rpnts) ← _radial_sampling self rbins rpnts;
    let dvals := map (fun channel => concat channel) (data self) in
    if negb ((length dvals =? length (velax self))%nat
             && forallb (fun ch => (length ch
                          =? length (xaxis self) * length (yaxis self))%nat)
                        dvals)
    then Raise (ValueError "Wrong data shape.")
    else
      let dvals_T :=
        map (fun p => map (fun ch => nth p ch NaN) dvals)
            (seq 0 (length (xaxis self) * length (yaxis self))) in
      '(v_rot, calls) ←
        foldM (get_rotation_profile_step self rbins dvals_T tvals resample
                 PA_min PA_max exclude_PA method nwalkers nburnin nsteps
                 plot_walkers plot_corner)
              (([], []) : list ndarray * list solver_call)
              (seq 1 (length rbins - 1));
      Ok ((rpnts, v_rot), calls, self).

End rotation.

(** ** misc/rotatedcube.py: the second rotatedcube class *)

Module misc.

Record rotatedcube : Type := mk_rotatedcube {
  base :> imagecube;
  PA : num;
  x0 : num;
  y0 : num;
  inc : num;
  dist : num;
  mstar : num;
  nearest : string;
  tilt : num;
  verbose : bool;
  rbins : list num;
  rvals : list num;
  zvals : list num
}.

Definition set_zvals (self : rotatedcube) (z : list num) : rotatedcube :=
  mk_rotatedcube (base self) (PA self) (x0 self) (y0 self) (inc self)
    (dist self) (mstar self) (nearest self) (tilt self) (verbose self)
    (rbins self) (rvals self) z.

Definition emission_surface (self : rotatedcube) (radii : ndarray)
    : res (ndarray * rotatedcube) :=
  '(z, zvals) ← emission_surface_body (rvals self) (zvals self) radii;
  Ok (z, set_zvals self zvals).

(** A solver call made by the sweep: the bin and the reference velocity. *)
Inductive solver_call : Type :=
| call_dV (r : nat) (vref : num)
| call_GP (r : nat) (vref : num).

(** The not-available results, [np.nan] and [np.nan * np.ones((3, 4))]. *)
Definition nan_scalar : ndarray := Scalar NaN.

Definition nan_array : ndarray :=
  Img (replicate 3 (map (fun one => (NaN * one)%num) (np.ones 4))).

Definition zeros_array : ndarray := Img (replicate 3 (np.zeros 4)).

Section sweep.

Variables sc_G sc_au : num.

(** What this class takes from outside src/: whether the eddy package
    can be imported; [get_annulus] of the newer imagecube (it is handed
    [self.emission_surface], so it may write to [self.zvals]); eddy's
    [ensemble] objects and their two solvers; the keyword arguments
    passed through to the GP solver, with the three entries the sweep
    sets. *)
Variable eddy_found : bool.
Variable annulus : Type.
Variable kwargs : Type.
Variable set_return_all_no_plots : kwargs -> kwargs.
Variable get_annulus :
  rotatedcube -> num -> num -> option num -> option num -> bool -> bool
  -> res ((list (list num) * list num) * rotatedcube).
Variable ensemble :
  list (list num) -> list num -> list num -> res annulus.
Variable get_vrot_dV : annulus -> num -> res ndarray.
Variable get_vrot_GP : annulus -> num -> kwargs -> res ndarray.

Definition projected_vkep (self : rotatedcube) (rvals theta : num)
    : res (num * rotatedcube) :=
  '(z, self) ← emission_surface self (Scalar rvals);
  let self : rotatedcube := self in
  let z := (match z with Scalar z => z | _ => NaN end
            * dist self * sc_au)%num in
  let r := (rvals * dist self * sc_au)%num in
  let vkep := (sc_G * mstar self * msun * np.power r (Fin 2))%num in
  let vkep := np.sqrt (vkep / np.power (np.hypot r z) (Fin 3))%num in
  Ok ((vkep * np.sin (np.radians (inc self)) * np.cos theta)%num, self).

Record sweep_state : Type := mk_sweep_state {
  self_ : rotatedcube;
  kwargs_ : kwargs;
  v_rot : list ndarray;
  calls : list solver_call
}.

(** The body of the loop over [r in range(1, rbins.size)]. *)
Definition get_rotation_profile_step (rbins rpnts : list num)
    (PA_min PA_max : option num) (exclude_PA : bool) (method : string)
    (beam_spacing : bool) (st : sweep_state) (r : nat)
    : res sweep_state :=
  r_lo ← index rbins (r - 1);
  r_hi ← index rbins r;
  '((spectra, theta), self) ←
    get_annulus (self_ st) r_lo r_hi PA_min PA_max exclude_PA beam_spacing;
  if (length (theta : list num) <? 2)%nat then
    Ok (mk_sweep_state self (kwargs_ st)
          (v_rot st ++ [if String.eqb (lower method) "dv"
                        then nan_scalar else nan_array])
          (calls st))
  else if (np.nansum (concat (spectra : list (list num))) =? Fin 0)%num then
    Ok (mk_sweep_state self (kwargs_ st)
          (v_rot st ++ [if String.eqb (lower method) "dv"
                        then nan_scalar else nan_array])
          (calls st))
  else
    a ← ensemble spectra theta (velax (base self));
    rp ← index rpnts (r - 1);
    '(v_kep, self) ← projected_vkep self rp (Fin 0);
    if String.eqb (lower method) "dv" then
      v ← get_vrot_dV a v_kep;
      Ok (mk_sweep_state self (kwargs_ st) (v_rot st ++ [v])
            (calls st ++ [call_dV r v_kep]))
    else
      let kw := set_return_all_no_plots (kwargs_ st) in
      let v := match get_vrot_GP a v_kep kw with
               | Ok v => v
               | Raise _ => zeros_array
               end in
      Ok (mk_sweep_state self kw (v_rot st ++ [v])
            (calls st ++ [call_GP r v_kep])).

Definition get_rotation_profile (self : rotatedcube)
    (rbins rpnts : option (list num)) (resample : bool)
    (PA_min PA_max : option num) (exclude_PA : bool) (method : string)
    (beam_spacing : bool) (kw : kwargs)
    : res ((list num * list ndarray) * list solver_call * rotatedcube) :=
  if negb eddy_found
  then Raise (ValueError "Cannot find the eddy package.")
  else if negb (bool_decide (lower method ∈ ["dv"; "gp"]))
  then Raise (ValueError "Must specify method: 'dV' or 'GP'.")
  else
    '(rbins, rpnts) ← _radial_sampling self rbins rpnts;
    st ← foldM (get_rotation_profile_step rbins rpnts PA_min PA_max
                  exclude_PA method beam_spacing)
               (mk_sweep_state self kw [] [])
               (seq 1 (length rbins - 1));
    Ok ((rpnts, v_rot st), calls st, self_ st).

End sweep.

End misc.

(** ** Predicates used in the statements *)

(** Radii in strictly increasing order. *)
Fixpoint increasing (l : list R) : Prop :=
  match l with
  | a :: (b :: _) as t => a < b /\ increasing t
  | _ => True
  end.

(** The plain polar coordinates of the sky offsets from [(x0, y0)], on the
    same pixel grid as [disk_coordinates] (which runs over [xaxis[::-1]]). *)
Definition sky_polar (self : imagecube) (x0 y0 : num)
    : list (list num) * list (list num) :=
  let '(x_sky, y_sky) :=
    np.meshgrid (map (fun x => (x - x0)%num) (reverse (xaxis self)))
                (map (fun y => (y - y0)%num) (yaxis self)) in
  (np.zip2d np.hypot x_sky y_sky, np.zip2d np.arctan2 y_sky x_sky).

(** The same cube with its x axis stored in the opposite order. *)
Definition mirror_x (self : imagecube) : imagecube :=
  mk_imagecube (header self) (reverse (xaxis self)) (yaxis self) (velax self)
    (bmaj self) (data self).

(** [f] at every pixel: rows run over [ys], columns over [xs]. *)
Definition outer {A B C : Type} (f : A -> B -> C) (xs : list A) (ys : list B)
    : list (list C) :=
  map (fun y => map (fun x => f x y) xs) ys.

(** The fields of a thin disk of inclination [i] degrees about the origin,
    on the axes as stored. *)
Definition thin_radius (xs ys : list R) (i : R) : list (list num) :=
  outer (fun x y =>
           Fin (sqrt (x * x
                      + y / cos (i * (PI / 180)) * (y / cos (i * (PI / 180))))))
        xs ys.

Definition thin_azimuth (xs ys : list R) (i : R) : list (list num) :=
  outer (fun x y => Fin (Ratan2 (y / cos (i * (PI / 180))) x)) xs ys.

(** A radius image with finite entries, of the shape of the grid. *)
Definition finite_image (xs ys : list R) (rpix : list (list num)) : Prop :=
  exists rr : list (list R),
    rpix = map (map Fin) rr /\ length rr = length ys
    /\ Forall (fun row => length row = length xs) rr.

(** The interpolant over a table of zeros. *)
Definition zero_table (rs : list R) : scipy.interp1d :=
  scipy.mk_interp1d (map Fin rs) (np.zeros (length rs)) true.

(** The priors of [_log_probability_M32] on real parameters, as the code
    tests them, and as the specification words them (log-amplitude
    "outside [-5, 10]"). *)
Definition prior_violated (vrot noise lnsigma lnrho vkep : R) : Prop :=
  Rabs (vrot - vkep) > 0.3 * vkep \/ noise <= 0
  \/ lnsigma <= -5 \/ 10 <= lnsigma \/ lnrho < 0 \/ 10 < lnrho.

Definition spec_prior_violated (vrot noise lnsigma lnrho vkep : R) : Prop :=
  Rabs (vrot - vkep) > 0.3 * vkep \/ noise <= 0
  \/ lnsigma < -5 \/ 10 < lnsigma \/ lnrho < 0 \/ 10 < lnrho.

(** ** Concrete headers and cubes used in the examples *)

(** A frequency axis of two channels, 1 Hz apart, at a rest frequency of
    100 Hz. *)
Definition header_freq : gmap string hval :=
  <["ctype3" := HStr "FREQ"]>
    (<["naxis3" := HInt 2]>
       (<["cdelt3" := HFloat (Fin 1)]>
          (<["crpix3" := HFloat (Fin 1)]>
             (<["crval3" := HFloat (Fin 100)]>
                (<["restfreq" := HFloat (Fin 100)]> ∅))))).

(** Five pixels in a row from -2 to 2 arcsec, one channel, a 2 arcsec
    beam. *)
Definition cube5 : imagecube :=
  mk_imagecube ∅ [Fin (-2); Fin (-1); Fin 0; Fin 1; Fin 2] [Fin 0] [Fin 0]
    (Fin 2) [[[Fin 1; Fin 1; Fin 1; Fin 1; Fin 1]]].

(** A single pixel at sky offset (1, 1). *)
Definition cube3 : imagecube :=
  mk_imagecube ∅ [Fin 1] [Fin 1] [] (Fin 1) [].

(** Two pixels at x = 0 and x = 1, one row at y = 0; face-on, with a table
    of zeros. *)
Definition cube2_image : imagecube :=
  mk_imagecube ∅ [Fin 0; Fin 1] [Fin 0] [] (Fin 1) [].

Definition cube2 : rotatedcube :=
  mk_rotatedcube cube2_image "north" (Fin 0) (Fin 0) (Fin 0) (Fin 100) (Fin 1)
    [] [] [] [Fin 1; Fin 2] [Fin 0; Fin 0].

(** [cube5] with a table over the radii 0.75 and 1.25. *)
Definition cube8 : rotatedcube :=
  mk_rotatedcube cube5 "north" (Fin 0) (Fin 0) (Fin 30) (Fin 100) (Fin 1)
    [] [] [Fin 0.5; Fin 1; Fin 1.5] [Fin 0.75; Fin 1.25] [Fin 0; Fin 0].

(** A table with a NaN at the front, one in the middle and one at the end. *)
Definition cube10w : rotatedcube :=
  mk_rotatedcube cube5 "north" (Fin 0) (Fin 0) (Fin 30) (Fin 100) (Fin 1)
    [] [] [] [Fin 1; Fin 2; Fin 3; Fin 4; Fin 5]
    [NaN; Fin 4; NaN; Fin 7; NaN].

(** A table with a NaN in the middle only. *)
Definition cube10 : rotatedcube :=
  mk_rotatedcube cube5 "north" (Fin 0) (Fin 0) (Fin 30) (Fin 100) (Fin 1)
    [] [] [] [Fin 1; Fin 2; Fin 3] [Fin 1; NaN; Fin 2].

(** The object [__init__] builds on [cube5], inclined by 30 degrees. *)
Definition cube7 : rotatedcube :=
  mk_rotatedcube cube5 "north" (Fin 0) (Fin 0) (Fin 30) (Fin 100) (Fin 1)
    (disk_coordinates cube5 (Fin 0) (Fin 0) (Fin 30) (Fin 0)).1
    (disk_coordinates cube5 (Fin 0) (Fin 0) (Fin 30) (Fin 0)).2
    [Fin 0.5; Fin 1; Fin 1.5] [Fin 0.75; Fin 1.25] [Fin 0; Fin 0].

(** A well-posed stand-in for the two collaborators of the log-posterior:
    a two-point pooled spectrum and a likelihood that is 0 everywhere. *)
Definition spectrum6 : rotatedcube -> list (list num) -> list num -> num -> bool
    -> res (list num * list num) :=
  fun _ _ _ _ _ => Ok ([Fin 0; Fin 1], [Fin 1; Fin 2]).

Definition gp6 : num -> num -> num -> num -> list num -> res (list num -> num) :=
  fun _ _ _ _ _ => Ok (fun _ => Fin 0).

(** ** Further methods of cube.py *)

Fixpoint mapM {A B : Type} (f : A -> res B) (l : list A) : res (list B) :=
  match l with
  | [] => Ok []
  | a :: l' => b ← f a; bs ← mapM f l'; Ok (b :: bs)
  end.

(** [np.arange(a_len)] on a header value. *)
Definition arange_hval (a_len : hval) : res (list num) :=
  match a_len with
  | HInt n => Ok (np.arange_n (Z.to_nat n))
  | HFloat v => np.arange (Fin 0) v (Fin 1)
  | HStr _ => Raise TypeError
  end.

(** ['naxis%d' % a] for [a] in [[1, 2]]. *)
Definition axis_key (name : string) (a : Z) : string :=
  name +:+ (if (a =? 1)%Z then "1" else "2").

(** [imagecube._readpositionaxis]; [absolute] is [self.absolute]. *)
Definition _readpositionaxis (header : gmap string hval) (absolute : bool)
    (a : Z) : res (list num) :=
  if negb (bool_decide (a ∈ [1%Z; 2%Z]))
  then Raise (ValueError "'a' must be in [0, 1].")
  else
    a_len ← getitem header (axis_key "naxis" a);
    a_del ← getitem header (axis_key "cdelt" a);
    a_del ← (if (a =? 1)%Z && absolute then
               crval2 ← getitem header "crval2";
               crval2 ← as_num crval2;
               a_del ← as_num a_del;
               Ok (HFloat (a_del / np.cos (np.radians crval2))%num)
             else Ok a_del);
    a_pix ← getitem header (axis_key "crpix" a);
    a_ref ← getitem header (axis_key "crval" a);
    '(a_ref, a_pix) ← (if negb absolute then
                         a_pix ← as_num a_pix;
                         Ok (HFloat (Fin 0), HFloat (a_pix - Fin 0.5)%num)
                       else Ok (a_ref, a_pix));
    idx ← arange_hval a_len;
    a_pix ← as_num a_pix;
    a_del ← as_num a_del;
    a_ref ← as_num a_ref;
    let axis := map (fun i => (a_ref + (i - a_pix + Fin 1) * a_del)%num) idx in
    if absolute then Ok axis
    else Ok (map (fun v => (Fin 3600 * v)%num) axis).

(** The beam attributes that [imagecube.__init__] leaves on [self] next to
    [bmaj]: [self.bmin], [self.bpa] and the pixel size [self.dpix]. *)
Record beam : Type := mk_beam {
  beam_bmaj : num;
  bmin : num;
  bpa : hval;
  dpix : num
}.

(** [imagecube._calculate_beam_area_str] *)
Definition _calculate_beam_area_str (self : beam) : num :=
  let omega := np.radians (bmin self / Fin 3600) in
  let omega := (omega * np.radians (beam_bmaj self / Fin 3600))%num in
  if (bmin self =? dpix self)%num && (beam_bmaj self =? dpix self)%num
  then omega
  else (Fin PI * omega / Fin 4 / np.log (Fin 2))%num.

(** [imagecube._calculate_beam_area_pix] *)
Definition _calculate_beam_area_pix (self : beam) : num :=
  let omega := (bmin self * beam_bmaj self / np.power (dpix self) (Fin 2))%num in
  if (bmin self =? dpix self)%num && (beam_bmaj self =? dpix self)%num
  then omega
  else (Fin PI * omega / Fin 2 / np.log (Fin 2))%num.

(** The property [imagecube.beam_per_pix] *)
Definition beam_per_pix (self : beam) : num :=
  (_calculate_beam_area_pix self / np.power (dpix self) (Fin 2))%num.

(** Lines 49-58 of [imagecube.__init__]: the beam is read from the header
    inside a bare [try]; any failure makes the beam one pixel.  Returns
    the beam attributes and [self.beamarea]. *)
Definition init_beam (header : gmap string hval) (dpix : num)
    : beam * num :=
  let from_header : res (beam * num) :=
    bmaj ← getitem header "bmaj" ≫= as_num;
    let bmaj := (bmaj * Fin 3600)%num in
    bmin ← getitem header "bmin" ≫= as_num;
    let bmin := (bmin * Fin 3600)%num in
    bpa ← getitem header "bpa";
    let b := mk_beam bmaj bmin bpa dpix in
    Ok (b, _calculate_beam_area_pix b) in
  match from_header with
  | Ok r => r
  | Raise _ =>
      (mk_beam dpix dpix (HFloat (Fin 0)) dpix, np.power dpix (Fin 2))
  end.

Section keplerian.

(** [scipy.constants.G] and [scipy.constants.au]. *)
Variables sc_G sc_au : num.

(** [imagecube._keplerian_profile]; [None] stands for an omitted [rout]
    or [rin]. *)
Definition _keplerian_profile (self : imagecube) (x0 y0 inc PA mstar : num)
    (rout rin : option num) (dist vlsr : num) : list (list num) :=
  let '(rvals, tvals) := disk_coordinates self x0 y0 inc PA in
  let rvals := np.map2d (fun r => (r * dist)%num) rvals in
  let vkep :=
    np.map2d (fun r => np.sqrt (sc_G * mstar * msun / r / sc_au)%num) rvals in
  let vkep :=
    np.zip2d (fun v t => (v * (np.sin (np.radians inc) * np.cos t))%num)
             vkep tvals in
  let vkep := np.map2d (fun v => (v + vlsr)%num) vkep in
  let vkep :=
    match rin with
    | Some rin =>
        np.zip2d (fun r v => if (r <? rin)%num then NaN else v) rvals vkep
    | None => vkep
    end in
  match rout with
  | Some rout =>
      np.zip2d (fun r v => if (r >? rout)%num then NaN else v) rvals vkep
  | None => vkep
  end.

End keplerian.

(** [imagecube._collapse_cube] for a cube of three dimensions, which is
    what [data] holds ([self.data.ndim > 2]). *)

(** The image of zeros of the shape of one channel; a cube without
    channels has the shape of the two axes. *)
Definition zeros_image (self : imagecube) : list (list num) :=
  match data self with
  | channel :: _ => np.map2d (fun _ => Fin 0) channel
  | [] => replicate (length (yaxis self)) (np.zeros (length (xaxis self)))
  end.

(** [np.amax(data, axis=0)]: NaN wins; no channel is a [ValueError]. *)
Definition amax0 (data : list (list (list num))) : res (list (list num)) :=
  match data with
  | [] => Raise (ValueError "zero-size array to reduction operation")
  | channel :: rest => Ok (foldl (np.zip2d np.max2) channel rest)
  end.

(** [np.nansum(data, axis=0)] *)
Definition nansum0 (zero : list (list num)) (data : list (list (list num)))
    : list (list num) :=
  foldl (np.zip2d (fun s v => if isnan v then s else (s + v)%num)) zero data.

(** numpy's broadcasting of two arrays along their first axis. *)
Definition broadcast0 {A B C : Type} (f : A -> B -> C) (a : list A)
    (b : list B) : res (list C) :=
  if (length a =? length b)%nat then Ok (zip_with f a b)
  else
    match a, b with
    | [x], _ => Ok (map (f x) b)
    | _, [y] => Ok (map (fun x => f x y) a)
    | _, _ => Raise (ValueError "operands could not be broadcast together")
    end.

(** [np.trapz(y, x, axis=0)] for a cube [y] and a one-dimensional [x]:
    [(d * (y[1:] + y[:-1]) / 2.0).sum(0)] with [d = diff(x)]. *)
Definition trapz0 (zero : list (list num)) (y : list (list (list num)))
    (x : list num) : res (list (list num)) :=
  let d := np.diff x in
  let pairs :=
    zip_with (np.zip2d nadd) (drop 1 y) (take (length y - 1) y) in
  terms ← broadcast0
             (fun di s => np.map2d (fun v => (di * v / Fin 2)%num) s)
             d pairs;
  Ok (foldl (np.zip2d nadd) zero terms).

Definition _collapse_cube (self : imagecube) (method : string)
    : res (list num) :=
  if negb (bool_decide (lower method ∈ ["max"; "sum"; "int"]))
  then Raise (ValueError "Must choose collpase method: max, sum, int.")
  else
    to_avg ←
      (if String.eqb (lower method) "max" then amax0 (data self)
       else if String.eqb (lower method) "sum"
       then Ok (nansum0 (zeros_image self) (data self))
       else
         let to_avg :=
           map (np.map2d (fun v => if isfinite v then v else Fin 0))
               (data self) in
         trapz0 (zeros_image self) to_avg (velax self));
    Ok (concat to_avg).

(** ** [imagecube.radial_profile] *)

(** numpy's test of the bin edges: 1 for edges that never decrease, -1
    for edges that never increase, 0 otherwise; leading repeats are
    skipped, and a comparison with NaN is false. *)
Fixpoint skip_equal (last : num) (l : list num) : list num :=
  match l with
  | a :: l' => if (a =? last)%num then skip_equal last l' else l
  | [] => []
  end.

Fixpoint never_decreases (last : num) (l : list num) : bool :=
  match l with
  | [] => true
  | a :: l' => if (last >? a)%num then false else never_decreases a l'
  end.

Fixpoint never_increases (last : num) (l : list num) : bool :=
  match l with
  | [] => true
  | a :: l' => if (last <? a)%num then false else never_increases a l'
  end.

Definition monotonicity (bins : list num) : Z :=
  match bins with
  | [] => 1
  | a0 :: rest =>
      match skip_equal a0 rest with
      | [] => 1
      | next :: rest' =>
          if (a0 <? next)%num
          then (if never_decreases next rest' then 1 else 0)
          else (if never_increases next rest' then -1 else 0)
      end
  end%Z.

(** [np.searchsorted(bins, v, side='right')] on sorted [bins]: how many
    entries come at or before [v]. *)
Definition searchsorted_right (bins : list num) (v : num) : nat :=
  length (List.filter (fun b => scipy.sort_leb b v) bins).

(** [np.digitize(x, bins)]: for increasing edges the index [i] with
    [bins[i-1] <= x < bins[i]], for decreasing edges the one with
    [bins[i-1] > x >= bins[i]]. *)
Definition digitize (x bins : list num) : res (list nat) :=
  match monotonicity bins with
  | 0%Z =>
      Raise (ValueError "bins must be monotonically increasing or decreasing")
  | Zneg _ =>
      Ok (map (fun v => length bins - searchsorted_right (reverse bins) v)%nat
              x)
  | Zpos _ => Ok (map (searchsorted_right bins) x)
  end.

(** [np.nanstd]: the root of the mean squared deviation of the entries
    that are not NaN; NaN when there is none. *)
Definition nanstd (a : list num) : num :=
  let vals := List.filter (fun v => negb (isnan v)) a in
  let cnt := Fin (INR (length vals)) in
  let avg := (np.sum vals / cnt)%num in
  let sqr := map (fun v => ((v - avg) * (v - avg))%num) vals in
  if (length vals =? 0)%nat then NaN else np.sqrt (np.sum sqr / cnt)%num.

(** [np.squeeze] of a list of numbers. *)
Definition squeeze_list (l : list num) : ndarray :=
  match l with
  | [v] => Scalar v
  | _ => Vec l
  end.

(** The in-place division [dy /= n] by a one-dimensional [n]: the result
    must have the shape of [dy]. *)
Definition idiv_rows (row n : list num) : res (list num) :=
  if (length row =? length n)%nat then Ok (zip_with ndiv row n)
  else
    match n with
    | [n0] => Ok (map (fun v => (v / n0)%num) row)
    | _ => Raise (ValueError "non-broadcastable output operand")
    end.

Definition idiv (dy : ndarray) (n : list num) : res ndarray :=
  match dy with
  | Scalar _ => Raise (ValueError "non-broadcastable output operand")
  | Vec row => row ← idiv_rows row n; Ok (Vec row)
  | Img rows => rows ← mapM (fun row => idiv_rows row n) rows; Ok (Img rows)
  end.

(** Python's [min(a, b)] and [max(a, b)] on two numbers. *)
Definition py_min (a b : num) : num := if (b <? a)%num then b else a.
Definition py_max (a b : num) : num := if (b >? a)%num then b else a.

Section radial_profile.

(** The statistic ['percentiles']: [np.nanpercentile] of each bin and
    [functions.percentiles_to_errors], which is not part of the files
    modelled here; it is handed the samples of the bins and returns [y]
    and [dy]. *)
Variable percentiles : list (list num) -> res (ndarray * ndarray).

(** [imagecube.radial_profile] on an object of the class itself, which
    has no [disk_coordinates_3D]: the [try] of lines 119-122 fails and
    the flat radii are used.  [clip_values] is the list of the values
    given (a single number is a list of one). *)
Definition radial_profile (self : imagecube) (rpnts rbins : option (list num))
    (x0 y0 inc PA : num) (collapse statistic : string)
    (PA_min PA_max : option num) (exclude_PA beam_factor : bool)
    (clip_values : option (list num))
    : res (list num * ndarray * ndarray) :=
  to_avg ← _collapse_cube self collapse;
  '(rbins, rpnts) ← _radial_sampling self rbins rpnts;
  rvals ← try_except (Raise AttributeError)
             (Ok (concat (disk_coordinates self x0 y0 inc PA).1));
  r_min ← index rbins 0;
  r_max ← index_last rbins;
  mask ← _get_mask self (Some r_min) (Some r_max) PA_min PA_max false
           exclude_PA (Fin 0) (Fin 0) (Fin 0) (Fin 0);
  let mask := concat mask in
  if negb (length mask =? length to_avg)%nat
  then Raise (ValueError "Mask and data sizes do not match.")
  else
    mask ← match clip_values with
           | None => Ok mask
           | Some [c] =>
               Ok (zip_with andb mask
                     (map (fun v => (nabs v >=? c)%num) to_avg))
           | Some clip =>
               c0 ← index clip 0;
               c1 ← index clip 1;
               Ok (zip_with andb mask
                     (map (fun v => (v <=? c0)%num || (v >=? c1)%num) to_avg))
           end;
    rvals ← boolean_index rvals mask;
    to_avg ← boolean_index to_avg mask;
    ridxs ← digitize rvals rbins;
    if negb (bool_decide (lower statistic ∈ ["mean"; "percentiles"]))
    then Raise (ValueError "Must choose statistic: mean or percentiles.")
    else
      let samples :=
        map (fun r => fst <$> List.filter (fun p => (p.2 =? r)%nat)
                                          (zip to_avg ridxs))
            (seq 1 (length rbins - 1)) in
      '(y, dy) ← (if String.eqb (lower statistic) "mean" then
                    Ok (squeeze_list (map np.nanmean samples),
                        squeeze_list (map nanstd samples))
                  else percentiles samples);
      dy ← (if beam_factor then
              let n_beams :=
                map (fun r => (Fin 2 * Fin PI * r / bmaj self)%num) rpnts in
              let PA_min := default (Fin (- PI)) PA_min in
              let PA_max := default (Fin PI) PA_max in
              let n_beams :=
                if negb (PA_min =? Fin (- PI))%num
                   || negb (PA_max =? Fin PI)%num
                then
                  let arc := ((PA_max - PA_min) / Fin 2 / Fin PI)%num in
                  let arc := py_max (Fin 0) (py_min arc (Fin 1)) in
                  if exclude_PA
                  then map (fun n => (n * (Fin 1 - arc))%num) n_beams
                  else map (fun n => (n * arc)%num) n_beams
                else n_beams in
              idiv dy (map np.sqrt n_beams)
            else Ok dy);
      Ok (rpnts, y, dy).

End radial_profile.

(** ** Further methods of rotatedcube.py *)

(** [np.squeeze] of a list of rows. *)
Definition squeeze_rows (rows : list (list num)) : ndarray :=
  match rows with
  | [] => Vec []
  | [row] => match row with [v] => Scalar v | _ => Vec row end
  | _ =>
      if forallb (fun row => (length row =? 1)%nat) rows
      then Vec (concat rows)
      else Img rows
  end.

(** Column [j] of an array of rows. *)
Definition column (rows : list (list num)) (j : nat) : list num :=
  map (fun row => nth j row NaN) rows.

(** [np.nanmean(a, axis=0)]; an array without dimensions has no axis 0. *)
Definition nanmean0 (a : ndarray) : res ndarray :=
  match a with
  | Scalar v => Raise (ValueError "axis 0 is out of bounds")
  | Vec l => Ok (Scalar (np.nanmean l))
  | Img rows =>
      Ok (Vec (map (fun j => np.nanmean (column rows j))
                   (seq 0 (length (nth 0 rows [])))))
  end.

Module spectra.

(** [rotatedcube._deproject_spectra] *)
Definition _deproject_spectra (self : rotatedcube) (spectra : list (list num))
    (angles : list num) (vrot : num) : res ndarray :=
  deprojected ←
    mapM (fun sa : list num * num =>
            let '(spectrum, angle) := sa in
            f ← scipy.new
                  (map (fun v => (v - vrot * np.cos angle)%num) (velax self))
                  spectrum true;
            z ← scipy.call f (Vec (velax self));
            Ok (ndflatten z))
         (zip spectra angles);
  Ok (squeeze_rows deprojected).

Section sort_arrays.

(** [functions.sort_arrays], which is not part of the files modelled
    here. *)
Variable sort_arrays : list num -> list num -> res (list num * list num).

(** [rotatedcube._deprojected_spectrum] *)
Definition _deprojected_spectrum (self : rotatedcube)
    (spectra : list (list num)) (angles : list num) (vrot : num)
    (resample : bool) : res (ndarray * ndarray) :=
  deprojected ← _deproject_spectra self spectra angles vrot;
  if resample then
    y ← nanmean0 deprojected;
    Ok (Vec (velax self), y)
  else
    velax ← match deprojected with
            | Img rows =>
                Ok (concat (map (fun row =>
                                   zip_with nmul (velax self)
                                            (np.ones (length row))) rows))
            | Vec row =>
                broadcast0 nmul (velax self) (np.ones (length row))
            | Scalar _ => Ok (map (fun v => (v * Fin 1)%num) (velax self))
            end;
    '(x, y) ← sort_arrays velax (ndflatten deprojected);
    Ok (Vec x, Vec y).

End sort_arrays.

End spectra.

(** ** Further methods of misc/rotatedcube.py *)

Module misc_surface.

Definition set_nearest (self : misc.rotatedcube) (nearest : string)
    (tilt : num) : misc.rotatedcube :=
  misc.mk_rotatedcube (misc.base self) (misc.PA self) (misc.x0 self)
    (misc.y0 self) (misc.inc self) (misc.dist self) (misc.mstar self)
    nearest tilt (misc.verbose self) (misc.rbins self) (misc.rvals self)
    (misc.zvals self).

(** [set_emission_surface_analytical] of misc/rotatedcube.py.  The
    object is returned next to the outcome, since [self.nearest] and
    [self.tilt] are written before [z_type] and [params] are checked. *)
Definition set_emission_surface_analytical (self : misc.rotatedcube)
    (z_type : string) (params : list num) (nearest : option string)
    : misc.rotatedcube * res unit :=
  match nearest with
  | None =>
      (self,
       Raise (ValueError "Must specifiy which side of the disk is closer."))
  | Some nearest =>
      if negb (bool_decide (nearest ∈ ["north"; "south"]))
      then (self, Raise (ValueError "Nearest must be 'north' or 'south'."))
      else
        let self :=
          set_nearest self nearest
            (if String.eqb nearest "north" then Fin 1 else Fin (-1)) in
        if String.eqb (lower z_type) "flared" then
          if negb (length params =? 2)%nat
          then (self, Raise (ValueError "theta = [z_0, z_q]."))
          else
            let p0 := nth 0 params NaN in
            let p1 := nth 1 params NaN in
            (misc.set_zvals self
               (map (fun r => (p0 * np.power r p1)%num) (misc.rvals self)),
             Ok ())
        else if String.eqb (lower z_type) "conical" then
          if negb ((1 <=? length params)%nat && (length params <? 3)%nat)
          then (self, Raise (ValueError "theta = [psi, (z_0)]."))
          else
            let z0 := if (length params =? 2)%nat then nth 1 params NaN
                      else Fin 0 in
            let p0 := nth 0 params NaN in
            (misc.set_zvals self
               (map (fun r => (r * np.tan (np.radians p0) + z0)%num)
                    (misc.rvals self)),
             Ok ())
        else
          (self, Raise (ValueError "func must be 'powerlaw' or 'conical'."))
  end.

Section keplerian.

Variables sc_G sc_au : num.

(** [_keplerian_mstar] and [_keplerian_inc], at one radius. *)
Definition _keplerian_mstar (self : misc.rotatedcube) (rvals mstar : num)
    : num :=
  let vkep :=
    np.sqrt (sc_G * mstar * msun / rvals / sc_au / misc.dist self)%num in
  (vkep * np.sin (np.radians (misc.inc self)))%num.

Definition _keplerian_inc (self : misc.rotatedcube) (rvals inc : num)
    : num :=
  let vkep :=
    (sc_G * misc.mstar self * msun / rvals / sc_au / misc.dist self)%num in
  np.sqrt (vkep * np.sin (np.radians inc))%num.

End keplerian.

End misc_surface.

(** ** Further predicates used in the statements *)

(** A header card that holds the real number [x], as an integer or as a
    float. *)
Definition header_real (header : gmap string hval) (key : string) (x : R)
    : Prop :=
  exists v, header !! key = Some v /\ as_num v = Ok (Fin x).

(** Values in strictly decreasing order. *)
Fixpoint decreasing (l : list R) : Prop :=
  match l with
  | a :: (b :: _) as t => b < a /\ decreasing t
  | _ => True
  end.

(** The entry of an image in row [j], column [i]. *)
Definition pixel {A : Type} (img : list (list A)) (j i : nat) : option A :=
  img !! j ≫= fun row => row !! i.

(** Two states of the loop of [misc.get_rotation_profile] that differ in
    the results recorded only. *)
Definition same_but_results {kwargs : Type}
    (s1 s2 : misc.sweep_state kwargs) : Prop :=
  misc.self_ _ s1 = misc.self_ _ s2
  /\ misc.kwargs_ _ s1 = misc.kwargs_ _ s2
  /\ misc.calls _ s1 = misc.calls _ s2
  /\ length (misc.v_rot _ s1) = length (misc.v_rot _ s2).

(** ** Further headers and cubes used in the examples *)

(** A spectral axis of three channels, 2 units apart, whose second pixel
    is the reference pixel, at 10. *)
Definition header_line : gmap string hval :=
  <["naxis3" := HInt 3]>
    (<["cdelt3" := HFloat (Fin 2)]>
       (<["crpix3" := HInt 2]>
          (<["crval3" := HFloat (Fin 10)]> ∅))).

(** The position cards of an image of 4 by 4 pixels, one degree per
    pixel, centred on right ascension 30 and declination 60 degrees. *)
Definition header_sky : gmap string hval :=
  <["naxis1" := HInt 4]>
    (<["cdelt1" := HFloat (Fin (-1))]>
       (<["crpix1" := HInt 3]>
          (<["crval1" := HFloat (Fin 30)]>
             (<["naxis2" := HInt 4]>
                (<["cdelt2" := HFloat (Fin 1)]>
                   (<["crpix2" := HInt 3]>
                      (<["crval2" := HFloat (Fin 60)]> ∅))))))).

(** A beam of 3 by 2 arcsec on pixels of 1 arcsec. *)
Definition beam3 : beam := mk_beam (Fin 3) (Fin 2) (HFloat (Fin 0)) (Fin 1).

(** A header with the two beam axes but no position angle. *)
Definition header_no_bpa : gmap string hval :=
  <["bmaj" := HFloat (Fin 0.001)]> (<["bmin" := HFloat (Fin 0.001)]> ∅).

(** [cube5] with a table of two radii whose heights are both NaN. *)
Definition cube_nan : rotatedcube :=
  mk_rotatedcube cube5 "north" (Fin 0) (Fin 0) (Fin 30) (Fin 100) (Fin 1)
    [] [] [] [Fin 1; Fin 2] [NaN; NaN].

(** [cube2_image] face-on, with a table that is not flat. *)
Definition cube_face_on : rotatedcube :=
  mk_rotatedcube cube2_image "south" (Fin 0) (Fin 0) (Fin 0) (Fin 100) (Fin 1)
    [] [] [] [Fin 1; Fin 2] [Fin 0.5; Fin 3].

(** Stand-ins for the two solvers of rotatedcube.py, each answering 0. *)
Definition solver_width0
    : rotatedcube -> list (list num) -> list num -> bool -> res ndarray :=
  fun _ _ _ _ => Ok (Scalar (Fin 0)).

Definition solver_gp0
    : rotatedcube -> list (list num) -> list num -> bool -> nat -> nat -> nat
      -> bool -> bool -> num -> res ndarray :=
  fun _ _ _ _ _ _ _ _ _ _ => Ok (Scalar (Fin 0)).

(** An object of the class of misc/rotatedcube.py on [cube5], inclined by
    30 degrees, with a flat table. *)
Definition misc_cube : misc.rotatedcube :=
  misc.mk_rotatedcube cube5 (Fin 270) (Fin 0) (Fin 0) (Fin 30) (Fin 100)
    (Fin 1) "north" (Fin 1) false [Fin 0.5; Fin 1; Fin 1.5]
    [Fin 0.75; Fin 1.25] [Fin 0; Fin 0].

(** A stand-in for [get_annulus] that finds no spectra in any annulus. *)
Definition get_annulus0
    : misc.rotatedcube -> num -> num -> option num -> option num -> bool
      -> bool -> res ((list (list num) * list num) * misc.rotatedcube) :=
  fun s _ _ _ _ _ _ => Ok (([], []), s).

(** A stand-in for [get_annulus] that finds two spectra of one channel
    in every annulus. *)
Definition get_annulus2
    : misc.rotatedcube -> num -> num -> option num -> option num -> bool
      -> bool -> res ((list (list num) * list num) * misc.rotatedcube) :=
  fun s _ _ _ _ _ _ => Ok (([[Fin 1]; [Fin 1]], [Fin 0; Fin 1]), s).

(** [cube5] with two channels at the velocities 5 and 3, as an object of
    rotatedcube.py. *)
Definition cube_two_channels : rotatedcube :=
  mk_rotatedcube
    (mk_imagecube ∅ [Fin (-2); Fin (-1); Fin 0; Fin 1; Fin 2] [Fin 0]
       [Fin 5; Fin 3] (Fin 2)
       [[[Fin 1; Fin 1; Fin 1; Fin 1; Fin 1]];
        [[Fin 1; Fin 1; Fin 1; Fin 1; Fin 1]]])
    "north" (Fin 0) (Fin 0) (Fin 30) (Fin 100) (Fin 1)
    [] [] [Fin 0.5; Fin 1; Fin 1.5] [Fin 0.75; Fin 1.25] [Fin 0; Fin 0].

(** * Properties *)

(** ** Arithmetic on [num] *)

Ltac Rdecide :=
  repeat (simpl;
    match goal with
    | |- context [Req_dec_T ?a ?b] =>
        destruct (Req_dec_T a b); [try (exfalso; lra) | try (exfalso; lra)]
    | |- context [Rlt_dec ?a ?b] =>
        destruct (Rlt_dec a b); [try (exfalso; lra) | try (exfalso; lra)]
    | |- context [Rle_dec ?a ?b] =>
        destruct (Rle_dec a b); [try (exfalso; lra) | try (exfalso; lra)]
    end); simpl.

Ltac Rcases :=
  repeat (cbn; unfold Rsign;
    match goal with
    | |- context [Req_dec_T ?a ?b] => destruct (Req_dec_T a b)
    | |- context [Rlt_dec ?a ?b] => destruct (Rlt_dec a b)
    | |- context [Rle_dec ?a ?b] => destruct (Rle_dec a b)
    end); cbn.

Ltac fin_eq :=
  repeat match goal with
  | |- Ok _ = Ok _ => f_equal
  | |- (_, _) = (_, _) => f_equal
  | |- _ :: _ = _ :: _ => f_equal
  | |- Fin _ = Fin _ => f_equal; lra
  end.

Lemma ndiv_fin (a b : R) : b <> 0 -> (Fin a / Fin b)%num = Fin (a / b).
Proof.
  intros H. unfold ndiv. destruct (Req_dec_T b 0); [contradiction | reflexivity].
Qed.

Lemma neqb_fin_ne (a b : R) : a <> b -> (Fin a =? Fin b)%num = false.
Proof.
  intros H. unfold neqb. destruct (Req_dec_T a b); [contradiction | reflexivity].
Qed.

Lemma nltb_fin (a b : R) : (Fin a <? Fin b)%num = true <-> a < b.
Proof. unfold nltb. destruct (Rlt_dec a b); split; intros; try done. Qed.

Lemma nleb_fin (a b : R) : (Fin a <=? Fin b)%num = true <-> a <= b.
Proof. unfold nleb. destruct (Rle_dec a b); split; intros; try done. Qed.

Lemma map_is_fmap {A B : Type} (f : A -> B) (l : list A) : map f l = f <$> l.
Proof. reflexivity. Qed.

(** [(a * c) / n] and [(a / n) * c] agree for a positive constant [c], on
    every value including the special ones. *)
Lemma ndiv_mul_swap (a n : num) (c : R) :
  0 < c -> (a * Fin c / n)%num = (a / n * Fin c)%num.
Proof.
  intros Hc. destruct a as [x| | |], n as [y| | |]; Rcases;
    try reflexivity; try (exfalso; nra); try (f_equal; lra).
Qed.

(** ** C4: radial sampling from centres or from edges *)

(** C4.  Given only the bin centres [1, 2, 3], [_radial_sampling] derives
    the edges [0.5, 1.5, 2.5, 3.5]; given only the edges [0, 1, 2, 3] it
    derives the centres [0.5, 1.5, 2.5]; given both it raises the
    ValueError of its first statement, whatever the two arrays hold. *)
Theorem radial_sampling_examples (self : imagecube) :
  _radial_sampling self None (Some [Fin 1; Fin 2; Fin 3])
    = Ok ([Fin 0.5; Fin 1.5; Fin 2.5; Fin 3.5], [Fin 1; Fin 2; Fin 3])
  /\ _radial_sampling self (Some [Fin 0; Fin 1; Fin 2; Fin 3]) None
    = Ok ([Fin 0; Fin 1; Fin 2; Fin 3], [Fin 0.5; Fin 1.5; Fin 2.5])
  /\ forall rbins rvals,
      _radial_sampling self (Some rbins) (Some rvals)
      = Raise (ValueError "Specify only 'rbins' or 'rvals', not both.").
Proof.
  split; [| split].
  - unfold _radial_sampling, np.linspace. Rdecide. fin_eq.
  - unfold _radial_sampling. Rdecide. fin_eq.
  - reflexivity.
Qed.

(** ** C9: the velocity axis *)

Lemma sc_c_pos : sc_c = Fin 299792458 /\ 0 < 299792458.
Proof. split; [reflexivity | lra]. Qed.

(** C9.  For every header whose [ctype3] is a string: when the string,
    lower-cased, contains [freq], [_readvelocityaxis] returns the spectral
    axis converted channel by channel with
    [v = (nu_rest - nu_observed) / nu_rest * c], the rest frequency being
    the one [_readrestfreq] finds; otherwise it returns the spectral axis
    as it is. *)
Theorem readvelocityaxis_doppler (header : gmap string hval) (ctype3 : string) :
  header !! "ctype3" = Some (HStr ctype3) ->
  _readvelocityaxis header =
    if contains "freq" (lower ctype3) then
      specax ← _readspectralaxis header;
      nu_rest ← _readrestfreq header ≫= as_num;
      Ok (map (fun nu_observed =>
                 ((nu_rest - nu_observed) / nu_rest * sc_c)%num) specax)
    else _readspectralaxis header.
Proof.
  intros Hc. unfold _readvelocityaxis, getitem. rewrite Hc. cbn.
  destruct (contains "freq" (lower ctype3)); [| reflexivity].
  destruct (_readspectralaxis header) as [specax|e]; [| reflexivity]. cbn.
  destruct (_readrestfreq header ≫= as_num) as [nu|e]; [| reflexivity]. cbn.
  f_equal. apply map_ext. intros s.
  apply ndiv_mul_swap. lra.
Qed.

Lemma readvelocityaxis_doppler_witness :
  header_freq !! "ctype3" = Some (HStr "FREQ")
  /\ _readvelocityaxis header_freq
     = Ok [Fin 0; Fin (- (299792458 / 100))].
Proof.
  split; [reflexivity |].
  rewrite (readvelocityaxis_doppler header_freq "FREQ" eq_refl).
  assert (E : contains "freq" (lower "FREQ") = true) by (vm_compute; reflexivity).
  rewrite E. clear E.
  unfold _readspectralaxis, _readrestfreq, getitem.
  assert (E1 : header_freq !! "naxis3" = Some (HInt 2)) by reflexivity.
  assert (E2 : header_freq !! "cdelt3" = Some (HFloat (Fin 1))) by reflexivity.
  assert (E3 : header_freq !! "crpix3" = Some (HFloat (Fin 1))) by reflexivity.
  assert (E4 : header_freq !! "crval3" = Some (HFloat (Fin 100))) by reflexivity.
  assert (E5 : header_freq !! "restfreq" = Some (HFloat (Fin 100))) by reflexivity.
  rewrite E1, E2, E3, E4, E5. cbn.
  unfold sc_c. Rdecide. fin_eq.
Defined.

(** ** C5: the default radial sampling *)

Lemma Rceil_spec (x : R) : IZR (Rceil x) - 1 < x <= IZR (Rceil x).
Proof.
  unfold Rceil. rewrite opp_IZR.
  destruct (base_Int_part (- x)) as [H1 H2]. lra.
Qed.

Lemma Rceil_unique (x : R) (k : Z) : IZR k - 1 < x <= IZR k -> Rceil x = k.
Proof.
  intros [H1 H2]. destruct (Rceil_spec x) as [H3 H4].
  assert (k - 1 < Rceil x)%Z by (apply lt_IZR; rewrite minus_IZR; lra).
  assert (Rceil x - 1 < k)%Z by (apply lt_IZR; rewrite minus_IZR; lra).
  lia.
Qed.

Lemma INR_to_nat (z : Z) : (0 <= z)%Z -> INR (Z.to_nat z) = IZR z.
Proof. intros H. rewrite INR_IZR_INZ, Z2Nat.id; [reflexivity | assumption]. Qed.

Lemma arange_fin (a b s : R) :
  s <> 0 ->
  np.arange (Fin a) (Fin b) (Fin s)
  = Ok (map (fun i => Fin (a + INR i * s))
            (seq 0 (Z.to_nat (Rceil ((b + - a) / s))))).
Proof.
  intros Hs. unfold np.arange. cbn [nsub nneg nadd].
  rewrite ndiv_fin by assumption. reflexivity.
Qed.

Lemma default_radial_sampling_eq (self : imagecube) (xmax b : R) :
  np.max (xaxis self) = Ok (Fin xmax) -> bmaj self = Fin b -> b <> 0 ->
  _radial_sampling self None None =
    let rb := map (fun i => Fin (0 + INR i * (0.25 * b)))
                  (seq 1 (Z.to_nat (Rceil ((xmax + - 0) / (0.25 * b))) - 1)) in
    Ok (rb, np.average2 (drop 1 rb) (take (length rb - 1) rb)).
Proof.
  intros Hmax Hb Hnz. unfold _radial_sampling.
  rewrite (bool_decide_eq_false_2 (None ≠ None)) by (intros H; apply H; reflexivity).
  cbn. rewrite Hmax, Hb. cbn.
  rewrite arange_fin by lra. cbn.
  destruct (Z.to_nat (Rceil ((xmax + - 0) / (0.25 * b)))) as [|n]; cbn.
  - reflexivity.
  - rewrite Nat.sub_0_r. reflexivity.
Qed.

Lemma default_bins_total (xmax s : R) (k : nat) :
  0 < s ->
  (k < Z.to_nat (Rceil (xmax / s)))%nat -> INR k * s < xmax.
Proof.
  intros Hs Hk.
  destruct (Rceil_spec (xmax / s)) as [H1 _].
  assert (Hz : (0 <= Rceil (xmax / s))%Z) by lia.
  assert (Hk' : INR k + 1 <= IZR (Rceil (xmax / s))).
  { rewrite <- (INR_to_nat (Rceil (xmax / s))) by assumption.
    rewrite <- S_INR. apply le_INR. lia. }
  assert (INR k < xmax / s) by lra.
  apply (Rmult_lt_compat_r s) in H; [| assumption].
  replace (xmax / s * s) with xmax in H by (field; lra). exact H.
Qed.

Lemma default_bins_reach (xmax s : R) :
  0 < s -> xmax <= INR (Z.to_nat (Rceil (xmax / s))) * s.
Proof.
  intros Hs. destruct (Rceil_spec (xmax / s)) as [_ H2].
  destruct (Z_lt_le_dec (Rceil (xmax / s)) 0) as [Hneg|Hpos].
  - replace (Z.to_nat (Rceil (xmax / s))) with 0%nat by lia. simpl.
    assert (IZR (Rceil (xmax / s)) < 0) by (apply IZR_lt in Hneg; exact Hneg).
    assert (xmax / s < 0) by lra.
    apply (Rmult_lt_compat_r s) in H0; [| assumption].
    replace (xmax / s * s) with xmax in H0 by (field; lra). lra.
  - rewrite INR_to_nat by assumption.
    apply (Rmult_le_compat_r s) in H2; [| lra].
    replace (xmax / s * s) with xmax in H2 by (field; lra). exact H2.
Qed.

(** C5, as the code has it.  With neither edges nor centres given, a
    finite [xaxis.max()] and a positive beam major axis, the sampling
    returns the edges [k * 0.25 * bmaj] for [k = 1, 2, ...] that stay
    below [xaxis.max()]: the first edge is one bin width, not 0 (the
    [[1:]] of the source drops the edge at 0), consecutive edges are one
    bin width apart, and the next multiple would reach [xaxis.max()]. The
    centres are the midpoints. *)
Theorem default_radial_sampling_edges (self : imagecube) (xmax b : R) :
  np.max (xaxis self) = Ok (Fin xmax) -> bmaj self = Fin b -> 0 < b ->
  exists rbins rvals,
    _radial_sampling self None None = Ok (rbins, rvals)
    /\ length rbins = (Z.to_nat (Rceil (xmax / (0.25 * b))) - 1)%nat
    /\ (forall k, (k < length rbins)%nat ->
          rbins !! k = Some (Fin (INR (k + 1) * (0.25 * b)))
          /\ 0 < INR (k + 1) * (0.25 * b) < xmax)
    /\ xmax <= INR (length rbins + 1) * (0.25 * b)
    /\ length rvals = (length rbins - 1)%nat
    /\ (forall k, (k < length rvals)%nat ->
          rvals !! k = Some (Fin ((INR (k + 1) + 0.5) * (0.25 * b)))).
Proof.
  intros Hmax Hb Hpos.
  rewrite (default_radial_sampling_eq self xmax b Hmax Hb) by lra.
  cbv zeta.
  replace ((xmax + - 0) / (0.25 * b)) with (xmax / (0.25 * b)) by (field; lra).
  set (s := 0.25 * b). assert (Hs : 0 < s) by (unfold s; lra).
  set (n := Z.to_nat (Rceil (xmax / s))).
  set (rb := map (fun i => Fin (0 + INR i * s)) (seq 1 (n - 1))).
  assert (Hlen : length rb = (n - 1)%nat)
    by (unfold rb; rewrite length_map, length_seq; reflexivity).
  assert (Hrb : forall k, (k < n - 1)%nat ->
            rb !! k = Some (Fin (INR (k + 1) * s))).
  { intros k Hk. unfold rb. rewrite map_is_fmap, list_lookup_fmap.
    rewrite (lookup_seq_lt _ _ _ Hk). cbn [fmap option_fmap option_map].
    do 2 f_equal. replace (1 + k)%nat with (k + 1)%nat by lia. lra. }
  exists rb, (np.average2 (drop 1 rb) (take (length rb - 1) rb)).
  split; [reflexivity |]. split; [exact Hlen |].
  split; [| split; [| split]].
  - intros k Hk. rewrite Hlen in Hk. split; [apply Hrb; exact Hk |].
    split.
    + apply Rmult_lt_0_compat; [| exact Hs]. apply lt_0_INR. lia.
    + apply default_bins_total; [exact Hs | fold n; lia].
  - rewrite Hlen.
    destruct (Nat.eq_dec n 0%nat) as [Hn|Hn].
    + pose proof (default_bins_reach xmax s Hs) as Hr. fold n in Hr.
      rewrite Hn in *. simpl in *. lra.
    + replace (n - 1 + 1)%nat with n by lia. apply default_bins_reach. exact Hs.
  - unfold np.average2. rewrite length_zip_with, length_drop, length_take. lia.
  - intros k Hk. unfold np.average2 in *.
    rewrite length_zip_with, length_drop, length_take, Hlen in Hk.
    rewrite lookup_zip_with, lookup_drop, lookup_take, Hlen.
    rewrite decide_True by lia.
    rewrite !Hrb by lia. cbn [mbind option_bind nadd].
    rewrite ndiv_fin by lra. do 2 f_equal.
    rewrite !plus_INR. simpl. lra.
Qed.

Lemma cube5_max : np.max (xaxis cube5) = Ok (Fin 2).
Proof. unfold np.max, np.max2. Rdecide. reflexivity. Qed.

Lemma cube5_ceil : Rceil (2 / (0.25 * 2)) = 4%Z.
Proof. apply Rceil_unique. lra. Qed.

Lemma default_radial_sampling_edges_witness :
  exists rbins rvals,
    _radial_sampling cube5 None None = Ok (rbins, rvals)
    /\ length rbins = 3%nat
    /\ rbins !! 0%nat = Some (Fin (INR 1 * (0.25 * 2))).
Proof.
  destruct (default_radial_sampling_edges cube5 2 2 cube5_max eq_refl
              ltac:(lra))
    as (rbins & rvals & H1 & H2 & H3 & _).
  exists rbins, rvals. split; [exact H1 |].
  rewrite cube5_ceil in H2. split; [exact H2 |].
  apply (H3 0%nat). rewrite H2. simpl. lia.
Defined.

(** C5 as stated fails: on a cube whose x axis reaches 2 arcsec, with a
    2 arcsec beam, the default edges are [0.5, 1.0, 1.5]; the first
    returned edge is 0.5, not 0. *)
Lemma default_radial_sampling_first_edge_not_zero :
  _radial_sampling cube5 None None
    = Ok ([Fin 0.5; Fin 1; Fin 1.5], [Fin 0.75; Fin 1.25])
  /\ [Fin 0.5; Fin 1; Fin 1.5] !! 0%nat <> Some (Fin 0).
Proof.
  split.
  - rewrite (default_radial_sampling_eq cube5 2 2 cube5_max eq_refl) by lra.
    cbv zeta.
    replace ((2 + - 0) / (0.25 * 2)) with (2 / (0.25 * 2)) by lra.
    rewrite cube5_ceil. cbn. Rdecide. fin_eq.
  - cbn. intros H. injection H as H. lra.
Qed.

(** ** Linear interpolation over an increasing table *)

Lemma increasing_nth (rs : list R) (i : nat) :
  increasing rs -> (S i < length rs)%nat -> nth i rs 0 < nth (S i) rs 0.
Proof.
  revert i. induction rs as [|a [|b t] IH]; intros i Hinc Hi; cbn in Hi; try lia.
  destruct Hinc as [Hab Hinc]. destruct i as [|i].
  - exact Hab.
  - apply (IH i Hinc). cbn. lia.
Qed.

Lemma sort_xy_increasing (rs : list R) (ys : list num) :
  increasing rs -> scipy.sort_xy (map Fin rs) ys = zip (map Fin rs) ys.
Proof.
  revert ys. induction rs as [|a [|b t] IH]; intros ys Hinc.
  - reflexivity.
  - destruct ys as [|y ys]; [reflexivity |]. cbn. destruct ys; reflexivity.
  - destruct ys as [|y ys]; [reflexivity |].
    destruct Hinc as [Hab Hinc].
    unfold scipy.sort_xy in *. cbn [map zip zip_with foldr].
    specialize (IH ys Hinc). cbn [map zip zip_with] in IH. rewrite IH.
    destruct ys as [|y' ys]; [reflexivity |].
    cbn [zip_with scipy.insert_sorted fst]. unfold scipy.sort_leb. cbn.
    destruct (Rle_dec a b); [reflexivity | lra].
Qed.

Lemma scipy_new_increasing (rs : list R) (ys : list num) (fill : bool) :
  increasing rs -> length ys = length rs -> (2 <= length rs)%nat ->
  scipy.new (map Fin rs) ys fill = Ok (scipy.mk_interp1d (map Fin rs) ys fill).
Proof.
  intros Hinc Hlen H2. unfold scipy.new. rewrite length_map, Hlen.
  rewrite Nat.eqb_refl. cbn [negb].
  destruct (Nat.ltb_spec (length rs) 2) as [H|H]; [lia |].
  rewrite sort_xy_increasing by assumption.
  change (map fst (zip (map Fin rs) ys)) with ((zip (map Fin rs) ys).*1).
  change (map snd (zip (map Fin rs) ys)) with ((zip (map Fin rs) ys).*2).
  rewrite fst_zip by (rewrite length_map; lia).
  rewrite snd_zip by (rewrite length_map; lia). reflexivity.
Qed.

(** Over a table that samples the line [z = c * r + d] at increasing radii,
    linear interpolation and extrapolation return the line itself. *)
Lemma call_linear_affine (rs : list R) (ys : list num) (c d v : R) (fill : bool) :
  increasing rs -> (2 <= length rs)%nat ->
  (forall i, (i < length rs)%nat -> nth i ys NaN = Fin (c * nth i rs 0 + d)) ->
  scipy.call_linear (scipy.mk_interp1d (map Fin rs) ys fill) (Fin v)
  = Fin (c * v + d).
Proof.
  intros Hinc H2 Hys. unfold scipy.call_linear. cbn [scipy.xs scipy.ys].
  rewrite length_map.
  set (hi := Nat.min (Nat.max _ 1) (length rs - 1)).
  assert (Hhi : (1 <= hi /\ hi < length rs)%nat) by (unfold hi; lia).
  destruct hi as [|lo]; [lia |]. cbn [Nat.sub]. rewrite Nat.sub_0_r.
  rewrite !(nth_indep (map Fin rs) NaN (Fin 0)) by (rewrite length_map; lia).
  rewrite !map_nth.
  rewrite !Hys by lia.
  pose proof (increasing_nth rs lo Hinc ltac:(lia)) as Hlt.
  cbn [nsub nneg nadd].
  rewrite ndiv_fin by lra. cbn [nmul nadd].
  f_equal. field. lra.
Qed.

Lemma np_power_1 (x : R) : np.power (Fin x) (Fin 1) = Fin x.
Proof.
  unfold np.power.
  rewrite neqb_fin_ne by lra.
  unfold neqb. destruct (Req_dec_T x 1) as [->|Hx1]; [reflexivity |].
  destruct (Rlt_dec 0 x) as [Hpos|Hnpos].
  - rewrite Rpower_1 by assumption. reflexivity.
  - destruct (Rlt_dec x 0) as [Hneg|Hnneg].
    + assert (Hi : Int_part 1 = 1%Z).
      { unfold Int_part. rewrite <- (up_tech 1 1); [lia | lra | rewrite plus_IZR; lra]. }
      unfold Ris_int. rewrite Hi.
      destruct (Req_dec_T (IZR 1) 1) as [_|H]; [| lra].
      cbn [Z.even]. rewrite Rpower_1 by lra. f_equal. lra.
    + destruct (Rlt_dec 0 1); [| lra]. f_equal. lra.
Qed.

(** ** C8: the power-law surface *)

Lemma index_lookup {A : Type} (l : list A) (i : nat) (a : A) :
  l !! i = Some a -> index l i = Ok a.
Proof. intros H. unfold index. rewrite H. reflexivity. Qed.

Lemma index_last_lookup {A : Type} (l : list A) (a : A) :
  last l = Some a -> index_last l = Ok a.
Proof. intros H. unfold index_last. rewrite H. reflexivity. Qed.

(** A table whose first and last entries are not NaN passes through the
    two repairs untouched. *)
Lemma emission_surface_repair_id (rvals zvals : list num) (a b : num) :
  zvals !! 0%nat = Some a -> isnan a = false ->
  last zvals = Some b -> isnan b = false ->
  emission_surface_repair rvals zvals = Ok zvals.
Proof.
  intros H0 Ha Hl Hb. unfold emission_surface_repair, repair_leading.
  rewrite (index_lookup _ _ _ H0). cbn. rewrite Ha. cbn.
  unfold repair_trailing.
  rewrite (index_last_lookup _ _ Hl). cbn. rewrite Hb. reflexivity.
Qed.

Lemma last_map_Fin (f : R -> R) (rs : list R) :
  rs <> [] -> exists b, last (map (fun r => Fin (f r)) rs) = Some (Fin b).
Proof.
  intros H. rewrite map_is_fmap, fmap_last.
  destruct (last rs) as [r|] eqn:E.
  - exists (f r). reflexivity.
  - apply last_None in E. contradiction.
Qed.

(** C8.  On a cube whose height table sits on at least two finite,
    strictly increasing radii, after
    [set_emission_surface_analytical('powerlaw', [0.3, 1.0])] the lookup
    gives [emission_surface(2.0) = 0.6] and [emission_surface(0) = 0]
    (in exact arithmetic), and neither lookup changes the object. *)
Theorem powerlaw_surface_heights (self : rotatedcube) (rs : list R) :
  rvals self = map Fin rs -> increasing rs -> (2 <= length rs)%nat ->
  exists self1,
    set_emission_surface_analytical self "powerlaw" [Fin 0.3; Fin 1] = Ok self1
    /\ emission_surface self1 (Scalar (Fin 2)) = Ok (Scalar (Fin 0.6), self1)
    /\ emission_surface self1 (Scalar (Fin 0)) = Ok (Scalar (Fin 0), self1).
Proof.
  intros Hr Hinc H2.
  set (zs := map (fun r => Fin (0.3 * r)) rs).
  exists (set_zvals self zs).
  assert (Hset : set_emission_surface_analytical self "powerlaw" [Fin 0.3; Fin 1]
                 = Ok (set_zvals self zs)).
  { unfold set_emission_surface_analytical.
    assert (E : String.eqb (lower "powerlaw") "powerlaw" = true)
      by (vm_compute; reflexivity).
    rewrite E. cbn. rewrite Hr, map_map. do 2 f_equal.
    apply map_ext. intros r. rewrite np_power_1. reflexivity. }
  assert (Hne : rs <> []) by (intros ->; cbn in H2; lia).
  assert (Hrep : emission_surface_repair (map Fin rs) zs = Ok zs).
  { destruct rs as [|r0 rs']; [contradiction |].
    destruct (last_map_Fin (fun r => 0.3 * r) (r0 :: rs') Hne) as [b Hb].
    apply (emission_surface_repair_id _ _ (Fin (0.3 * r0)) (Fin b));
      [reflexivity | reflexivity | exact Hb | reflexivity]. }
  assert (Hcall : forall v t,
             t = 0.3 * v ->
             emission_surface (set_zvals self zs) (Scalar (Fin v))
             = Ok (Scalar (Fin t), set_zvals self zs)).
  { intros v t ->. unfold emission_surface, emission_surface_body.
    cbn [rvals zvals set_zvals]. rewrite Hr, Hrep. cbn [mbind res_bind].
    rewrite scipy_new_increasing;
      [| assumption | unfold zs; rewrite length_map; reflexivity | assumption].
    cbn [mbind res_bind]. unfold scipy.call. cbn [scipy.extrapolate negb andb ndmap].
    rewrite (call_linear_affine rs zs 0.3 0 v true Hinc H2).
    - replace (0.3 * v + 0) with (0.3 * v) by lra. reflexivity.
    - intros i Hi. unfold zs.
      rewrite (nth_indep _ NaN (Fin (0.3 * 0))) by (rewrite length_map; lia).
      rewrite (map_nth (fun r => Fin (0.3 * r))). f_equal. lra. }
  split; [exact Hset |]. split; apply Hcall; lra.
Qed.

Lemma powerlaw_surface_heights_witness :
  exists self1,
    set_emission_surface_analytical cube8 "powerlaw" [Fin 0.3; Fin 1] = Ok self1
    /\ emission_surface self1 (Scalar (Fin 2)) = Ok (Scalar (Fin 0.6), self1)
    /\ emission_surface self1 (Scalar (Fin 0)) = Ok (Scalar (Fin 0), self1).
Proof.
  apply (powerlaw_surface_heights cube8 [0.75; 1.25]).
  - reflexivity.
  - cbn. lra.
  - cbn. lia.
Defined.

(** ** C10: what [emission_surface] writes to the height table *)

Lemma first_true_Some (l : list bool) (i : nat) :
  np.first_true l = Some i ->
  l !! i = Some true /\ forall j, (j < i)%nat -> l !! j = Some false.
Proof.
  revert i. induction l as [|b l IH]; intros i H; [discriminate |].
  destruct b; cbn in H.
  - injection H as <-. split; [reflexivity | intros j Hj; lia].
  - destruct (np.first_true l) as [k|] eqn:E; [| discriminate].
    injection H as <-. destruct (IH k eq_refl) as [H1 H2].
    split; [exact H1 |]. intros [|j] Hj; [reflexivity |]. apply H2. lia.
Qed.

Lemma first_true_None (l : list bool) (j : nat) :
  np.first_true l = None -> l !! j = Some true -> False.
Proof.
  revert j. induction l as [|b l IH]; intros j H Hj; [discriminate |].
  destruct b; cbn in H; [discriminate |].
  destruct (np.first_true l) eqn:E; [discriminate |].
  destruct j as [|j]; [discriminate |]. apply (IH j eq_refl Hj).
Qed.

Lemma first_true_exists (l : list bool) (j : nat) :
  l !! j = Some true -> exists i, np.first_true l = Some i /\ (i <= j)%nat.
Proof.
  intros Hj. destruct (np.first_true l) as [i|] eqn:E.
  - exists i. split; [reflexivity |].
    destruct (first_true_Some l i E) as [_ H].
    destruct (Nat.le_gt_cases i j) as [|Hlt]; [assumption |].
    rewrite (H j Hlt) in Hj. discriminate.
  - destruct (first_true_None l j E Hj).
Qed.

Lemma argmax_first_true (l : list bool) (i : nat) :
  np.first_true l = Some i -> np.argmax l = Ok i.
Proof.
  intros H. destruct l; [discriminate |]. unfold np.argmax. rewrite H. reflexivity.
Qed.

Lemma argmax_no_true (l : list bool) :
  l <> [] -> np.first_true l = None -> np.argmax l = Ok 0%nat.
Proof.
  intros Hne H. destruct l; [contradiction |]. unfold np.argmax. rewrite H. reflexivity.
Qed.

Lemma increasing_le (rs : list R) (i j : nat) :
  increasing rs -> (i <= j)%nat -> (j < length rs)%nat ->
  nth i rs 0 <= nth j rs 0.
Proof.
  intros Hinc Hij Hj. induction Hij as [|j Hij IH]; [lra |].
  pose proof (increasing_nth rs j Hinc Hj). specialize (IH ltac:(lia)). lra.
Qed.

Lemma lookup_map_Fin (rs : list R) (i : nat) :
  (i < length rs)%nat -> map Fin rs !! i = Some (Fin (nth i rs 0)).
Proof.
  intros Hi. rewrite map_is_fmap, list_lookup_fmap.
  destruct (rs !! i) as [r|] eqn:E.
  - cbn. do 2 f_equal. symmetry. apply nth_lookup_Some with (d := 0) in E.
    exact E.
  - apply lookup_ge_None in E. lia.
Qed.

(** The second repair: when the last entry is NaN, everything from the
    first NaN on becomes 0. *)
Lemma repair_trailing_spec (zv : list num) :
  zv <> [] ->
  exists (T : nat) (out : list num),
    repair_trailing zv = Ok out
    /\ length out = length zv
    /\ (last zv = Some NaN ->
        (T < length zv)%nat /\ zv !! T = Some NaN
        /\ forall j, (j < T)%nat -> zv !! j <> Some NaN)
    /\ (last zv <> Some NaN -> T = length zv)
    /\ (forall i, (i < T)%nat -> out !! i = zv !! i)
    /\ (forall i, (T <= i < length zv)%nat -> out !! i = Some (Fin 0)).
Proof.
  intros Hne. unfold repair_trailing.
  destruct (last zv) as [zl|] eqn:El; [| apply last_None in El; contradiction].
  rewrite (index_last_lookup _ _ El). cbn [mbind res_bind].
  destruct (isnan zl) eqn:Enan.
  - destruct zl; try discriminate.
    assert (Hl : map isnan zv !! (Nat.pred (length zv)) = Some true).
    { rewrite map_is_fmap, list_lookup_fmap, <- last_lookup, El. reflexivity. }
    destruct (first_true_exists _ _ Hl) as (T & HT & HTle).
    destruct (first_true_Some _ _ HT) as [HT1 HT2].
    assert (Hlen : (0 < length zv)%nat) by (destruct zv; [contradiction | cbn; lia]).
    exists T, (take T zv ++ replicate (length zv - T) (Fin 0)).
    rewrite (argmax_first_true _ _ HT). cbn [mbind res_bind].
    split; [reflexivity |].
    split; [rewrite length_app, length_take, length_replicate; lia |].
    split.
    { intros _. split; [lia |]. split.
      - rewrite map_is_fmap, list_lookup_fmap in HT1.
        destruct (zv !! T) as [[]|]; try discriminate. reflexivity.
      - intros j Hj Hc. specialize (HT2 j Hj).
        rewrite map_is_fmap, list_lookup_fmap, Hc in HT2. discriminate. }
    split; [intros H; contradiction |].
    split.
    + intros i Hi. rewrite lookup_app_l by (rewrite length_take; lia).
      rewrite lookup_take, decide_True by assumption. reflexivity.
    + intros i Hi. rewrite lookup_app_r by (rewrite length_take; lia).
      rewrite length_take. apply lookup_replicate. split; [reflexivity | lia].
  - exists (length zv), zv.
    split; [reflexivity |]. split; [reflexivity |].
    split; [intros H; injection H as ->; discriminate |].
    split; [reflexivity |].
    split; [reflexivity | intros i Hi; lia].
Qed.

Lemma existsb_false {A : Type} (p : A -> bool) (l : list A) :
  (forall i x, l !! i = Some x -> p x = false) -> existsb p l = false.
Proof.
  induction l as [|a l IH]; intros H; [reflexivity |]. cbn.
  rewrite (H 0%nat a eq_refl). cbn. apply IH. intros i x Hx. apply (H (S i) x Hx).
Qed.

(** The first repair: when the first entry is NaN, the entries before the
    first finite one are replaced by the straight line from (0, 0) to it. *)
Lemma repair_leading_spec (rs : list R) (zv : list num) :
  increasing rs -> 0 <= nth 0 rs 0 ->
  length zv = length rs -> (1 <= length rs)%nat ->
  exists (L : nat) (zv1 : list num),
    repair_leading (map Fin rs) zv = Ok zv1
    /\ length zv1 = length zv
    /\ (L < length zv)%nat
    /\ (zv !! 0%nat = Some NaN -> np.argmax (map isfinite zv) = Ok L)
    /\ (zv !! 0%nat <> Some NaN -> L = 0%nat)
    /\ (forall i, (i < L)%nat ->
          exists zL, zv !! L = Some (Fin zL)
            /\ zv1 !! i = Some (Fin (zL / nth L rs 0 * nth i rs 0)))
    /\ (forall i, (L <= i)%nat -> zv1 !! i = zv !! i).
Proof.
  intros Hinc Hr0 Hlen H1.
  destruct zv as [|z0 zv']; [cbn in Hlen; lia |].
  set (zv := z0 :: zv') in *.
  unfold repair_leading. change (index zv 0) with (Ok z0 : res num).
  cbn [mbind res_bind].
  destruct (isnan z0) eqn:Enan.
  2:{ exists 0%nat, zv. split; [reflexivity |]. split; [reflexivity |].
      split; [cbn; lia |].
      split; [intros H; injection H as ->; discriminate |].
      split; [reflexivity |].
      split; [intros i Hi; lia | reflexivity]. }
  destruct z0; try discriminate. clear Enan.
  destruct (np.first_true (map isfinite zv)) as [L|] eqn:E.
  - destruct (first_true_Some _ _ E) as [HL1 HL2].
    rewrite map_is_fmap, list_lookup_fmap in HL1.
    destruct (zv !! L) as [zL|] eqn:EzL; [| discriminate].
    destruct zL as [zL| | |]; try discriminate. clear HL1.
    assert (HLlen : (L < length zv)%nat) by (apply lookup_lt_Some in EzL; exact EzL).
    assert (HLpos : (1 <= L)%nat).
    { destruct L; [discriminate | lia]. }
    assert (HrL : 0 < nth L rs 0).
    { pose proof (increasing_le rs 0 (L - 1) Hinc ltac:(lia) ltac:(lia)).
      pose proof (increasing_nth rs (L - 1) Hinc ltac:(lia)).
      replace (S (L - 1)) with L in * by lia. lra. }
    rewrite (argmax_first_true _ _ E). cbn [mbind res_bind].
    rewrite (index_lookup _ _ _ (lookup_map_Fin rs L ltac:(lia))).
    rewrite (index_lookup _ _ _ EzL). cbn [mbind res_bind].
    change [Fin 0; Fin (nth L rs 0)] with (map Fin [0; nth L rs 0]).
    rewrite (scipy_new_increasing [0; nth L rs 0] [Fin 0; Fin zL] false);
      [| cbn; lra | reflexivity | cbn; lia].
    cbn [mbind res_bind].
    set (rim := scipy.mk_interp1d _ _ _).
    assert (Hval : forall i, (i < L)%nat ->
              scipy.call_linear rim (Fin (nth i rs 0))
              = Fin (zL / nth L rs 0 * nth i rs 0)).
    { intros i Hi. unfold rim.
      rewrite (call_linear_affine [0; nth L rs 0] [Fin 0; Fin zL]
                 (zL / nth L rs 0) 0 (nth i rs 0) false);
        [f_equal; lra | cbn; lra | cbn; lia |].
      intros [|[|k]] Hk; cbn in Hk; try lia; cbn; f_equal; field; lra. }
    assert (Hin : forall i x, take L (map Fin rs) !! i = Some x ->
              (i < L)%nat /\ x = Fin (nth i rs 0)).
    { intros i x Hx. rewrite lookup_take in Hx.
      destruct (decide (i < L)%nat) as [Hi|]; [| discriminate].
      rewrite lookup_map_Fin in Hx by lia. injection Hx as <-. split; [lia | reflexivity]. }
    unfold scipy.call.
    rewrite (existsb_false (scipy.out_of_bounds rim)).
    2:{ intros i x Hx. destruct (Hin i x Hx) as [Hi ->].
        unfold scipy.out_of_bounds, rim, ngtb. cbn.
        pose proof (increasing_le rs 0 i Hinc ltac:(lia) ltac:(lia)).
        pose proof (increasing_le rs i L Hinc ltac:(lia) ltac:(lia)).
        destruct (Rlt_dec (nth i rs 0) 0); [lra |].
        destruct (Rlt_dec (nth L rs 0) (nth i rs 0)); [lra |]. reflexivity. }
    cbn [negb andb mbind res_bind ndmap ndflatten scipy.extrapolate].
    exists L, (map (scipy.call_linear rim) (take L (map Fin rs)) ++ drop L zv).
    split; [reflexivity |].
    assert (Hlr : length (map (scipy.call_linear rim) (take L (map Fin rs))) = L).
    { rewrite length_map, length_take, length_map. lia. }
    split; [rewrite length_app, Hlr, length_drop; lia |].
    split; [exact HLlen |].
    split; [reflexivity |].
    split; [intros H; exfalso; apply H; reflexivity |].
    split.
    + intros i Hi. exists zL. split; [exact EzL |].
      rewrite lookup_app_l by lia.
      rewrite map_is_fmap, list_lookup_fmap, lookup_take, decide_True by lia.
      rewrite lookup_map_Fin by lia. cbn. rewrite Hval by lia. reflexivity.
    + intros i Hi. rewrite lookup_app_r by lia. rewrite Hlr, lookup_drop.
      f_equal. lia.
  - rewrite (argmax_no_true (map isfinite zv) ltac:(subst zv; discriminate) E). cbn [mbind res_bind].
    rewrite (index_lookup _ _ _ (lookup_map_Fin rs 0 ltac:(lia))).
    change (index zv 0) with (Ok NaN : res num). cbn [mbind res_bind].
    assert (Hnew : scipy.new [Fin 0; Fin (nth 0 rs 0)] [Fin 0; NaN] false
                   = Ok (scipy.mk_interp1d [Fin 0; Fin (nth 0 rs 0)] [Fin 0; NaN] false)).
    { unfold scipy.new, scipy.sort_xy. cbn. unfold scipy.sort_leb. cbn.
      destruct (Rle_dec 0 (nth 0 rs 0)); [reflexivity | lra]. }
    rewrite Hnew. cbn.
    exists 0%nat, zv. split; [reflexivity |]. split; [reflexivity |].
    split; [cbn; lia |]. split; [reflexivity |].
    split; [intros H; exfalso; apply H; reflexivity |].
    split; [intros i Hi; lia | reflexivity].
Qed.

Lemma some_nan_cases (o : option num) : o = Some NaN \/ o <> Some NaN.
Proof. destruct o as [[]|]; (left; reflexivity) || (right; discriminate). Qed.

Lemma set_zvals_same (self : rotatedcube) : set_zvals self (zvals self) = self.
Proof. destruct self. reflexivity. Qed.

(** C10, as the code has it.  [emission_surface] writes to the stored
    table.  On a table over increasing non-negative radii the call
    returns, and the table [z'] it leaves behind is described by two
    indices [L <= T]: when the first entry is NaN, the entries before [L],
    the first finite one, now hold the straight line from (0, 0) to that
    entry; when the last entry is NaN, every entry from [T], the first NaN
    at or after [L], to the end is 0, finite values after that NaN
    included; the entries in between are untouched.  What decides the
    second write is the last entry alone: when neither the first nor the
    last entry is NaN the object is left as it was, NaNs in the middle
    included. *)
Theorem emission_surface_writes_zvals
    (self : rotatedcube) (rs : list R) (radii : ndarray) :
  rvals self = map Fin rs -> increasing rs -> 0 <= nth 0 rs 0 ->
  length (zvals self) = length rs -> (2 <= length rs)%nat ->
  exists (v : ndarray) (z' : list num) (L T : nat),
    emission_surface self radii = Ok (v, set_zvals self z')
    /\ length z' = length (zvals self)
    /\ (L <= T <= length (zvals self))%nat
    /\ (zvals self !! 0%nat = Some NaN ->
        np.argmax (map isfinite (zvals self)) = Ok L)
    /\ (zvals self !! 0%nat <> Some NaN -> L = 0%nat)
    /\ (last (zvals self) = Some NaN ->
        (T < length (zvals self))%nat /\ zvals self !! T = Some NaN
        /\ forall j, (L <= j < T)%nat -> zvals self !! j <> Some NaN)
    /\ (last (zvals self) <> Some NaN -> T = length (zvals self))
    /\ (forall i, (i < L)%nat ->
          exists zL, zvals self !! L = Some (Fin zL)
            /\ z' !! i = Some (Fin (zL / nth L rs 0 * nth i rs 0)))
    /\ (forall i, (L <= i < T)%nat -> z' !! i = zvals self !! i)
    /\ (forall i, (T <= i < length (zvals self))%nat -> z' !! i = Some (Fin 0))
    /\ (zvals self !! 0%nat <> Some NaN -> last (zvals self) <> Some NaN ->
        set_zvals self z' = self).
Proof.
  intros Hr Hinc Hr0 Hlen H2.
  set (zv := zvals self) in *.
  destruct (repair_leading_spec rs zv Hinc Hr0 Hlen ltac:(lia))
    as (L & zv1 & Hlead & Hlen1 & HL & HLnan & HLok & Hramp & Hkeep).
  assert (Hne1 : zv1 <> []) by (intros ->; cbn in Hlen1; lia).
  destruct (repair_trailing_spec zv1 Hne1)
    as (T & out & Htrail & Hlen2 & HTnan & HTok & Hpre & Hzero).
  assert (Hlast : last zv1 = last zv).
  { rewrite !last_lookup, Hlen1. apply Hkeep. lia. }
  rewrite Hlast in HTnan, HTok.
  assert (HLT : (L <= T <= length zv)%nat).
  { destruct (some_nan_cases (last zv)) as [Hn|Hn].
    - destruct (HTnan Hn) as (HT1 & HT2 & _). split; [| lia].
      destruct (Nat.le_gt_cases L T) as [|Hlt]; [assumption |].
      destruct (Hramp T Hlt) as (zL & _ & Hz). rewrite Hz in HT2. discriminate.
    - rewrite (HTok Hn), Hlen1. lia. }
  exists (ndmap (scipy.call_linear (scipy.mk_interp1d (map Fin rs) out true)) radii),
    out, L, T.
  split.
  { unfold emission_surface, emission_surface_body, emission_surface_repair.
    fold zv. rewrite Hr, Hlead. cbn [mbind res_bind]. rewrite Htrail.
    cbn [mbind res_bind].
    rewrite scipy_new_increasing by (try assumption; lia).
    reflexivity. }
  split; [lia |]. split; [exact HLT |]. split; [exact HLnan |].
  split; [exact HLok |].
  split.
  { intros Hn. destruct (HTnan Hn) as (HT1 & HT2 & HT3).
    split; [lia |]. split.
    - rewrite <- Hkeep by lia. exact HT2.
    - intros j Hj. rewrite <- Hkeep by lia. apply HT3. lia. }
  split; [intros Hn; rewrite (HTok Hn); exact Hlen1 |].
  split.
  { intros i Hi. destruct (Hramp i Hi) as (zL & HzL & Hz).
    exists zL. split; [exact HzL |]. rewrite Hpre by lia. exact Hz. }
  split; [intros i Hi; rewrite Hpre by lia; apply Hkeep; lia |].
  split; [intros i Hi; apply Hzero; lia |].
  intros H0 Hl. rewrite <- (set_zvals_same self) at 2. f_equal. fold zv.
  apply list_eq. intros i.
  destruct (Nat.lt_ge_cases i (length zv)) as [Hi|Hi].
  - rewrite Hpre by (rewrite (HTok Hl); lia). apply Hkeep.
    rewrite (HLok H0). lia.
  - rewrite !lookup_ge_None_2 by lia. reflexivity.
Qed.

Lemma emission_surface_writes_zvals_witness :
  exists v z',
    emission_surface cube10w (Scalar (Fin 2)) = Ok (v, set_zvals cube10w z')
    /\ z' !! 0%nat = Some (Fin (4 / 2 * 1))
    /\ z' !! 1%nat = Some (Fin 4)
    /\ z' !! 2%nat = Some (Fin 0)
    /\ z' !! 3%nat = Some (Fin 0)
    /\ z' !! 4%nat = Some (Fin 0).
Proof.
  destruct (emission_surface_writes_zvals cube10w [1; 2; 3; 4; 5]
              (Scalar (Fin 2)) eq_refl
              ltac:(cbn; lra) ltac:(cbn; lra) eq_refl ltac:(cbn; lia))
    as (v & z' & L & T & Hcall & Hlen & HLT & HL & _ & HT & _ & Hramp & Hkeep
        & Hzero & _).
  specialize (HL eq_refl). injection HL as <-.
  destruct (HT eq_refl) as (HT1 & HT2 & HT3).
  assert (T = 2%nat) as ->.
  { cbn in HT1. destruct T as [|[|[|[|[|T]]]]]; try discriminate; try lia.
    exfalso. apply (HT3 2%nat); [lia | reflexivity]. }
  exists v, z'. split; [exact Hcall |].
  split.
  { destruct (Hramp 0%nat ltac:(cbn; lia)) as (zL & HzL & Hz).
    injection HzL as <-. exact Hz. }
  split; [apply (Hkeep 1%nat); cbn; lia |].
  repeat split; apply Hzero; cbn; lia.
Defined.

(** C10 as stated fails.  The table [[1, NaN, 2]] holds a NaN, but neither
    at the front nor at the end: the call leaves it exactly as it is. *)

Lemma emission_surface_keeps_interior_nan :
  zvals cube10 !! 1%nat = Some NaN
  /\ emission_surface cube10 (Scalar (Fin 1)) = Ok (Scalar NaN, cube10).
Proof.
  split; [reflexivity |].
  unfold emission_surface, emission_surface_body.
  rewrite (emission_surface_repair_id _ _ (Fin 1) (Fin 2))
    by reflexivity.
  cbn [mbind res_bind].
  change (rvals cube10) with (map Fin [1; 2; 3]).
  rewrite scipy_new_increasing; [| cbn; lra | reflexivity | cbn; lia].
  cbn [mbind res_bind]. unfold scipy.call, scipy.call_linear, scipy.searchsorted,
    scipy.sort_leb.
  Rdecide. reflexivity.
Qed.

(** ** Images as outer products of the two axes *)

Lemma zip_with_const_r {A B C : Type} (f : A -> B -> C) (xs : list A) (y : B) :
  zip_with f xs (map (fun _ => y) xs) = map (fun x => f x y) xs.
Proof. induction xs as [|x xs IH]; [reflexivity |]. cbn. rewrite IH. reflexivity. Qed.

Lemma zip2d_meshgrid {C : Type} (f : num -> num -> C) (xs ys : list num) :
  np.zip2d f (np.meshgrid xs ys).1 (np.meshgrid xs ys).2 = outer f xs ys.
Proof.
  unfold np.zip2d, np.meshgrid, outer. cbn [fst snd].
  induction ys as [|y ys IH]; [reflexivity |]. cbn [map zip_with].
  rewrite IH, zip_with_const_r. reflexivity.
Qed.

Lemma zip_with_map_map {A B C D : Type} (h : B -> C -> D) (f : A -> B) (g : A -> C)
    (xs : list A) :
  zip_with h (map f xs) (map g xs) = map (fun x => h (f x) (g x)) xs.
Proof. induction xs as [|x xs IH]; [reflexivity |]. cbn. rewrite IH. reflexivity. Qed.

Lemma zip2d_outer {A B : Type} {D : Type} (h : num -> num -> D)
    (f g : A -> B -> num) (xs : list A) (ys : list B) :
  np.zip2d h (outer f xs ys) (outer g xs ys)
  = outer (fun x y => h (f x y) (g x y)) xs ys.
Proof.
  unfold np.zip2d, outer. rewrite zip_with_map_map.
  apply map_ext. intros y. apply zip_with_map_map.
Qed.

Lemma map2d_outer {A B : Type} (h : num -> num) (f : A -> B -> num)
    (xs : list A) (ys : list B) :
  np.map2d h (outer f xs ys) = outer (fun x y => h (f x y)) xs ys.
Proof.
  unfold np.map2d, outer. rewrite map_map. apply map_ext. intros y.
  apply map_map.
Qed.

Lemma outer_map {A A' B B' C : Type} (f : A' -> B' -> C) (p : A -> A') (q : B -> B')
    (xs : list A) (ys : list B) :
  outer f (map p xs) (map q ys) = outer (fun x y => f (p x) (q y)) xs ys.
Proof.
  unfold outer. rewrite map_map. apply map_ext. intros y. apply map_map.
Qed.

Lemma outer_ext {A B C : Type} (f g : A -> B -> C) (xs : list A) (ys : list B) :
  (forall x y, f x y = g x y) -> outer f xs ys = outer g xs ys.
Proof.
  intros H. unfold outer. apply map_ext. intros y. apply map_ext. intros x. apply H.
Qed.

(** [disk_coordinates], pixel by pixel. *)
Lemma disk_coordinates_pixels (self : imagecube) (x0 y0 inc PA : num) :
  disk_coordinates self x0 y0 inc PA =
    let t := np.radians (PA + Fin 90 + Fin 90) in
    let xr := fun x y => (x * np.cos t + y * np.sin t)%num in
    let yd := fun x y =>
      ((y * np.cos t - x * np.sin t) / np.cos (np.radians inc))%num in
    let xs := map (fun x => (x - x0)%num) (reverse (xaxis self)) in
    let ys := map (fun y => (y - y0)%num) (yaxis self) in
    (outer (fun x y => np.hypot (xr x y) (yd x y)) xs ys,
     outer (fun x y => np.arctan2 (yd x y) (xr x y)) xs ys).
Proof.
  unfold disk_coordinates.
  set (xs := map _ (reverse (xaxis self))). set (ys := map _ (yaxis self)).
  destruct (np.meshgrid xs ys) as [x_sky y_sky] eqn:Em.
  assert (Hm : forall f : num -> num -> num,
             np.zip2d f x_sky y_sky = outer f xs ys).
  { intros f. rewrite <- (zip2d_meshgrid f xs ys), Em. reflexivity. }
  unfold _rotate, _incline. rewrite !Hm.
  rewrite map2d_outer, !zip2d_outer. reflexivity.
Qed.

Lemma sky_polar_pixels (self : imagecube) (x0 y0 : num) :
  sky_polar self x0 y0 =
    let xs := map (fun x => (x - x0)%num) (reverse (xaxis self)) in
    let ys := map (fun y => (y - y0)%num) (yaxis self) in
    (outer np.hypot xs ys, outer (fun x y => np.arctan2 y x) xs ys).
Proof.
  unfold sky_polar.
  set (xs := map _ (reverse (xaxis self))). set (ys := map _ (yaxis self)).
  destruct (np.meshgrid xs ys) as [x_sky y_sky] eqn:Em.
  assert (Hm : forall f : num -> num -> num,
             np.zip2d f x_sky y_sky = outer f xs ys).
  { intros f. rewrite <- (zip2d_meshgrid f xs ys), Em. reflexivity. }
  rewrite Hm.
  assert (H2 : np.zip2d np.arctan2 y_sky x_sky
               = np.zip2d (fun x y => np.arctan2 y x) x_sky y_sky).
  { unfold np.zip2d. clear. revert x_sky.
    induction y_sky as [|r1 l1 IH]; intros [|r2 l2]; try reflexivity.
    cbn. rewrite IH. f_equal. clear. revert r2.
    induction r1 as [|a r1 IH]; intros [|b r2]; try reflexivity.
    cbn. rewrite IH. reflexivity. }
  rewrite H2, Hm. reflexivity.
Qed.

(** ** C3: the flat deprojection of a face-on disk *)

Lemma rotation_keeps_radius (u v t : R) :
  (u * cos t + v * sin t) * (u * cos t + v * sin t)
  + (v * cos t + - (u * sin t)) / 1 * ((v * cos t + - (u * sin t)) / 1)
  = u * u + v * v.
Proof.
  pose proof (sin2_cos2 t) as H. unfold Rsqr in H.
  replace ((u * cos t + v * sin t) * (u * cos t + v * sin t)
           + (v * cos t + - (u * sin t)) / 1 * ((v * cos t + - (u * sin t)) / 1))
    with ((u * u + v * v) * (sin t * sin t + cos t * cos t)) by (field; lra).
  rewrite H. ring.
Qed.

Lemma cos_radians_0 : np.cos (np.radians (Fin 0)) = Fin 1.
Proof.
  cbn. f_equal. replace (0 * (PI / 180)) with 0 by lra. apply cos_0.
Qed.

Lemma finite_sky_offsets (xs : list R) (a : R) :
  map (fun x => (x - Fin a)%num) (reverse (map Fin xs))
  = map Fin (map (fun x => x - a) (reverse xs)).
Proof.
  rewrite !map_is_fmap, <- fmap_reverse, <- !list_fmap_compose. reflexivity.
Qed.

Lemma finite_offsets (ys : list R) (b : R) :
  map (fun y => (y - Fin b)%num) (map Fin ys) = map Fin (map (fun y => y - b) ys).
Proof. rewrite !map_map. reflexivity. Qed.

(** C3, as the code has it.  On a finite grid, with inclination 0, the
    flat deprojection returns at every pixel the plain sky-plane polar
    radius about [(x0, y0)], whatever the position angle.  The azimuth is
    the polar angle of the sky offset turned through [PA + 180] degrees,
    so it does depend on [PA]; it is the plain sky-plane polar angle when
    [PA = 180]. *)
Theorem disk_coordinates_face_on (self : imagecube) (xs ys : list R) (a b p : R) :
  xaxis self = map Fin xs -> yaxis self = map Fin ys ->
  let us := map (fun x => x - a) (reverse xs) in
  let vs := map (fun y => y - b) ys in
  let t := (p + 90 + 90) * (PI / 180) in
  fst (disk_coordinates self (Fin a) (Fin b) (Fin 0) (Fin p))
    = fst (sky_polar self (Fin a) (Fin b))
  /\ snd (disk_coordinates self (Fin a) (Fin b) (Fin 0) (Fin p))
     = outer (fun u v => Fin (Ratan2 (v * cos t - u * sin t)
                                      (u * cos t + v * sin t))) us vs
  /\ snd (disk_coordinates self (Fin a) (Fin b) (Fin 0) (Fin 180))
     = snd (sky_polar self (Fin a) (Fin b)).
Proof.
  intros Hx Hy us vs t. subst us vs.
  rewrite !disk_coordinates_pixels, sky_polar_pixels. cbv zeta. cbn [fst snd].
  rewrite Hx, Hy, finite_sky_offsets, finite_offsets, !outer_map.
  rewrite cos_radians_0.
  split; [| split].
  - apply outer_ext. intros x y. cbn.
    destruct (Req_dec_T 1 0) as [?|_]; [exfalso; lra |]. cbn.
    do 2 f_equal. apply rotation_keeps_radius.
  - apply outer_ext. intros x y. cbn.
    destruct (Req_dec_T 1 0) as [?|_]; [exfalso; lra |]. cbn.
    fold t. f_equal. f_equal; unfold Rminus; field.
  - apply outer_ext. intros x y. cbn.
    destruct (Req_dec_T 1 0) as [?|_]; [exfalso; lra |]. cbn.
    replace ((180 + 90 + 90) * (PI / 180)) with (2 * PI) by field.
    rewrite cos_2PI, sin_2PI. f_equal. f_equal; field.
Qed.

Lemma disk_coordinates_face_on_witness :
  fst (disk_coordinates cube3 (Fin 0) (Fin 0) (Fin 0) (Fin 30))
    = fst (sky_polar cube3 (Fin 0) (Fin 0))
  /\ snd (disk_coordinates cube3 (Fin 0) (Fin 0) (Fin 0) (Fin 180))
     = snd (sky_polar cube3 (Fin 0) (Fin 0)).
Proof.
  destruct (disk_coordinates_face_on cube3 [1] [1] 0 0 30 eq_refl eq_refl)
    as (H1 & _ & H3).
  split; [exact H1 | exact H3].
Defined.

Lemma Ratan2_neg_neg : Ratan2 (-1) (-1) = PI / 4 - PI.
Proof.
  unfold Ratan2. Rdecide.
  replace (-1 / -1) with 1 by (field; lra). rewrite atan_1. reflexivity.
Qed.

Lemma Ratan2_pos_pos : Ratan2 1 1 = PI / 4.
Proof.
  unfold Ratan2. Rdecide.
  replace (1 / 1) with 1 by (field; lra). apply atan_1.
Qed.

(** C3 as stated fails for the azimuth.  One pixel at sky offset (1, 1),
    centre (0, 0), inclination 0: the plain polar angle is [PI/4]; with
    [PA = 0] the routine returns [PI/4 - PI]. *)
Lemma disk_coordinates_azimuth_depends_on_PA :
  snd (disk_coordinates cube3 (Fin 0) (Fin 0) (Fin 0) (Fin 0))
    = [[Fin (PI / 4 - PI)]]
  /\ snd (sky_polar cube3 (Fin 0) (Fin 0)) = [[Fin (PI / 4)]]
  /\ PI / 4 - PI <> PI / 4.
Proof.
  split; [| split].
  - rewrite disk_coordinates_pixels. cbv zeta. cbn [fst snd].
    rewrite cos_radians_0.
    change (xaxis cube3) with (map Fin [1]). change (yaxis cube3) with (map Fin [1]).
    rewrite finite_sky_offsets, finite_offsets, !outer_map.
    cbn. destruct (Req_dec_T 1 0) as [?|_]; [exfalso; lra |]. cbn.
    replace ((0 + 90 + 90) * (PI / 180)) with PI by field.
    rewrite cos_PI, sin_PI. do 3 f_equal.
    rewrite <- Ratan2_neg_neg. f_equal; field.
  - rewrite sky_polar_pixels. cbv zeta. cbn [fst snd].
    change (xaxis cube3) with (map Fin [1]). change (yaxis cube3) with (map Fin [1]).
    rewrite finite_sky_offsets, finite_offsets, !outer_map.
    cbn. do 3 f_equal. rewrite <- Ratan2_pos_pos. f_equal; lra.
  - pose proof PI_RGT_0. lra.
Qed.

(** ** The raised-surface coordinates over a zero height table *)

Lemma nth_zeros (n i : nat) : (i < n)%nat -> nth i (np.zeros n) NaN = Fin 0.
Proof.
  intros Hi. unfold np.zeros. apply nth_lookup_Some with (d := NaN).
  apply lookup_replicate. split; [reflexivity | assumption].
Qed.

Lemma pixel_row {A : Type} (zf : num -> num) (h : num -> num -> A) (g : R -> A)
    (Y s t : num) (xs row : list R) :
  length row = length xs ->
  (forall x r, h (Y - zf (Fin r) * s * t)%num (Fin 1 * Fin x)%num = g x) ->
  zip_with h
    (zip_with (fun y z => (y - z * t)%num)
       (map (fun _ => Y) (map Fin xs))
       (map (fun z => (z * s)%num) (map zf (map Fin row))))
    (map (fun x => (Fin 1 * x)%num) (map Fin xs))
  = map g xs.
Proof.
  intros Hl Hpix. revert row Hl.
  induction xs as [|x xs' IH]; intros row Hl; [reflexivity |].
  destruct row as [|r row]; [discriminate |]. cbn [map zip_with].
  rewrite Hpix. f_equal. apply IH. cbn in Hl. lia.
Qed.

Lemma pixel_grid {A : Type} (zf : num -> num) (h : num -> num -> A)
    (g : R -> R -> A) (c s t : num) (xs ys : list R) (rr : list (list R)) :
  length rr = length ys ->
  Forall (fun row => length row = length xs) rr ->
  (forall x y r,
      h (Fin 1 * Fin y / c - zf (Fin r) * s * t)%num (Fin 1 * Fin x)%num = g x y) ->
  np.zip2d h
    (np.zip2d (fun y z => (y - z * t)%num)
       (map (fun y => map (fun _ => (Fin 1 * y / c)%num) (map Fin xs)) (map Fin ys))
       (np.map2d (fun z => (z * s)%num) (np.map2d zf (map (map Fin) rr))))
    (map (fun _ => map (fun x => (Fin 1 * x)%num) (map Fin xs)) (map Fin ys))
  = outer g xs ys.
Proof.
  intros Hrows Hcols Hpix. unfold np.zip2d, np.map2d, outer.
  revert rr Hrows Hcols.
  induction ys as [|y ys' IH]; intros rr Hrows Hcols; [reflexivity |].
  destruct rr as [|row rr]; [discriminate |].
  apply Forall_cons in Hcols. destruct Hcols as [Hrow Hcols].
  cbn [map zip_with]. f_equal.
  - apply (pixel_row zf h (fun x => g x y) _ _ _ xs row Hrow).
    intros x r. apply Hpix.
  - apply IH; [cbn in Hrows; lia | exact Hcols].
Qed.

Section zero_surface.

Variables (self : rotatedcube) (rs xs ys : list R) (i : R).
Hypothesis Hrvals : rvals self = map Fin rs.
Hypothesis Hinc : increasing rs.
Hypothesis Hlen : (2 <= length rs)%nat.
Hypothesis Hzvals : zvals self = np.zeros (length rs).
Hypothesis Hxaxis : xaxis self = map Fin xs.
Hypothesis Hyaxis : yaxis self = map Fin ys.
Hypothesis Hi : inc self = Fin i.
Hypothesis Hcos : cos (i * (PI / 180)) <> 0.

Local Abbreviation table := (zero_table rs).

Lemma zero_table_call (v : R) : scipy.call_linear table (Fin v) = Fin (0 * v + 0).
Proof using All.
  apply call_linear_affine; [assumption | assumption |].
  intros k Hk. rewrite nth_zeros by assumption. f_equal. lra.
Qed.

Lemma zero_table_lookup (radii : ndarray) :
  emission_surface self radii = Ok (ndmap (scipy.call_linear table) radii, self).
Proof using All.
  unfold emission_surface, emission_surface_body.
  rewrite Hzvals, Hrvals.
  assert (Hrep : emission_surface_repair (map Fin rs) (np.zeros (length rs))
                 = Ok (np.zeros (length rs))).
  { apply (emission_surface_repair_id _ _ (Fin 0) (Fin 0)); try reflexivity.
    - apply lookup_replicate. split; [reflexivity | lia].
    - rewrite last_lookup. apply lookup_replicate.
      unfold np.zeros. rewrite length_replicate. split; [reflexivity | lia]. }
  rewrite Hrep. cbn [mbind res_bind].
  rewrite scipy_new_increasing;
    [| assumption | unfold np.zeros; apply length_replicate | assumption].
  cbn [mbind res_bind]. unfold scipy.call. cbn [scipy.extrapolate negb andb].
  cbn [mbind res_bind].
  replace (set_zvals self (np.zeros (length rs))) with self
    by (rewrite <- Hzvals; symmetry; apply set_zvals_same).
  reflexivity.
Qed.

Lemma iteration_zero_surface (rpix : option (list (list num))) :
  match rpix with Some r => finite_image xs ys r | None => True end ->
  _disk_coordinates_3D_iteration self rpix
  = Ok ((thin_radius xs ys i, thin_azimuth xs ys i), self).
Proof using All.
  intros Hshape. unfold _disk_coordinates_3D_iteration.
  set (rp := match rpix with Some r => r | None => _ end).
  assert (Hrp : finite_image xs ys rp).
  { unfold rp. destruct rpix as [r|]; [exact Hshape |].
    exists (outer (fun x y => sqrt (x * x + y * y)) xs ys).
    split; [| split].
    - rewrite Hxaxis, Hyaxis. unfold outer. rewrite !map_map.
      apply map_ext. intros y. rewrite !map_map. reflexivity.
    - unfold outer. apply length_map.
    - unfold outer. apply Forall_forall. intros row Hin.
      apply list_elem_of_In, in_map_iff in Hin. destruct Hin as (y & <- & _).
      apply length_map. }
  destruct Hrp as (rr & -> & Hrows & Hcols).
  rewrite zero_table_lookup. cbn [mbind res_bind ndmap].
  rewrite Hxaxis, Hyaxis, Hi.
  set (s := if String.eqb (tilt self) "north" then Fin 1 else Fin (-1)).
  set (c := cos (i * (PI / 180))) in *.
  assert (Htan : np.tan (np.radians (Fin i)) = Fin (sin (i * (PI / 180)) / c)).
  { unfold np.tan. cbn. fold c. destruct (Req_dec_T c 0); [contradiction | reflexivity]. }
  assert (Hcosr : np.cos (np.radians (Fin i)) = Fin c) by reflexivity.
  rewrite Htan, Hcosr.
  assert (Hs : exists sv, s = Fin sv).
  { unfold s. destruct (String.eqb _ _); eexists; reflexivity. }
  destruct Hs as [sv Hs]. rewrite Hs.
  do 3 f_equal.
  - apply (pixel_grid _ _ _ _ _ _ xs ys rr Hrows Hcols).
    intros x y r. rewrite zero_table_call. cbn.
    destruct (Req_dec_T c 0); [contradiction |]. cbn. fold c.
    apply (f_equal Fin), (f_equal sqrt). field. assumption.
  - apply (pixel_grid _ _ _ _ _ _ xs ys rr Hrows Hcols).
    intros x y r. rewrite zero_table_call. cbn.
    destruct (Req_dec_T c 0); [contradiction |]. cbn. fold c.
    apply (f_equal Fin). f_equal; field; assumption.
Qed.

Lemma thin_radius_finite : finite_image xs ys (thin_radius xs ys i).
Proof using All.
  exists (outer (fun x y =>
                   sqrt (x * x + y / cos (i * (PI / 180)) * (y / cos (i * (PI / 180)))))
                xs ys).
  split; [| split].
  - unfold thin_radius, outer. rewrite map_map. apply map_ext. intros y.
    rewrite map_map. reflexivity.
  - unfold outer. apply length_map.
  - unfold outer. apply Forall_forall. intros row Hin.
    apply list_elem_of_In, in_map_iff in Hin. destruct Hin as (y & <- & _).
    apply length_map.
Qed.

Lemma loop_zero_surface (n : nat) (cur : option (list (list num) * list (list num))) :
  match cur with Some rt => finite_image xs ys rt.1 | None => True end ->
  disk_coordinates_3D_loop (S n) self cur
  = Ok (Some (thin_radius xs ys i, thin_azimuth xs ys i), self).
Proof using All.
  revert cur. induction n as [|n IH]; intros cur Hcur.
  - cbn [disk_coordinates_3D_loop].
    rewrite iteration_zero_surface by (destruct cur; exact Hcur).
    reflexivity.
  - change (disk_coordinates_3D_loop (S (S n)) self cur)
      with ('(rt, self') ← _disk_coordinates_3D_iteration self (fst <$> cur);
            disk_coordinates_3D_loop (S n) self' (Some rt)).
    rewrite iteration_zero_surface by (destruct cur; exact Hcur).
    cbn [mbind res_bind]. apply IH. exact thin_radius_finite.
Qed.

(** Over a zero table the raised coordinates are the thin-disk ones, for
    any number of iterations from one on, and the object is unchanged. *)
Lemma disk_coordinates_3D_zero_surface (niter : nat) :
  (1 <= niter)%nat ->
  disk_coordinates_3D self niter = Ok ((thin_radius xs ys i, thin_azimuth xs ys i), self).
Proof using All.
  intros Hn. destruct niter as [|n]; [lia |].
  unfold disk_coordinates_3D. rewrite loop_zero_surface by exact I.
  reflexivity.
Qed.

End zero_surface.

(** ** C2: raised against flat coordinates *)

Lemma cos_radians_pos (i : R) : 0 <= i < 90 -> 0 < cos (i * (PI / 180)).
Proof.
  intros [H0 H90]. pose proof PI_RGT_0 as Hpi.
  apply cos_gt_0; nra.
Qed.

(** The thin-disk fields are what [disk_coordinates] returns for centre
    (0, 0) and [PA = 180] on the cube with its x axis in the opposite
    order ([disk_coordinates] runs over [xaxis[::-1]]). *)
Lemma thin_disk_is_flat_mirror (cube : imagecube) (xs ys : list R) (i : R) :
  xaxis cube = map Fin xs -> yaxis cube = map Fin ys ->
  cos (i * (PI / 180)) <> 0 ->
  disk_coordinates (mirror_x cube) (Fin 0) (Fin 0) (Fin i) (Fin 180)
  = (thin_radius xs ys i, thin_azimuth xs ys i).
Proof.
  intros Hx Hy Hc. rewrite disk_coordinates_pixels. cbv zeta.
  cbn [mirror_x xaxis yaxis]. rewrite reverse_involutive, Hx, Hy.
  rewrite !finite_offsets, !outer_map.
  unfold thin_radius, thin_azimuth.
  f_equal; apply outer_ext; intros x y; cbn;
    (destruct (Req_dec_T (cos (i * (PI / 180))) 0); [contradiction |]); cbn;
    replace ((180 + 90 + 90) * (PI / 180)) with (2 * PI) by field;
    rewrite cos_2PI, sin_2PI.
  - apply (f_equal Fin), (f_equal sqrt). field. assumption.
  - apply (f_equal Fin). f_equal; field; assumption.
Qed.

(** C2, as the code has it.  With a height table of zeros over at least
    two increasing radii, a finite grid and an inclination below 90
    degrees, [disk_coordinates_3D] with any [niter >= 1] and either tilt
    returns the flat-disk fields for centre (0, 0) and [PA = 180] on the
    x axis as stored, that is [disk_coordinates(0, 0, inc, 180)] of the
    cube with the x axis in the opposite order, and leaves the object
    unchanged.  The cube's own [x0], [y0] play no part. *)
Theorem raised_coordinates_zero_surface
    (self : rotatedcube) (rs xs ys : list R) (i : R) (niter : nat) :
  rvals self = map Fin rs -> increasing rs -> (2 <= length rs)%nat ->
  zvals self = np.zeros (length rs) ->
  xaxis self = map Fin xs -> yaxis self = map Fin ys ->
  inc self = Fin i -> 0 <= i < 90 -> (1 <= niter)%nat ->
  disk_coordinates_3D self niter
  = Ok (disk_coordinates (mirror_x self) (Fin 0) (Fin 0) (inc self) (Fin 180),
        self).
Proof.
  intros Hr Hinc Hlen Hz Hx Hy Hi Hrange Hn.
  pose proof (cos_radians_pos i Hrange) as Hc.
  rewrite Hi, (thin_disk_is_flat_mirror self xs ys i Hx Hy) by lra.
  apply (disk_coordinates_3D_zero_surface self rs xs ys i); try assumption. lra.
Qed.

Lemma raised_coordinates_zero_surface_witness :
  disk_coordinates_3D cube2 5
  = Ok (disk_coordinates (mirror_x cube2) (Fin 0) (Fin 0) (inc cube2) (Fin 180),
        cube2).
Proof.
  apply (raised_coordinates_zero_surface cube2 [1; 2] [0; 1] [0] 0 5);
    try reflexivity; cbn; try lra; lia.
Defined.

Lemma face_on_radius (self : imagecube) (xs ys : list R) (a b p : R) :
  xaxis self = map Fin xs -> yaxis self = map Fin ys ->
  fst (disk_coordinates self (Fin a) (Fin b) (Fin 0) (Fin p))
  = outer (fun x y => Fin (sqrt ((x - a) * (x - a) + (y - b) * (y - b))))
          (reverse xs) ys.
Proof.
  intros Hx Hy. rewrite disk_coordinates_pixels. cbv zeta. cbn [fst].
  rewrite Hx, Hy, finite_sky_offsets, finite_offsets, !outer_map.
  rewrite cos_radians_0. apply outer_ext. intros x y. cbn.
  destruct (Req_dec_T 1 0) as [?|_]; [exfalso; lra |]. cbn.
  apply (f_equal Fin), (f_equal sqrt). apply rotation_keeps_radius.
Qed.

(** C2 as stated fails.  A face-on cube with centre (0, 0), x axis
    [[0, 1]], one row at [y = 0] and a zero height table: the raised
    routine returns the radii [[0, 1]], the flat one [[1, 0]] for every
    position angle, since only the flat one runs over [xaxis[::-1]]. *)
Lemma raised_differs_from_flat_on_zero_surface :
  (exists tpix,
      disk_coordinates_3D cube2 5 = Ok (([[Fin 0; Fin 1]], tpix), cube2))
  /\ forall PA : R,
      fst (disk_coordinates cube2 (x0 cube2) (y0 cube2) (inc cube2) (Fin PA))
      = [[Fin 1; Fin 0]]
  /\ [[Fin 1; Fin 0]] <> [[Fin 0; Fin 1]].
Proof.
  split.
  - exists (thin_azimuth [0; 1] [0] 0).
    rewrite (disk_coordinates_3D_zero_surface cube2 [1; 2] [0; 1] [0] 0);
      try reflexivity; try (cbn; lra); try (cbn; lia).
    + do 3 f_equal. unfold thin_radius, outer. cbn.
      replace (0 * (PI / 180)) with 0 by lra. rewrite cos_0.
      do 2 f_equal; [| f_equal]; apply (f_equal Fin).
      * replace (0 * 0 + 0 / 1 * (0 / 1)) with 0 by (field; lra). apply sqrt_0.
      * replace (1 * 1 + 0 / 1 * (0 / 1)) with 1 by (field; lra). apply sqrt_1.
    + replace (0 * (PI / 180)) with 0 by lra. rewrite cos_0. lra.
  - intros PA. split.
    + cbn [x0 y0 inc cube2].
      rewrite (face_on_radius cube2 [0; 1] [0] 0 0 PA eq_refl eq_refl).
      unfold outer. cbn.
      do 2 f_equal; [| f_equal]; apply (f_equal Fin).
      * replace ((1 - 0) * (1 - 0) + (0 - 0) * (0 - 0)) with 1 by lra. apply sqrt_1.
      * replace ((0 - 0) * (0 - 0) + (0 - 0) * (0 - 0)) with 0 by lra. apply sqrt_0.
    + intros H. injection H as H. lra.
Qed.

(** ** C1: the raised coordinates of a freshly constructed cube *)

Lemma increasing_map_seq (g : nat -> R) (a m : nat) :
  (forall k, g k < g (S k)) -> increasing (map g (seq a m)).
Proof.
  intros Hg. revert a. induction m as [|m IH]; intros a; [exact I |].
  cbn [seq map]. destruct m as [|m]; [exact I |].
  cbn [seq map]. split; [apply Hg |]. apply (IH (S a)).
Qed.

Lemma average2_map_seq (f : nat -> R) (a m : nat) :
  let l := map (fun k => Fin (f k)) (seq a m) in
  np.average2 (drop 1 l) (take (length l - 1) l)
  = map Fin (map (fun k => (f (S k) + f k) / 2) (seq a (m - 1))).
Proof.
  intros l. unfold np.average2. apply list_eq. intros k.
  assert (Hl : forall j, (j < m)%nat -> l !! j = Some (Fin (f (a + j)%nat))).
  { intros j Hj. unfold l. rewrite map_is_fmap, list_lookup_fmap.
    rewrite (lookup_seq_lt _ _ _ Hj). reflexivity. }
  assert (Hlen : length l = m) by (unfold l; rewrite length_map, length_seq; reflexivity).
  rewrite lookup_zip_with, lookup_drop, lookup_take, Hlen.
  rewrite !map_is_fmap, !list_lookup_fmap.
  destruct (Nat.lt_ge_cases k (m - 1)) as [Hk|Hk].
  - rewrite decide_True by lia. rewrite !Hl by lia.
    rewrite (lookup_seq_lt _ _ _ Hk).
    cbn [fmap option_fmap option_map mbind option_bind nadd].
    rewrite ndiv_fin by lra.
    replace (a + (1 + k))%nat with (S (a + k)) by lia. reflexivity.
  - rewrite (lookup_seq_ge a (m - 1) k Hk).
    rewrite (lookup_ge_None_2 l (1 + k)) by lia. reflexivity.
Qed.

(** What [__init__] leaves on a new object, given a finite grid, a
    positive beam and room for at least three default bin edges: the
    height table is all zeros, over at least two increasing radii. *)
Lemma init_zero_surface (cube : imagecube) (tilt : string)
    (xmax b i : R) (mstar dist x0 y0 : num) :
  np.max (xaxis cube) = Ok (Fin xmax) -> bmaj cube = Fin b ->
  0 < b -> 3 * (0.25 * b) < xmax ->
  lower tilt = "north" \/ lower tilt = "south" ->
  0 <= i <= 90 ->
  exists (self : rotatedcube) (rs : list R),
    __init__ cube tilt (Some (Fin i)) (Some mstar) (Some dist) x0 y0 = Ok self
    /\ base self = cube /\ inc self = Fin i
    /\ rvals self = map Fin rs /\ increasing rs /\ (2 <= length rs)%nat
    /\ length rs = (Z.to_nat (Rceil (xmax / (0.25 * b))) - 2)%nat
    /\ zvals self = np.zeros (length rs).
Proof.
  intros Hmax Hb Hbpos Hroom Htilt Hi.
  replace (xmax / (0.25 * b)) with ((xmax + - 0) / (0.25 * b)) by (field; lra).
  set (s := 0.25 * b) in *.
  set (n := Z.to_nat (Rceil ((xmax + - 0) / s))).
  set (f := fun k : nat => 0 + INR k * s).
  set (rs := map (fun k => (f (S k) + f k) / 2) (seq 1 (n - 1 - 1))).
  assert (Hn : (4 <= n)%nat).
  { unfold n. destruct (Rceil_spec ((xmax + - 0) / s)) as [_ H2].
    assert (3 < (xmax + - 0) / s).
    { apply (Rmult_lt_reg_r s); [unfold s; lra |].
      replace ((xmax + - 0) / s * s) with xmax by (field; unfold s; lra). lra. }
    assert (3 < Rceil ((xmax + - 0) / s))%Z by (apply lt_IZR; lra). lia. }
  unfold __init__.
  rewrite bool_decide_eq_true_2
    by (destruct Htilt as [-> | ->]; [left | right; left]).
  cbn [negb].
  cbn [of_option mbind res_bind].
  assert (Hchk : ((Fin 0 <=? Fin i)%num && (Fin i <=? Fin 90)%num) = true).
  { apply andb_true_intro. split; apply nleb_fin; lra. }
  rewrite Hchk. cbn [negb].
  destruct (disk_coordinates cube x0 y0 (Fin i) (Fin 0)) as [rd td].
  rewrite (default_radial_sampling_eq cube xmax b Hmax Hb) by lra.
  cbv zeta. fold s n. cbn [mbind res_bind].
  pose proof (average2_map_seq f 1 (n - 1)) as Havg. cbv zeta in Havg.
  unfold f in Havg at 1 2 3. rewrite Havg. fold rs.
  eexists. exists rs. split; [reflexivity |]. cbn.
  split; [reflexivity |]. split; [reflexivity |]. split; [reflexivity |].
  split.
  { unfold rs. apply (increasing_map_seq (fun k => (f (S k) + f k) / 2)).
    intros k. unfold f. rewrite !S_INR. unfold s. nra. }
  split.
  { unfold rs. rewrite length_map, length_seq. lia. }
  split.
  { unfold rs. rewrite length_map, length_seq. fold n. lia. }
  rewrite length_map. reflexivity.
Qed.

Lemma fresh_cube_3D (cube : imagecube) (tilt : string)
    (xs ys : list R) (xmax b i : R) (mstar dist x0 y0 : num) (niter : nat) :
  xaxis cube = map Fin xs -> yaxis cube = map Fin ys ->
  np.max (xaxis cube) = Ok (Fin xmax) -> bmaj cube = Fin b ->
  0 < b -> 3 * (0.25 * b) < xmax ->
  lower tilt = "north" \/ lower tilt = "south" ->
  0 <= i < 90 -> (1 <= niter)%nat ->
  exists self : rotatedcube,
    __init__ cube tilt (Some (Fin i)) (Some mstar) (Some dist) x0 y0 = Ok self
    /\ zvals self = np.zeros (length (rvals self))
    /\ length (rvals self) = (Z.to_nat (Rceil (xmax / (0.25 * b))) - 2)%nat
    /\ (2 <= length (rvals self))%nat
    /\ disk_coordinates_3D self niter
       = Ok ((thin_radius xs ys i, thin_azimuth xs ys i), self).
Proof.
  intros Hx Hy Hmax Hb Hbpos Hroom Htilt Hi Hn.
  destruct (init_zero_surface cube tilt xmax b i mstar dist x0 y0
              Hmax Hb Hbpos Hroom Htilt ltac:(lra))
    as (self & rs & Hinit & Hbase & Hinc & Hr & Hincr & Hlen & Hlen' & Hz).
  exists self. split; [exact Hinit |].
  split; [rewrite Hr, length_map; exact Hz |].
  split; [rewrite Hr, length_map; exact Hlen' |].
  split; [rewrite Hr, length_map; exact Hlen |].
  pose proof (cos_radians_pos i Hi) as Hc.
  apply (disk_coordinates_3D_zero_surface self rs xs ys i); try assumption.
  - rewrite Hbase. exact Hx.
  - rewrite Hbase. exact Hy.
  - lra.
Qed.

(** C1, as the code has it.  [__init__] fills the height table with zeros
    over the default radial sampling, so a new cube always has a table.
    With a finite grid, a positive beam, room for at least three default
    bin edges and an inclination below 90 degrees, the raised-surface
    deprojection of the new cube does not raise: for any [niter >= 1] it
    returns the zero-height fields, the radius [hypot(x, y / cos(inc))]
    and the azimuth [arctan2(y / cos(inc), x)] over the stored axes,
    leaves the object as it is, and [radial_profile] takes these radii. *)
Theorem fresh_cube_raised_coordinates (cube : imagecube) (tilt : string)
    (xs ys : list R) (xmax b i : R) (mstar dist x0 y0 : num) (niter : nat) :
  xaxis cube = map Fin xs -> yaxis cube = map Fin ys ->
  np.max (xaxis cube) = Ok (Fin xmax) -> bmaj cube = Fin b ->
  0 < b -> 3 * (0.25 * b) < xmax ->
  lower tilt = "north" \/ lower tilt = "south" ->
  0 <= i < 90 -> (1 <= niter)%nat ->
  exists self : rotatedcube,
    __init__ cube tilt (Some (Fin i)) (Some mstar) (Some dist) x0 y0 = Ok self
    /\ zvals self = np.zeros (length (rvals self))
    /\ (2 <= length (rvals self))%nat
    /\ disk_coordinates_3D self niter
       = Ok ((thin_radius xs ys i, thin_azimuth xs ys i), self)
    /\ radial_profile_rvals self x0 y0 (Fin i) (Fin 0) = thin_radius xs ys i.
Proof.
  intros Hx Hy Hmax Hb Hbpos Hroom Htilt Hi Hn.
  destruct (fresh_cube_3D cube tilt xs ys xmax b i mstar dist x0 y0 5
              Hx Hy Hmax Hb Hbpos Hroom Htilt Hi ltac:(lia))
    as (self & Hinit & Hz & _ & Hlen & H5).
  destruct (fresh_cube_3D cube tilt xs ys xmax b i mstar dist x0 y0 niter
              Hx Hy Hmax Hb Hbpos Hroom Htilt Hi Hn)
    as (self' & Hinit' & _ & _ & _ & Hn').
  rewrite Hinit in Hinit'. injection Hinit' as <-.
  exists self. repeat split; try assumption.
  unfold radial_profile_rvals. rewrite H5. reflexivity.
Qed.

Lemma fresh_cube_raised_coordinates_witness :
  exists self : rotatedcube,
    __init__ cube5 "South" (Some (Fin 30)) (Some (Fin 1)) (Some (Fin 100))
      (Fin 0) (Fin 0) = Ok self
    /\ disk_coordinates_3D self 5
       = Ok ((thin_radius [-2; -1; 0; 1; 2] [0] 30,
              thin_azimuth [-2; -1; 0; 1; 2] [0] 30), self).
Proof.
  destruct (fresh_cube_raised_coordinates cube5 "South"
              [-2; -1; 0; 1; 2] [0] 2 2 30 (Fin 1) (Fin 100) (Fin 0) (Fin 0) 5
              eq_refl eq_refl cube5_max eq_refl
              ltac:(lra) ltac:(lra)
              ltac:(right; vm_compute; reflexivity)
              ltac:(lra) ltac:(lia))
    as (self & Hinit & _ & _ & H3 & _).
  exists self. split; assumption.
Defined.

(** C1 as stated fails.  A cube straight from [__init__], for which no
    height sample was ever extracted or set: its table is [[0, 0]], and the
    raised-surface deprojection returns coordinate fields instead of
    raising. *)
Lemma raised_coordinates_on_fresh_cube :
  exists (self : rotatedcube) (fields : list (list num) * list (list num)),
    __init__ cube5 "north" (Some (Fin 30)) (Some (Fin 1)) (Some (Fin 100))
      (Fin 0) (Fin 0) = Ok self
    /\ zvals self = [Fin 0; Fin 0]
    /\ disk_coordinates_3D self 5 = Ok (fields, self).
Proof.
  destruct (fresh_cube_3D cube5 "north"
              [-2; -1; 0; 1; 2] [0] 2 2 30 (Fin 1) (Fin 100) (Fin 0) (Fin 0) 5
              eq_refl eq_refl cube5_max eq_refl
              ltac:(lra) ltac:(lra)
              ltac:(left; vm_compute; reflexivity)
              ltac:(lra) ltac:(lia))
    as (self & Hinit & Hz & Hr & _ & H3).
  exists self, (thin_radius [-2; -1; 0; 1; 2] [0] 30,
                thin_azimuth [-2; -1; 0; 1; 2] [0] 30).
  split; [exact Hinit |]. split; [| exact H3].
  rewrite cube5_ceil in Hr. rewrite Hz, Hr. reflexivity.
Qed.

(** A cube whose table is empty (no default bin centre at all): there the
    raised-surface call does raise, an [IndexError] from [self.zvals[0]],
    and [radial_profile] catches it and takes the flat radii. *)
Lemma empty_table_falls_back (self : rotatedcube) (niter : nat) (x0 y0 inc PA : num) :
  zvals self = [] -> (1 <= niter)%nat ->
  disk_coordinates_3D self niter = Raise IndexError
  /\ radial_profile_rvals self x0 y0 inc PA
     = fst (disk_coordinates self x0 y0 inc PA).
Proof.
  intros Hz Hn.
  assert (H : forall n cur, disk_coordinates_3D_loop (S n) self cur = Raise IndexError).
  { intros n cur. cbn [disk_coordinates_3D_loop].
    unfold _disk_coordinates_3D_iteration, emission_surface, emission_surface_body,
      emission_surface_repair, repair_leading.
    rewrite Hz. reflexivity. }
  split.
  - destruct niter as [|n]; [lia |]. unfold disk_coordinates_3D. rewrite H. reflexivity.
  - unfold radial_profile_rvals, disk_coordinates_3D. rewrite H. reflexivity.
Qed.

(** ** C6: the prior gate of the GP log-posterior *)

Lemma Rabs_self_diff (a : R) : Rabs (a + - a) = 0.
Proof. replace (a + - a) with 0 by lra. apply Rabs_R0. Qed.

Section log_probability.

Variable _deprojected_spectrum :
  rotatedcube -> list (list num) -> list num -> num -> bool
  -> res (list num * list num).
Variable celerite_GP :
  num -> num -> num -> num -> list num -> res (list num -> num).

Local Abbreviation log_probability :=
  (_log_probability_M32 _deprojected_spectrum celerite_GP).

Lemma prior_gate_open (vrot noise lnsigma lnrho vkep : R) :
  0 < vkep -> ~ prior_violated vrot noise lnsigma lnrho vkep ->
  (nabs (Fin vrot - Fin vkep) / Fin vkep >? Fin 0.3)%num = false
  /\ (Fin noise <=? Fin 0)%num = false
  /\ ((Fin (-5) <? Fin lnsigma)%num && (Fin lnsigma <? Fin 10)%num) = true
  /\ ((Fin 0 <=? Fin lnrho)%num && (Fin lnrho <=? Fin 10)%num) = true.
Proof using Type.
  intros Hk Hp. unfold prior_violated in Hp.
  assert (H1 : ~ Rabs (vrot - vkep) > 0.3 * vkep) by tauto.
  assert (H2 : ~ noise <= 0) by tauto.
  assert (H3 : -5 < lnsigma < 10) by lra.
  assert (H4 : 0 <= lnrho <= 10) by lra.
  split; [| split; [| split]].
  - unfold ngtb. cbn [nsub nneg nadd nabs]. rewrite ndiv_fin by lra.
    cbn. destruct (Rlt_dec 0.3 (Rabs (vrot + - vkep) / vkep)) as [H|]; [| reflexivity].
    exfalso. apply H1.
    apply (Rmult_lt_compat_r vkep) in H; [| assumption].
    replace (Rabs (vrot + - vkep) / vkep * vkep) with (Rabs (vrot + - vkep)) in H
      by (field; lra).
    exact H.
  - cbn. destruct (Rle_dec noise 0); [contradiction | reflexivity].
  - apply andb_true_intro. split; apply nltb_fin; lra.
  - apply andb_true_intro. split; apply nleb_fin; lra.
Qed.

(** C6, as the code has it.  For real parameters and a positive
    reference velocity the log-posterior is minus infinity whenever the
    rotation velocity is more than 30% off the reference, or the noise
    is not positive, or the log-amplitude is outside the open interval
    (-5, 10), or the log-length-scale is outside [0, 10].  Past the
    priors, with the pooled spectrum computed, it is the GP
    log-likelihood when celerite computes one that is finite, and minus
    infinity when celerite raises or the likelihood is not finite. *)
Theorem log_probability_prior_gate (self : rotatedcube)
    (vrot noise lnsigma lnrho vkep : R)
    (spectra : list (list num)) (angles : list num) (resample : bool) :
  0 < vkep ->
  let result :=
    log_probability self [Fin vrot; Fin noise; Fin lnsigma; Fin lnrho]
      spectra angles resample (Fin vkep) in
  (prior_violated vrot noise lnsigma lnrho vkep -> result = Ok NInf)
  /\ (~ prior_violated vrot noise lnsigma lnrho vkep ->
      forall x y,
        _deprojected_spectrum self spectra angles (Fin vrot) resample
          = Ok (x, y) ->
        (forall ll v,
            celerite_GP (np.log (Fin noise)) (Fin lnsigma) (Fin lnrho)
              (np.nanmean y) x = Ok ll ->
            ll y = Fin v -> result = Ok (Fin v))
        /\ (forall ll,
               celerite_GP (np.log (Fin noise)) (Fin lnsigma) (Fin lnrho)
                 (np.nanmean y) x = Ok ll ->
               isfinite (ll y) = false -> result = Ok NInf)
        /\ (forall e,
               celerite_GP (np.log (Fin noise)) (Fin lnsigma) (Fin lnrho)
                 (np.nanmean y) x = Raise e ->
               result = Ok NInf)).
Proof using Type.
  intros Hk result. subst result. unfold log_probability, _log_probability_M32.
  split.
  - intros Hp. unfold ngtb. cbn [nsub nneg nadd nabs]. rewrite ndiv_fin by lra.
    unfold nltb at 1.
    destruct (Rlt_dec 0.3 (Rabs (vrot + - vkep) / vkep)) as [|H1]; [reflexivity |].
    unfold nleb at 1.
    destruct (Rle_dec noise 0) as [|H2]; [reflexivity |].
    unfold nltb.
    destruct (Rlt_dec (-5) lnsigma) as [H3|]; [| reflexivity].
    destruct (Rlt_dec lnsigma 10) as [H4|]; [| reflexivity].
    unfold nleb.
    destruct (Rle_dec 0 lnrho) as [H5|]; [| reflexivity].
    destruct (Rle_dec lnrho 10) as [H6|]; [| reflexivity].
    exfalso. unfold prior_violated in Hp.
    assert (Hd : Rabs (vrot - vkep) > 0.3 * vkep) by lra.
    apply H1. apply (Rmult_lt_reg_r vkep); [assumption |].
    replace (Rabs (vrot + - vkep) / vkep * vkep) with (Rabs (vrot - vkep))
      by (unfold Rminus; field; lra).
    lra.
  - intros Hp x y Hxy.
    destruct (prior_gate_open vrot noise lnsigma lnrho vkep Hk Hp)
      as (G1 & G2 & G3 & G4).
    rewrite G1, G2, G3, G4. cbn [negb]. rewrite Hxy. cbn [mbind res_bind].
    split; [| split].
    + intros ll v Hgp Hv. rewrite Hgp, Hv. reflexivity.
    + intros ll Hgp Hnf. rewrite Hgp, Hnf. reflexivity.
    + intros e Hgp. rewrite Hgp. reflexivity.
Qed.

End log_probability.

Lemma log_probability_prior_gate_witness :
  _log_probability_M32 spectrum6 gp6 cube8 [Fin 100; Fin 1; Fin 0; Fin 1]
    [] [] false (Fin 100) = Ok (Fin 0)
  /\ _log_probability_M32 spectrum6 gp6 cube8 [Fin 140; Fin 1; Fin 0; Fin 1]
    [] [] false (Fin 100) = Ok NInf.
Proof.
  split.
  - destruct (log_probability_prior_gate spectrum6 gp6 cube8 100 1 0 1 100
                [] [] false ltac:(lra)) as [_ H].
    assert (Hp : ~ prior_violated 100 1 0 1 100).
    { unfold prior_violated. replace (100 - 100) with 0 by lra.
      rewrite Rabs_R0. lra. }
    destruct (H Hp [Fin 0; Fin 1] [Fin 1; Fin 2] eq_refl) as (H1 & _).
    apply (H1 (fun _ => Fin 0) 0); reflexivity.
  - destruct (log_probability_prior_gate spectrum6 gp6 cube8 140 1 0 1 100
                [] [] false ltac:(lra)) as [H _].
    apply H. left. replace (140 - 100) with 40 by lra.
    rewrite Rabs_pos_eq by lra. lra.
Defined.

(** C6 as stated fails at the ends of the amplitude interval.  With
    [lnsigma = -5], inside [-5, 10], every prior as the claim words them
    holds and the stand-in gives a finite likelihood, yet the result is
    minus infinity; one step inside, at [-4], the same input gives 0. *)
Lemma log_probability_rejects_boundary_amplitude :
  ~ spec_prior_violated 100 1 (-5) 1 100
  /\ _log_probability_M32 spectrum6 gp6 cube8 [Fin 100; Fin 1; Fin (-5); Fin 1]
       [] [] false (Fin 100) = Ok NInf
  /\ _log_probability_M32 spectrum6 gp6 cube8 [Fin 100; Fin 1; Fin (-4); Fin 1]
       [] [] false (Fin 100) = Ok (Fin 0).
Proof.
  split; [| split].
  - unfold spec_prior_violated. replace (100 - 100) with 0 by lra.
    rewrite Rabs_R0. lra.
  - unfold _log_probability_M32, ngtb. cbn [nsub nneg nadd nabs].
    rewrite ndiv_fin by lra.
    rewrite Rabs_self_diff. Rdecide. reflexivity.
  - unfold _log_probability_M32, ngtb. cbn [nsub nneg nadd nabs].
    rewrite ndiv_fin by lra.
    rewrite Rabs_self_diff. Rdecide. reflexivity.
Qed.

(** ** C7: the per-annulus sweep *)

Lemma lower_ascii_not_V (c : ascii) : lower_ascii c <> "V"%char.
Proof.
  destruct c as [[] [] [] [] [] [] [] []]; vm_compute; discriminate.
Qed.

(** The test [method.lower() == 'dV'] of rotatedcube.py never holds. *)
Lemma lower_never_dV (method : string) : String.eqb (lower method) "dV" = false.
Proof.
  destruct (String.eqb (lower method) "dV") eqn:E; [| reflexivity].
  apply String.eqb_eq in E.
  destruct method as [|c1 [|c2 m]]; cbn in E; try discriminate.
  injection E as _ E _. destruct (lower_ascii_not_V c2 E).
Qed.

Lemma cube7_init :
  __init__ cube5 "north" (Some (Fin 30)) (Some (Fin 1)) (Some (Fin 100))
    (Fin 0) (Fin 0) = Ok cube7.
Proof.
  unfold __init__.
  rewrite bool_decide_eq_true_2 by (vm_compute; left).
  cbn [negb of_option mbind res_bind].
  assert (Hchk : ((Fin 0 <=? Fin 30)%num && (Fin 30 <=? Fin 90)%num) = true).
  { apply andb_true_intro. split; apply nleb_fin; lra. }
  rewrite Hchk. cbn [negb]. unfold cube7.
  destruct (disk_coordinates cube5 (Fin 0) (Fin 0) (Fin 30) (Fin 0)) as [rd td].
  rewrite (default_radial_sampling_eq cube5 2 2 cube5_max eq_refl) by lra.
  cbv zeta.
  replace ((2 + - 0) / (0.25 * 2)) with (2 / (0.25 * 2)) by lra.
  rewrite cube5_ceil.
  assert (E : lower "north" = "north") by (vm_compute; reflexivity).
  rewrite E. cbn. Rdecide. do 2 f_equal; fin_eq.
Qed.

Lemma sqrt_below_10 (a : R) : 0 <= a < 100 -> ~ 10 <= sqrt a.
Proof.
  intros [H0 H1] H. pose proof (sqrt_lt_1_alt a 100 (conj H0 H1)) as H2.
  replace 100 with (10 * 10) in H2 by lra. rewrite sqrt_square in H2 by lra. lra.
Qed.

(** No pixel of [cube7] lies between 10 and 20 arcsec. *)
Lemma cube7_mask :
  _get_mask cube7 (Some (Fin 10)) (Some (Fin 20)) None None false false
    (Fin 0) (Fin 0) (Fin 0) (Fin 0) = Ok [[false; false; false; false; false]].
Proof.
  unfold _get_mask, try_except.
  pose proof (face_on_radius cube7 [-2; -1; 0; 1; 2] [0] 0 0 0 eq_refl eq_refl) as Hr.
  assert (Htd : exists t1 t2 t3 t4 t5,
             (disk_coordinates cube7 (Fin 0) (Fin 0) (Fin 0) (Fin 0)).2
             = [[t1; t2; t3; t4; t5]]).
  { rewrite disk_coordinates_pixels. cbv zeta. cbn [snd].
    do 5 eexists. reflexivity. }
  destruct Htd as (t1 & t2 & t3 & t4 & t5 & Htd).
  rewrite (surjective_pairing (disk_coordinates cube7 (Fin 0) (Fin 0) (Fin 0) (Fin 0))).
  rewrite Hr, Htd.
  cbn [mbind res_bind]. unfold np.min, np.max.
  cbn [concat app mbind res_bind]. unfold outer. cbn [map reverse rev_append].
  unfold ngeb. cbn [map zip_with nleb].
  repeat match goal with
  | |- context [Rle_dec 10 (sqrt ?a)] =>
      destruct (Rle_dec 10 (sqrt a)) as [H|_];
      [exfalso; apply (sqrt_below_10 a); [lra | exact H] |]
  end.
  reflexivity.
Qed.

Section main_sweep.

Variables sc_G sc_au : num.
Variable _get_vrot_from_width :
  rotatedcube -> list (list num) -> list num -> bool -> res ndarray.
Variable _get_vrot_from_GP :
  rotatedcube -> list (list num) -> list num -> bool -> nat -> nat -> nat
  -> bool -> bool -> num -> res ndarray.

(** C7 fails on rotatedcube.py.  On [cube7] no pixel lies in the bin
    from 10 to 20 arcsec.  Called with that bin and every other argument
    at its default (method 'dV'), the sweep hands the empty annulus (no
    spectra, no angles) to the GP solver and records what the solver
    returns; when the solver raises, so does the sweep.  No NaN is
    recorded, and the linewidth solver is never reached. *)
Theorem sweep_hands_empty_annulus_to_solver :
  let vkep := _projected_vkep sc_G sc_au cube7 (np.mean [Fin 10; Fin 20]) in
  get_rotation_profile sc_G sc_au _get_vrot_from_width _get_vrot_from_GP
    cube7 true (Some [Fin 10; Fin 20]) None true None None false "dV"
    32 100 100 false false
  = (v ← _get_vrot_from_GP cube7 [] [] true 32%nat 100%nat 100%nat
           false false vkep;
     Ok (([Fin ((20 + 10) / 2)], [v]), [call_GP 1 [] [] vkep], cube7)).
Proof using Type.
  intros vkep. unfold get_rotation_profile.
  rewrite bool_decide_eq_true_2 by (vm_compute; left).
  cbn [negb].
  replace (String.eqb (lower "dV") "gp") with false by (vm_compute; reflexivity).
  cbn [andb].
  rewrite (disk_coordinates_3D_zero_surface cube7 [0.75; 1.25]
             [-2; -1; 0; 1; 2] [0] 30);
    try reflexivity; try (cbn; lra); try (cbn; lia).
  2:{ pose proof (cos_radians_pos 30 ltac:(lra)). lra. }
  cbn [mbind res_bind snd].
  assert (Hs : _radial_sampling cube7 (Some [Fin 10; Fin 20]) None
               = Ok ([Fin 10; Fin 20], [Fin ((20 + 10) / 2)])).
  { unfold _radial_sampling. Rdecide. reflexivity. }
  rewrite Hs. cbn [mbind res_bind].
  cbn [data velax xaxis yaxis base cube7 cube5 map concat app length
       Nat.eqb andb forallb Nat.mul Nat.add negb seq nth Nat.sub foldM].
  unfold get_rotation_profile_step.
  cbn [index of_option lookup list_lookup Nat.sub mbind res_bind].
  rewrite cube7_mask. cbn [mbind res_bind concat app].
  unfold boolean_index, thin_azimuth, outer.
  cbn [map concat app length Nat.eqb zip zip_with List.filter snd fmap
       list_fmap mbind res_bind].
  rewrite lower_never_dV. fold vkep.
  destruct (_get_vrot_from_GP cube7 [] [] true 32%nat 100%nat 100%nat false
              false vkep) as [v|e]; reflexivity.
Qed.

End main_sweep.

(** The sweep of misc/rotatedcube.py does what the claim says: a bin whose
    annulus has fewer than two spectra, or spectra that sum to zero, gets
    the not-available result and no solver call, and the step returns. *)
Section misc_sweep.

Variables sc_G sc_au : num.
Variable eddy_found : bool.
Variable annulus : Type.
Variable kwargs : Type.
Variable set_return_all_no_plots : kwargs -> kwargs.
Variable get_annulus :
  misc.rotatedcube -> num -> num -> option num -> option num -> bool -> bool
  -> res ((list (list num) * list num) * misc.rotatedcube).
Variable ensemble :
  list (list num) -> list num -> list num -> res annulus.
Variable get_vrot_dV : annulus -> num -> res ndarray.
Variable get_vrot_GP : annulus -> num -> kwargs -> res ndarray.

Local Abbreviation step :=
  (misc.get_rotation_profile_step sc_G sc_au annulus kwargs set_return_all_no_plots get_annulus ensemble get_vrot_dV get_vrot_GP).

Lemma misc_step_not_available (rbins rpnts : list num)
    (PA_min PA_max : option num) (exclude_PA : bool) (method : string)
    (beam_spacing : bool) (st : misc.sweep_state kwargs) (r : nat)
    (r_lo r_hi : num) (spectra : list (list num)) (theta : list num)
    (self' : misc.rotatedcube) :
  rbins !! (r - 1)%nat = Some r_lo -> rbins !! r = Some r_hi ->
  get_annulus (misc.self_ _ st) r_lo r_hi PA_min PA_max exclude_PA
    beam_spacing = Ok ((spectra, theta), self') ->
  (length theta < 2)%nat \/ np.nansum (concat spectra) = Fin 0 ->
  step rbins rpnts PA_min PA_max exclude_PA method beam_spacing st r
  = Ok (misc.mk_sweep_state _ self' (misc.kwargs_ _ st)
          (misc.v_rot _ st
           ++ [if String.eqb (lower method) "dv"
               then Scalar NaN
               else Img (replicate 3 (replicate 4 NaN))])
          (misc.calls _ st)).
Proof using Type.
  intros Hlo Hhi Hann Hbad. unfold step, misc.get_rotation_profile_step.
  rewrite (index_lookup _ _ _ Hlo), (index_lookup _ _ _ Hhi).
  cbn [mbind res_bind]. rewrite Hann. cbn [mbind res_bind].
  destruct (Nat.ltb_spec (length theta) 2) as [Hlt|Hge].
  - reflexivity.
  - destruct Hbad as [Hbad|Hbad]; [lia |].
    rewrite Hbad. unfold neqb. destruct (Req_dec_T 0 0) as [_|H]; [| contradiction].
    reflexivity.
Qed.

Lemma misc_fold_not_available (rbins rpnts : list num)
    (PA_min PA_max : option num) (exclude_PA : bool) (method : string)
    (beam_spacing : bool) (bins : list nat) (st : misc.sweep_state kwargs) :
  (forall s r_lo r_hi, exists spectra theta,
      get_annulus s r_lo r_hi PA_min PA_max exclude_PA beam_spacing
        = Ok ((spectra, theta), s)
      /\ ((length theta < 2)%nat \/ np.nansum (concat spectra) = Fin 0)) ->
  Forall (fun r => (1 <= r < length rbins)%nat) bins ->
  foldM (step rbins rpnts PA_min PA_max exclude_PA method beam_spacing) st bins
  = Ok (misc.mk_sweep_state _ (misc.self_ _ st) (misc.kwargs_ _ st)
          (misc.v_rot _ st
           ++ replicate (length bins)
                (if String.eqb (lower method) "dv"
                 then Scalar NaN
                 else Img (replicate 3 (replicate 4 NaN))))
          (misc.calls _ st)).
Proof using Type.
  intros Hann Hbins. revert st.
  induction Hbins as [|r bins Hr Hbins IH]; intros st.
  - cbn. rewrite app_nil_r. destruct st; reflexivity.
  - cbn [foldM length replicate].
    destruct (lookup_lt_is_Some_2 rbins (r - 1)%nat ltac:(lia)) as [r_lo Hlo].
    destruct (lookup_lt_is_Some_2 rbins r ltac:(lia)) as [r_hi Hhi].
    destruct (Hann (misc.self_ _ st) r_lo r_hi) as (spectra & theta & Hget & Hbad).
    rewrite (misc_step_not_available rbins rpnts PA_min PA_max exclude_PA
               method beam_spacing st r r_lo r_hi spectra theta
               (misc.self_ _ st) Hlo Hhi Hget Hbad).
    cbn [mbind res_bind]. rewrite IH. cbn [misc.self_ misc.kwargs_ misc.v_rot misc.calls].
    rewrite <- app_assoc. reflexivity.
Qed.

(** When no bin has enough signal, the whole sweep returns one
    not-available result per bin and calls no solver. *)
Lemma misc_sweep_not_available (self : misc.rotatedcube)
    (rbins0 rpnts0 : option (list num)) (rbins rpnts : list num)
    (resample : bool) (PA_min PA_max : option num) (exclude_PA : bool)
    (method : string) (beam_spacing : bool) (kw : kwargs) :
  eddy_found = true ->
  lower method = "dv" \/ lower method = "gp" ->
  _radial_sampling (misc.base self) rbins0 rpnts0 = Ok (rbins, rpnts) ->
  (forall s r_lo r_hi, exists spectra theta,
      get_annulus s r_lo r_hi PA_min PA_max exclude_PA beam_spacing
        = Ok ((spectra, theta), s)
      /\ ((length theta < 2)%nat \/ np.nansum (concat spectra) = Fin 0)) ->
  misc.get_rotation_profile sc_G sc_au eddy_found annulus kwargs
    set_return_all_no_plots get_annulus ensemble get_vrot_dV get_vrot_GP
    self rbins0 rpnts0 resample PA_min PA_max exclude_PA method beam_spacing kw
  = Ok ((rpnts,
         replicate (length rbins - 1)
           (if String.eqb (lower method) "dv"
            then Scalar NaN
            else Img (replicate 3 (replicate 4 NaN)))),
        [], self).
Proof using Type.
  intros Heddy Hm Hs Hann. unfold misc.get_rotation_profile.
  rewrite Heddy. cbn [negb].
  rewrite bool_decide_eq_true_2
    by (destruct Hm as [-> | ->]; [left | right; left]).
  cbn [negb]. rewrite Hs. cbn [mbind res_bind].
  fold step.
  rewrite (misc_fold_not_available rbins rpnts PA_min PA_max exclude_PA
             method beam_spacing _ _ Hann).
  - cbn [mbind res_bind misc.self_ misc.kwargs_ misc.v_rot misc.calls app].
    rewrite length_seq. reflexivity.
  - apply Forall_forall. intros r Hr.
    apply list_elem_of_In, in_seq in Hr. lia.
Qed.

End misc_sweep.

(** * Further properties of the code *)

(** ** The spectral and the velocity axis *)

Lemma getitem_real (header : gmap string hval) (key : string) (x : R) :
  header_real header key x ->
  exists v, getitem header key = Ok v /\ as_num v = Ok (Fin x).
Proof.
  intros (v & Hv & Hx). exists v. split; [| exact Hx].
  unfold getitem. rewrite Hv. reflexivity.
Qed.

Lemma lookup_arange_n (n k : nat) :
  (k < n)%nat -> np.arange_n n !! k = Some (Fin (INR k)).
Proof.
  intros Hk. unfold np.arange_n. rewrite map_is_fmap, list_lookup_fmap.
  rewrite lookup_seq_lt by lia. reflexivity.
Qed.

(** The spectral axis of a header with numeric cards, entry by entry. *)
Lemma readspectralaxis_entries (header : gmap string hval) (n : Z)
    (cdelt crpix crval : R) :
  header !! "naxis3" = Some (HInt n) ->
  header_real header "cdelt3" cdelt ->
  header_real header "crpix3" crpix ->
  header_real header "crval3" crval ->
  _readspectralaxis header
  = Ok (map (fun k => Fin (crval + (INR k - crpix + 1) * cdelt))
            (seq 0 (Z.to_nat n))).
Proof.
  intros Hn Hd Hp Hr.
  destruct (getitem_real _ _ _ Hd) as (vd & Gd & Nd).
  destruct (getitem_real _ _ _ Hp) as (vp & Gp & Np).
  destruct (getitem_real _ _ _ Hr) as (vr & Gr & Nr).
  unfold _readspectralaxis.
  replace (getitem header "naxis3") with (Ok (HInt n) : res hval)
    by (unfold getitem; rewrite Hn; reflexivity).
  rewrite Gd, Gp, Gr. cbn [mbind res_bind]. rewrite Np, Nd, Nr.
  cbn [mbind res_bind]. f_equal. unfold np.arange_n. rewrite map_map.
  apply map_ext. intros k. reflexivity.
Qed.

(** With the FITS cards of the third axis present as numbers, the
    spectral axis has [naxis3] entries, consecutive entries are [cdelt3]
    apart, and the reference pixel [crpix3] (counted from 1) holds
    [crval3]. *)
Theorem readspectralaxis_reference_pixel (header : gmap string hval)
    (n p : Z) (cdelt crval : R) :
  header !! "naxis3" = Some (HInt n) ->
  header_real header "cdelt3" cdelt ->
  header_real header "crpix3" (IZR p) ->
  header_real header "crval3" crval ->
  (1 <= p <= n)%Z ->
  exists axis : list R,
    _readspectralaxis header = Ok (map Fin axis)
    /\ length axis = Z.to_nat n
    /\ axis !! Z.to_nat (p - 1) = Some crval
    /\ forall k a b, axis !! k = Some a -> axis !! S k = Some b ->
                     b - a = cdelt.
Proof.
  intros Hn Hd Hp Hr Hpn.
  exists (map (fun k => crval + (INR k - IZR p + 1) * cdelt)
              (seq 0 (Z.to_nat n))).
  split; [| split; [| split]].
  - rewrite (readspectralaxis_entries header n cdelt (IZR p) crval)
      by assumption.
    rewrite map_map. reflexivity.
  - rewrite length_map, length_seq. reflexivity.
  - rewrite map_is_fmap, list_lookup_fmap, lookup_seq_lt by lia.
    cbn. f_equal. rewrite INR_IZR_INZ, Z2Nat.id by lia.
    rewrite minus_IZR. lra.
  - intros k a b Ha Hb.
    rewrite map_is_fmap, list_lookup_fmap in Ha, Hb.
    destruct (seq 0 (Z.to_nat n) !! k) as [i|] eqn:Ei; [| discriminate].
    destruct (seq 0 (Z.to_nat n) !! S k) as [j|] eqn:Ej; [| discriminate].
    apply lookup_seq in Ei as [-> _]. apply lookup_seq in Ej as [-> _].
    cbn in Ha, Hb. injection Ha as <-. injection Hb as <-.
    destruct k; cbn; lra.
Qed.

Lemma header_line_cards :
  header_line !! "naxis3" = Some (HInt 3)
  /\ header_real header_line "cdelt3" 2
  /\ header_real header_line "crpix3" (IZR 2)
  /\ header_real header_line "crval3" 10.
Proof.
  split; [reflexivity |].
  split; [exists (HFloat (Fin 2)); split; reflexivity |].
  split; [exists (HInt 2); split; reflexivity |].
  exists (HFloat (Fin 10)); split; reflexivity.
Qed.

Lemma readspectralaxis_reference_pixel_witness :
  exists axis : list R,
    _readspectralaxis header_line = Ok (map Fin axis)
    /\ length axis = Z.to_nat 3
    /\ axis !! Z.to_nat (2 - 1) = Some 10
    /\ forall k a b, axis !! k = Some a -> axis !! S k = Some b ->
                     b - a = 2.
Proof.
  destruct header_line_cards as (H1 & H2 & H3 & H4).
  apply (readspectralaxis_reference_pixel header_line 3 2 2 10 H1 H2 H3 H4).
  lia.
Defined.

Lemma decreasing_map_seq (g : nat -> R) (a m : nat) :
  (forall k, g (S k) < g k) -> decreasing (map g (seq a m)).
Proof.
  intros Hg. revert a. induction m as [|m IH]; intros a; [exact I |].
  cbn [seq map]. destruct m as [|m]; [exact I |].
  cbn [seq map]. split; [apply Hg |]. apply (IH (S a)).
Qed.

(** On a frequency axis with a positive rest frequency, the velocity
    axis has [naxis3] finite entries and runs against the frequencies:
    velocities strictly decrease with the channel index when [cdelt3] is
    positive, and strictly increase when it is negative. *)
Theorem readvelocityaxis_runs_against_frequency (header : gmap string hval)
    (ctype3 : string) (n : Z) (cdelt crpix crval nu : R) (v : hval) :
  header !! "ctype3" = Some (HStr ctype3) ->
  contains "freq" (lower ctype3) = true ->
  header !! "naxis3" = Some (HInt n) ->
  header_real header "cdelt3" cdelt ->
  header_real header "crpix3" crpix ->
  header_real header "crval3" crval ->
  _readrestfreq header = Ok v -> as_num v = Ok (Fin nu) -> 0 < nu ->
  exists velax : list R,
    _readvelocityaxis header = Ok (map Fin velax)
    /\ length velax = Z.to_nat n
    /\ (0 < cdelt -> decreasing velax)
    /\ (cdelt < 0 -> increasing velax).
Proof.
  intros Hc Hf Hn Hd Hp Hr Hv Hnu Hpos.
  set (g := fun k : nat =>
              (nu - (crval + (INR k - crpix + 1) * cdelt)) * 299792458 / nu).
  exists (map g (seq 0 (Z.to_nat n))).
  assert (Hstep : forall k, g (S k) - g k = - cdelt * (299792458 / nu)).
  { intros k. unfold g. rewrite S_INR. field. lra. }
  assert (Hc0 : 0 < 299792458 / nu).
  { apply Rdiv_lt_0_compat; lra. }
  split; [| split; [| split]].
  - unfold _readvelocityaxis, getitem. rewrite Hc. cbn [of_option mbind res_bind].
    rewrite Hf.
    rewrite (readspectralaxis_entries header n cdelt crpix crval)
      by assumption.
    rewrite Hv. cbn [mbind res_bind]. rewrite Hnu. cbn [mbind res_bind].
    f_equal. rewrite !map_map. apply map_ext. intros k.
    unfold sc_c. cbn [nsub nneg nadd nmul]. rewrite ndiv_fin by lra.
    reflexivity.
  - rewrite length_map, length_seq. reflexivity.
  - intros Hd0. apply decreasing_map_seq. intros k.
    specialize (Hstep k). nra.
  - intros Hd0. apply increasing_map_seq. intros k.
    specialize (Hstep k). nra.
Qed.

Lemma readvelocityaxis_runs_against_frequency_witness :
  exists velax : list R,
    _readvelocityaxis header_freq = Ok (map Fin velax)
    /\ length velax = Z.to_nat 2
    /\ (0 < 1 -> decreasing velax)
    /\ (1 < 0 -> increasing velax).
Proof.
  apply (readvelocityaxis_runs_against_frequency header_freq "FREQ" 2 1 1
           100 100 (HFloat (Fin 100))).
  - reflexivity.
  - vm_compute. reflexivity.
  - reflexivity.
  - exists (HFloat (Fin 1)). split; reflexivity.
  - exists (HFloat (Fin 1)). split; reflexivity.
  - exists (HFloat (Fin 100)). split; reflexivity.
  - reflexivity.
  - reflexivity.
  - lra.
Defined.

(** ** The position axes *)

Lemma axis_key_cases (a : Z) :
  a ∈ [1%Z; 2%Z] -> a = 1%Z \/ a = 2%Z.
Proof.
  intros H. apply elem_of_cons in H as [->|H]; [left; reflexivity |].
  apply elem_of_cons in H as [->|H]; [right; reflexivity | inversion H].
Qed.

(** In relative mode the reference coordinate [crval] of the axis is
    read and then replaced by zero: its value does not reach the
    result. *)
Theorem readpositionaxis_relative_ignores_crval (header : gmap string hval)
    (a : Z) (v v' : hval) :
  _readpositionaxis (<[axis_key "crval" a := v]> header) false a
  = _readpositionaxis (<[axis_key "crval" a := v']> header) false a.
Proof.
  unfold _readpositionaxis.
  destruct (bool_decide (a ∈ [1%Z; 2%Z])) eqn:Ha; [| reflexivity].
  apply bool_decide_eq_true in Ha. cbn [negb].
  rewrite andb_false_r.
  assert (Hne : forall name, name = "naxis" \/ name = "cdelt" \/ name = "crpix" ->
                 forall w, getitem (<[axis_key "crval" a := w]> header)
                                   (axis_key name a)
                           = getitem header (axis_key name a)).
  { intros name Hname w. unfold getitem. rewrite lookup_insert_ne; [reflexivity |].
    destruct (axis_key_cases a Ha) as [-> | ->];
      destruct Hname as [-> | [-> | ->]]; discriminate. }
  rewrite !(Hne "naxis") by tauto. rewrite !(Hne "cdelt") by tauto.
  rewrite !(Hne "crpix") by tauto.
  destruct (getitem header (axis_key "naxis" a)) as [a_len|e]; [| reflexivity].
  destruct (getitem header (axis_key "cdelt" a)) as [a_del|e]; [| reflexivity].
  cbn [mbind res_bind].
  destruct (getitem header (axis_key "crpix" a)) as [a_pix|e]; [| reflexivity].
  cbn [mbind res_bind]. unfold getitem. rewrite !lookup_insert_eq.
  cbn [of_option mbind res_bind negb]. reflexivity.
Qed.

Lemma bool_decide_axis (a : Z) :
  a = 1%Z \/ a = 2%Z -> bool_decide (a ∈ [1%Z; 2%Z]) = true.
Proof.
  intros [-> | ->]; apply bool_decide_eq_true.
  - apply elem_of_cons. left; reflexivity.
  - apply elem_of_cons. right. apply elem_of_cons. left; reflexivity.
Qed.

(** The relative axis of a header with numeric cards, entry by entry. *)
Lemma readpositionaxis_relative_entries (header : gmap string hval)
    (a n : Z) (cdelt crpix : R) :
  a = 1%Z \/ a = 2%Z ->
  header !! axis_key "naxis" a = Some (HInt n) ->
  header_real header (axis_key "cdelt" a) cdelt ->
  header_real header (axis_key "crpix" a) crpix ->
  is_Some (header !! axis_key "crval" a) ->
  _readpositionaxis header false a
  = Ok (map (fun k => Fin (3600 * ((INR k - crpix + 1.5) * cdelt)))
            (seq 0 (Z.to_nat n))).
Proof.
  intros Ha Hn Hd Hp [vr Hr].
  destruct (getitem_real _ _ _ Hd) as (vd & Gd & Nd).
  destruct (getitem_real _ _ _ Hp) as (vp & Gp & Np).
  unfold _readpositionaxis. rewrite (bool_decide_axis a Ha).
  cbn [negb]. rewrite andb_false_r.
  replace (getitem header (axis_key "naxis" a)) with (Ok (HInt n) : res hval)
    by (unfold getitem; rewrite Hn; reflexivity).
  replace (getitem header (axis_key "crval" a)) with (Ok vr : res hval)
    by (unfold getitem; rewrite Hr; reflexivity).
  rewrite Gd, Gp. cbn [mbind res_bind]. rewrite Np. cbn [mbind res_bind].
  rewrite Nd. cbn [mbind res_bind arange_hval as_num].
  f_equal. unfold np.arange_n. rewrite !map_map.
  apply map_ext. intros k. cbn. f_equal. lra.
Qed.

(** In relative mode, when the reference pixel is [crpix = naxis/2 + 1]
    (the centre of the image), the axis is antisymmetric about its middle:
    the entry at [naxis - 1 - k] is minus the entry at [k]. *)
Theorem readpositionaxis_relative_antisymmetric (header : gmap string hval)
    (a n : Z) (cdelt : R) :
  a = 1%Z \/ a = 2%Z ->
  header !! axis_key "naxis" a = Some (HInt n) ->
  header_real header (axis_key "cdelt" a) cdelt ->
  header_real header (axis_key "crpix" a) (IZR n / 2 + 1) ->
  is_Some (header !! axis_key "crval" a) ->
  exists axis : list R,
    _readpositionaxis header false a = Ok (map Fin axis)
    /\ length axis = Z.to_nat n
    /\ forall k x, axis !! k = Some x ->
                   axis !! (Z.to_nat n - 1 - k)%nat = Some (- x).
Proof.
  intros Ha Hn Hd Hp Hr.
  exists (map (fun k => 3600 * ((INR k - (IZR n / 2 + 1) + 1.5) * cdelt))
              (seq 0 (Z.to_nat n))).
  split; [| split].
  - rewrite (readpositionaxis_relative_entries header a n cdelt
               (IZR n / 2 + 1)) by assumption.
    rewrite map_map. reflexivity.
  - rewrite length_map, length_seq. reflexivity.
  - intros k x Hk. rewrite map_is_fmap, list_lookup_fmap in Hk |- *.
    destruct (seq 0 (Z.to_nat n) !! k) as [i|] eqn:Ei; [| discriminate].
    apply lookup_seq in Ei as [-> Hlt]. cbn in Hk. injection Hk as <-.
    rewrite lookup_seq_lt by lia. cbn [fmap option_fmap option_map Nat.add].
    f_equal. rewrite minus_INR, minus_INR by lia.
    rewrite INR_IZR_INZ, Z2Nat.id by lia. cbn [INR]. lra.
Qed.

Lemma readpositionaxis_relative_antisymmetric_witness :
  exists axis : list R,
    _readpositionaxis header_sky false 1 = Ok (map Fin axis)
    /\ length axis = Z.to_nat 4
    /\ forall k x, axis !! k = Some x ->
                   axis !! (Z.to_nat 4 - 1 - k)%nat = Some (- x).
Proof.
  apply (readpositionaxis_relative_antisymmetric header_sky 1 4 (-1)).
  - left; reflexivity.
  - reflexivity.
  - exists (HFloat (Fin (-1))). split; reflexivity.
  - exists (HInt 3). split; [reflexivity |]. cbn. f_equal. f_equal. lra.
  - exists (HFloat (Fin 30)). reflexivity.
Defined.

(** In absolute mode the first axis is in degrees: the reference pixel
    [crpix1] holds [crval1], and consecutive entries are
    [cdelt1 / cos(radians(crval2))] apart. *)
Theorem readpositionaxis_absolute_first_axis (header : gmap string hval)
    (n p : Z) (cdelt crval dec : R) :
  header !! "naxis1" = Some (HInt n) ->
  header_real header "cdelt1" cdelt ->
  header_real header "crpix1" (IZR p) ->
  header_real header "crval1" crval ->
  header_real header "crval2" dec ->
  cos (dec * (PI / 180)) <> 0 ->
  (1 <= p <= n)%Z ->
  exists axis : list R,
    _readpositionaxis header true 1 = Ok (map Fin axis)
    /\ length axis = Z.to_nat n
    /\ axis !! Z.to_nat (p - 1) = Some crval
    /\ forall k a b, axis !! k = Some a -> axis !! S k = Some b ->
                     b - a = cdelt / cos (dec * (PI / 180)).
Proof.
  intros Hn Hd Hp Hr Hdec Hcos Hpn.
  destruct (getitem_real _ _ _ Hd) as (vd & Gd & Nd).
  destruct (getitem_real _ _ _ Hp) as (vp & Gp & Np).
  destruct (getitem_real _ _ _ Hr) as (vr & Gr & Nr).
  destruct (getitem_real _ _ _ Hdec) as (vc & Gc & Nc).
  set (step := cdelt / cos (dec * (PI / 180))).
  exists (map (fun k => crval + (INR k - IZR p + 1) * step)
              (seq 0 (Z.to_nat n))).
  split; [| split; [| split]].
  - unfold _readpositionaxis.
    rewrite (bool_decide_axis 1) by (left; reflexivity).
    change (axis_key "naxis" 1) with "naxis1".
    change (axis_key "cdelt" 1) with "cdelt1".
    change (axis_key "crpix" 1) with "crpix1".
    change (axis_key "crval" 1) with "crval1".
    replace (getitem header "naxis1") with (Ok (HInt n) : res hval)
      by (unfold getitem; rewrite Hn; reflexivity).
    rewrite Gd, Gp, Gr, Gc.
    cbn [negb mbind res_bind Z.eqb Pos.eqb andb].
    rewrite Nc. cbn [mbind res_bind]. rewrite Nd. cbn [mbind res_bind].
    rewrite Np, Nr.
    cbn [mbind res_bind arange_hval as_num np.radians np.cos nmul].
    rewrite ndiv_fin by assumption. cbn [mbind res_bind].
    f_equal. unfold np.arange_n. rewrite !map_map.
    apply map_ext. intros k. reflexivity.
  - rewrite length_map, length_seq. reflexivity.
  - rewrite map_is_fmap, list_lookup_fmap, lookup_seq_lt by lia.
    cbn. f_equal. rewrite INR_IZR_INZ, Z2Nat.id by lia.
    rewrite minus_IZR. lra.
  - intros k a b Ha Hb.
    rewrite map_is_fmap, list_lookup_fmap in Ha, Hb.
    destruct (seq 0 (Z.to_nat n) !! k) as [i|] eqn:Ei; [| discriminate].
    destruct (seq 0 (Z.to_nat n) !! S k) as [j|] eqn:Ej; [| discriminate].
    apply lookup_seq in Ei as [-> _]. apply lookup_seq in Ej as [-> _].
    cbn in Ha, Hb. injection Ha as <-. injection Hb as <-.
    destruct k; cbn; lra.
Qed.

Lemma cos_60_ne_0 : cos (60 * (PI / 180)) <> 0.
Proof.
  replace (60 * (PI / 180)) with (PI / 3) by lra.
  rewrite cos_PI3. lra.
Qed.

Lemma readpositionaxis_absolute_first_axis_witness :
  exists axis : list R,
    _readpositionaxis header_sky true 1 = Ok (map Fin axis)
    /\ length axis = Z.to_nat 4
    /\ axis !! Z.to_nat (3 - 1) = Some 30
    /\ forall k a b, axis !! k = Some a -> axis !! S k = Some b ->
                     b - a = -1 / cos (60 * (PI / 180)).
Proof.
  apply (readpositionaxis_absolute_first_axis header_sky 4 3 (-1) 30 60).
  - reflexivity.
  - exists (HFloat (Fin (-1))). split; reflexivity.
  - exists (HInt 3). split; reflexivity.
  - exists (HFloat (Fin 30)). split; reflexivity.
  - exists (HFloat (Fin 60)). split; reflexivity.
  - exact cos_60_ne_0.
  - lia.
Defined.

(** ** The beam *)

Lemma np_power_2 (x : R) : 0 < x -> np.power (Fin x) (Fin 2) = Fin (x * x).
Proof.
  intros Hx. unfold np.power.
  rewrite neqb_fin_ne by lra.
  unfold neqb. destruct (Req_dec_T x 1) as [->|Hx1]; [f_equal; lra |].
  destruct (Rlt_dec 0 x) as [_|H]; [| contradiction].
  f_equal. change 2 with (INR 2). rewrite Rpower_pow by assumption.
  cbn. lra.
Qed.

Lemma ln_2_pos : 0 < ln 2.
Proof. pose proof ln_lt_2. lra. Qed.

Lemma np_log_2 : np.log (Fin 2) = Fin (ln 2).
Proof.
  unfold np.log. destruct (Rlt_dec 0 2) as [_|H]; [reflexivity | lra].
Qed.

(** The two beam areas of a beam with positive axes on a positive pixel
    size.  For the fall-back beam of one pixel, the area is 1 pixel and
    the solid angle of a pixel.  For every other beam, the area in pixels
    times the solid angle of a pixel is twice the area in steradians:
    the first divides by [2 ln 2], the second by [4 ln 2]. *)
Theorem beam_area_pix_against_str (b : beam) (major minor pix : R) :
  beam_bmaj b = Fin major -> bmin b = Fin minor -> dpix b = Fin pix ->
  0 < major -> 0 < minor -> 0 < pix ->
  let pixel_sr := (pix / 3600 * (PI / 180)) * (pix / 3600 * (PI / 180)) in
  exists area_pix area_str : R,
    _calculate_beam_area_pix b = Fin area_pix
    /\ _calculate_beam_area_str b = Fin area_str
    /\ (minor = pix /\ major = pix -> area_pix = 1 /\ area_str = pixel_sr)
    /\ (~ (minor = pix /\ major = pix) ->
        area_pix * pixel_sr = 2 * area_str).
Proof.
  intros HM Hm Hd HM0 Hm0 Hd0 pixel_sr.
  pose proof ln_2_pos as Hln. pose proof PI_RGT_0 as Hpi.
  unfold _calculate_beam_area_pix, _calculate_beam_area_str.
  rewrite HM, Hm, Hd, np_power_2, np_log_2 by assumption.
  assert (Hpp : pix * pix <> 0) by (apply Rgt_not_eq; nra).
  unfold np.radians. cbn [nmul]. rewrite !ndiv_fin by (assumption || lra).
  cbn [nmul].
  unfold neqb.
  destruct (Req_dec_T minor pix) as [E1|E1];
    destruct (Req_dec_T major pix) as [E2|E2]; cbn [andb].
  - eexists _, _. split; [reflexivity |]. split; [reflexivity |].
    split; [| tauto]. intros _. subst minor major. unfold pixel_sr.
    split; [field; lra | reflexivity].
  - rewrite !ndiv_fin by lra. eexists _, _.
    split; [reflexivity |]. split; [reflexivity |].
    split; [tauto |]. intros _. unfold pixel_sr. field. lra.
  - rewrite !ndiv_fin by lra. eexists _, _.
    split; [reflexivity |]. split; [reflexivity |].
    split; [tauto |]. intros _. unfold pixel_sr. field. lra.
  - rewrite !ndiv_fin by lra. eexists _, _.
    split; [reflexivity |]. split; [reflexivity |].
    split; [tauto |]. intros _. unfold pixel_sr. field. lra.
Qed.

Lemma beam_area_pix_against_str_witness :
  let pixel_sr := (1 / 3600 * (PI / 180)) * (1 / 3600 * (PI / 180)) in
  exists area_pix area_str : R,
    _calculate_beam_area_pix beam3 = Fin area_pix
    /\ _calculate_beam_area_str beam3 = Fin area_str
    /\ (2 = 1 /\ 3 = 1 -> area_pix = 1 /\ area_str = pixel_sr)
    /\ (~ (2 = 1 /\ 3 = 1) -> area_pix * pixel_sr = 2 * area_str).
Proof.
  apply (beam_area_pix_against_str beam3 3 2 1); try reflexivity; lra.
Defined.

(** When the header lacks one of [bmaj], [bmin] and [bpa], the other two
    are dropped with it: the beam is one pixel, with position angle 0 and
    area [dpix**2]. *)
Theorem init_beam_falls_back_to_pixel (header : gmap string hval) (d : num) :
  header !! "bmaj" = None \/ header !! "bmin" = None
  \/ header !! "bpa" = None ->
  init_beam header d
  = (mk_beam d d (HFloat (Fin 0)) d, np.power d (Fin 2)).
Proof.
  intros H. unfold init_beam, getitem.
  destruct H as [H | [H | H]].
  - rewrite H. reflexivity.
  - rewrite H. destruct (header !! "bmaj") as [v|]; [| reflexivity].
    cbn [of_option mbind res_bind].
    destruct (as_num v); reflexivity.
  - rewrite H. destruct (header !! "bmaj") as [v|]; [| reflexivity].
    cbn [of_option mbind res_bind].
    destruct (as_num v); [| reflexivity]. cbn [mbind res_bind].
    destruct (header !! "bmin") as [w|]; [| reflexivity].
    cbn [of_option mbind res_bind].
    destruct (as_num w); reflexivity.
Qed.

Lemma init_beam_falls_back_to_pixel_witness :
  init_beam header_no_bpa (Fin 1)
  = (mk_beam (Fin 1) (Fin 1) (HFloat (Fin 0)) (Fin 1),
     np.power (Fin 1) (Fin 2)).
Proof.
  apply (init_beam_falls_back_to_pixel header_no_bpa (Fin 1)).
  right; right. reflexivity.
Defined.

(** ** The Keplerian profile *)

Lemma pixel_outer {A B C : Type} (f : A -> B -> C) (xs : list A)
    (ys : list B) (j i : nat) :
  pixel (outer f xs ys) j i
  = ys !! j ≫= fun y => xs !! i ≫= fun x => Some (f x y).
Proof.
  unfold pixel, outer. rewrite map_is_fmap, list_lookup_fmap.
  destruct (ys !! j) as [y|]; [| reflexivity]. cbn.
  rewrite map_is_fmap, list_lookup_fmap.
  destruct (xs !! i) as [x|]; reflexivity.
Qed.

Section keplerian_profile.

Variables sc_G sc_au : num.

(** [_keplerian_profile], pixel by pixel. *)
Lemma keplerian_profile_pixels (self : imagecube)
    (x0 y0 inc PA mstar : num) (rout rin : option num) (dist vlsr : num) :
  _keplerian_profile sc_G sc_au self x0 y0 inc PA mstar rout rin dist vlsr
  = let t := np.radians (PA + Fin 90 + Fin 90) in
    let xr := fun x y => (x * np.cos t + y * np.sin t)%num in
    let yd := fun x y =>
      ((y * np.cos t - x * np.sin t) / np.cos (np.radians inc))%num in
    let xs := map (fun x => (x - x0)%num) (reverse (xaxis self)) in
    let ys := map (fun y => (y - y0)%num) (yaxis self) in
    outer (fun x y =>
             let r := (np.hypot (xr x y) (yd x y) * dist)%num in
             let v := (np.sqrt (sc_G * mstar * msun / r / sc_au)
                       * (np.sin (np.radians inc)
                          * np.cos (np.arctan2 (yd x y) (xr x y)))
                       + vlsr)%num in
             let v := match rin with
                      | Some rin => if (r <? rin)%num then NaN else v
                      | None => v
                      end in
             match rout with
             | Some rout => if (r >? rout)%num then NaN else v
             | None => v
             end) xs ys.
Proof using Type.
  unfold _keplerian_profile. rewrite disk_coordinates_pixels.
  cbv beta iota zeta.
  rewrite !map2d_outer, !zip2d_outer, !map2d_outer.
  destruct rin as [rin|], rout as [rout|]; rewrite ?zip2d_outer;
    reflexivity.
Qed.

(** The mask of [_keplerian_profile] is taken on the radius in the
    units of [dist]: a pixel whose deprojected radius times [dist] lies
    below [rin] or above [rout] is NaN, whatever the other arguments. *)
Theorem keplerian_profile_masked_outside (self : imagecube)
    (x0 y0 inc PA mstar rout rin dist vlsr : num) (j i : nat) (r : num) :
  pixel (disk_coordinates self x0 y0 inc PA).1 j i = Some r ->
  (r * dist <? rin)%num = true \/ (r * dist >? rout)%num = true ->
  pixel (_keplerian_profile sc_G sc_au self x0 y0 inc PA mstar
           (Some rout) (Some rin) dist vlsr) j i
  = Some NaN.
Proof using Type.
  rewrite keplerian_profile_pixels, disk_coordinates_pixels.
  cbv zeta. cbn [fst]. rewrite !pixel_outer.
  destruct (map _ (yaxis self) !! j) as [y|]; [| discriminate].
  cbn [mbind option_bind].
  destruct (map _ (reverse (xaxis self)) !! i) as [x|]; [| discriminate].
  cbn [mbind option_bind]. intros [= <-] [H | H].
  - rewrite H. destruct (_ >? rout)%num; reflexivity.
  - rewrite H. reflexivity.
Qed.

(** A face-on disk has no line-of-sight rotation: with inclination 0,
    on a finite grid, the profile is the systemic velocity [vlsr] at
    every pixel but the one at the centre, where it is NaN. *)
Theorem keplerian_profile_face_on (self : imagecube) (xs ys : list R)
    (a b p G M au D vlsr : R) :
  sc_G = Fin G -> sc_au = Fin au ->
  xaxis self = map Fin xs -> yaxis self = map Fin ys ->
  0 < G -> 0 < M -> 0 < au -> 0 < D ->
  _keplerian_profile sc_G sc_au self (Fin a) (Fin b) (Fin 0) (Fin p)
    (Fin M) None None (Fin D) (Fin vlsr)
  = outer (fun x y =>
             if Req_dec_T ((x - a) * (x - a) + (y - b) * (y - b)) 0
             then NaN else Fin vlsr)
          (reverse xs) ys.
Proof using Type.
  intros EG Eau Hx Hy HG HM Hau HD.
  rewrite keplerian_profile_pixels, EG, Eau. cbv zeta.
  rewrite Hx, Hy, finite_sky_offsets, finite_offsets, !outer_map.
  rewrite cos_radians_0. apply outer_ext. intros x y.
  assert (Hs0 : np.sin (np.radians (Fin 0)) = Fin 0).
  { cbn. f_equal. replace (0 * (PI / 180)) with 0 by lra. apply sin_0. }
  rewrite Hs0. clear Hs0.
  unfold np.radians, msun.
  cbn [np.cos np.sin nmul nsub nneg nadd].
  assert (H10 : (1 : R) <> 0) by lra.
  rewrite !(ndiv_fin _ 1 H10). cbn [np.hypot np.arctan2 np.cos nmul].
  rewrite rotation_keeps_radius.
  set (rr := (x - a) * (x - a) + (y - b) * (y - b)).
  assert (HS : 0 <= rr).
  { unfold rr. pose proof (Rle_0_sqr (x - a)) as H1.
    pose proof (Rle_0_sqr (y - b)) as H2. unfold Rsqr in H1, H2. lra. }
  destruct (Req_dec_T rr 0) as [E|E].
  - rewrite E, sqrt_0. unfold ndiv at 2.
    destruct (Req_dec_T (0 * D) 0) as [_|N]; [| exfalso; lra].
    unfold Rsign.
    destruct (Rlt_dec 0 (G * M * 1.988e30)) as [_|N]; [| exfalso; nra].
    cbn [signed_inf ndiv].
    destruct (Rlt_dec au 0) as [N|_]; [exfalso; lra |].
    cbn [np.sqrt nmul]. unfold Rsign.
    destruct (Rlt_dec 0 (0 * _)) as [N|_]; [exfalso; lra |].
    destruct (Rlt_dec (0 * _) 0) as [N|_]; [exfalso; lra |].
    reflexivity.
  - assert (Hq : 0 < sqrt rr) by (apply sqrt_lt_R0; lra).
    rewrite !ndiv_fin by nra. cbn [np.sqrt].
    destruct (Rlt_dec _ 0) as [N|_].
    + exfalso. apply (Rlt_not_le _ _ N).
      apply Rlt_le. repeat apply Rdiv_lt_0_compat; nra.
    + cbn [nmul nadd]. f_equal. lra.
Qed.

End keplerian_profile.

Lemma keplerian_profile_masked_outside_witness :
  pixel (_keplerian_profile (Fin 1) (Fin 1) cube3 (Fin 0) (Fin 0) (Fin 0)
           (Fin 0) (Fin 1) (Some (Fin 0)) (Some (Fin 0)) (Fin 1) (Fin 0)) 0 0
  = Some NaN.
Proof.
  apply (keplerian_profile_masked_outside (Fin 1) (Fin 1) cube3 (Fin 0)
           (Fin 0) (Fin 0) (Fin 0) (Fin 1) (Fin 0) (Fin 0) (Fin 1) (Fin 0)
           0 0 (Fin (sqrt ((1 - 0) * (1 - 0) + (1 - 0) * (1 - 0))))).
  - rewrite (face_on_radius cube3 [1] [1] 0 0 0 eq_refl eq_refl).
    reflexivity.
  - right. apply nltb_fin.
    apply Rmult_lt_0_compat; [apply sqrt_lt_R0 |]; lra.
Defined.

Lemma keplerian_profile_face_on_witness :
  _keplerian_profile (Fin 1) (Fin 1) cube3 (Fin 0) (Fin 0) (Fin 0) (Fin 30)
    (Fin 1) None None (Fin 1) (Fin 5)
  = outer (fun x y =>
             if Req_dec_T ((x - 0) * (x - 0) + (y - 0) * (y - 0)) 0
             then NaN else Fin 5)
          (reverse [1]) [1].
Proof.
  apply (keplerian_profile_face_on (Fin 1) (Fin 1) cube3 [1] [1] 0 0 30
           1 1 1 1 5); try reflexivity; lra.
Defined.

(** ** Radial sampling from bin centres *)

Lemma lookup_map_seq {A : Type} (f : nat -> A) (m k : nat) :
  (k < m)%nat -> map f (seq 0 m) !! k = Some (f k).
Proof.
  intros Hk. rewrite map_is_fmap, list_lookup_fmap, lookup_seq_lt by lia.
  reflexivity.
Qed.

Lemma last_map_seq {A : Type} (f : nat -> A) (m : nat) :
  last (map f (seq 0 (S m))) = Some (f m).
Proof.
  rewrite last_lookup, length_map, length_seq. cbn [Nat.pred].
  apply lookup_map_seq. lia.
Qed.

(** [np.linspace] over [m] steps of width [h], from [s]. *)
Lemma linspace_uniform (s h : R) (m : nat) :
  (1 <= m)%nat -> h <> 0 ->
  np.linspace (Fin s) (Fin (s + INR m * h)) (m + 1)
  = map (fun k => Fin (s + INR k * h)) (seq 0 (S m)).
Proof.
  intros Hm Hh. unfold np.linspace.
  assert (Hm0 : INR m <> 0) by (apply not_0_INR; lia).
  replace (m + 1 - 1)%nat with m by lia.
  destruct (Nat.ltb_spec 1 (m + 1)) as [_|N]; [| lia].
  cbn [nsub nneg nadd]. rewrite ndiv_fin by assumption.
  rewrite neqb_fin_ne.
  2:{ intros E. apply Hh.
      replace h with ((s + INR m * h + - s) / INR m) by (field; assumption).
      exact E. }
  apply list_eq. intros k.
  destruct (Nat.lt_ge_cases k (S m)) as [Hk|Hk].
  2:{ rewrite !lookup_ge_None_2; [reflexivity | |].
      - rewrite length_map, length_seq. lia.
      - rewrite length_insert, !length_map. unfold np.arange_n.
        rewrite length_map, length_seq. lia. }
  rewrite lookup_map_seq by lia.
  destruct (Nat.eq_dec k m) as [->|Hne].
  - rewrite list_lookup_insert_eq; [reflexivity |].
    rewrite !length_map. unfold np.arange_n.
    rewrite length_map, length_seq. lia.
  - rewrite list_lookup_insert_ne by lia.
    rewrite !map_is_fmap, !list_lookup_fmap. unfold np.arange_n.
    rewrite lookup_map_seq by lia.
    cbn. do 2 f_equal. field. assumption.
Qed.

(** Bin centres that are evenly spaced come back unchanged: for [m >= 2]
    centres [c0, c0 + h, ...] the edges are [c0 - h/2, c0 + h/2, ...]
    ([m + 1] of them) and the centres returned are the ones given. *)
Theorem radial_sampling_uniform_centres (self : imagecube) (c0 h : R)
    (m : nat) :
  (2 <= m)%nat -> h <> 0 ->
  let centres := map (fun k => Fin (c0 + INR k * h)) (seq 0 m) in
  _radial_sampling self None (Some centres)
  = Ok (map (fun k => Fin (c0 - h / 2 + INR k * h)) (seq 0 (S m)), centres).
Proof.
  intros Hm Hh centres. unfold _radial_sampling.
  cbn [bool_decide decide_rel andb].
  rewrite bool_decide_eq_false_2 by (intros N; apply N; reflexivity).
  cbn [andb].
  destruct m as [|[|m]]; [lia | lia |].
  assert (Hd : index (np.diff centres) 0 = Ok (Fin (c0 + 1 * h + - (c0 + 0 * h)))).
  { reflexivity. }
  rewrite Hd. cbn [mbind res_bind].
  assert (H0 : index centres 0 = Ok (Fin (c0 + 0 * h))) by reflexivity.
  rewrite H0. cbn [mbind res_bind].
  assert (Hl : index_last centres = Ok (Fin (c0 + INR (S m) * h))).
  { unfold index_last, centres. rewrite last_map_seq. reflexivity. }
  rewrite Hl. cbn [mbind res_bind nmul nsub nneg nadd].
  assert (Hlen : length centres = S (S m)).
  { unfold centres. rewrite length_map, length_seq. reflexivity. }
  rewrite Hlen.
  set (s := c0 + 0 * h + - ((c0 + 1 * h + - (c0 + 0 * h)) * 0.5)).
  replace (c0 + INR (S m) * h + (c0 + 1 * h + - (c0 + 0 * h)) * 0.5)
    with (s + INR (S (S m)) * h)
    by (unfold s; rewrite (S_INR (S m)); lra).
  rewrite (linspace_uniform s h (S (S m))) by (assumption || lia).
  rewrite (average2_map_seq (fun k => s + INR k * h) 0 (S (S (S m)))).
  f_equal. f_equal.
  - apply map_ext. intros k. f_equal. unfold s. lra.
  - unfold centres. rewrite map_map.
    replace (S (S (S m)) - 1)%nat with (S (S m)) by lia.
    apply map_ext. intros k. f_equal. unfold s. rewrite S_INR. lra.
Qed.

Lemma radial_sampling_uniform_centres_witness :
  let centres := map (fun k => Fin (1 + INR k * 2)) (seq 0 3) in
  _radial_sampling cube5 None (Some centres)
  = Ok (map (fun k => Fin (1 - 2 / 2 + INR k * 2)) (seq 0 (S 3)), centres).
Proof.
  apply (radial_sampling_uniform_centres cube5 1 2 3); [lia | lra].
Defined.

(** Fewer than two bin centres cannot be turned into edges: the width is
    taken from [np.diff(rvals)[0]], which does not exist. *)
Theorem radial_sampling_needs_two_centres (self : imagecube)
    (centres : list num) :
  (length centres < 2)%nat ->
  _radial_sampling self None (Some centres) = Raise IndexError.
Proof.
  intros H. destruct centres as [|a [|b l]]; [reflexivity | reflexivity |].
  cbn in H. lia.
Qed.

Lemma radial_sampling_needs_two_centres_witness :
  _radial_sampling cube5 None (Some [Fin 1]) = Raise IndexError.
Proof.
  apply (radial_sampling_needs_two_centres cube5 [Fin 1]). cbn. lia.
Defined.

(** ** Rotation and masks *)

Lemma zip2d_map_map {A C : Type} (f : num -> num -> C) (g h : A -> num)
    (pts : list (list A)) :
  np.zip2d f (map (map g) pts) (map (map h) pts)
  = map (map (fun p => f (g p) (h p))) pts.
Proof.
  unfold np.zip2d. rewrite zip_with_map_map. apply map_ext. intros row.
  apply zip_with_map_map.
Qed.

(** [_rotate] turns by [PA + 90] degrees, so it is undone by [_rotate]
    with [-PA - 180], not with [-PA]: on finite images the round trip
    returns the coordinates it started from. *)
Theorem rotate_round_trip (pts : list (list (R * R))) (PA : R) :
  let x := map (map (fun p => Fin p.1)) pts in
  let y := map (map (fun p => Fin p.2)) pts in
  let back := (- Fin PA - Fin 180)%num in
  _rotate (_rotate x y (Fin PA)).1 (_rotate x y (Fin PA)).2 back = (x, y).
Proof.
  intros x y back. unfold _rotate, x, y, back. cbn [fst snd].
  rewrite !zip2d_map_map.
  set (t := (PA + 90) * (PI / 180)).
  assert (Hb : np.radians (- Fin PA - Fin 180 + Fin 90) = Fin (- t)).
  { cbn. f_equal. unfold t. lra. }
  rewrite Hb.
  assert (Ht : np.radians (Fin PA + Fin 90) = Fin t) by reflexivity.
  rewrite Ht. cbn [np.cos np.sin nmul nadd nsub nneg].
  rewrite cos_neg, sin_neg.
  pose proof (sin2_cos2 t) as H. unfold Rsqr in H.
  f_equal; apply map_ext; intros row; apply map_ext; intros [u v];
    cbn [fst snd]; f_equal.
  - transitivity (u * (sin t * sin t + cos t * cos t));
      [ring | rewrite H; ring].
  - transitivity (v * (sin t * sin t + cos t * cos t));
      [ring | rewrite H; ring].
Qed.

Lemma foldl_min2_finite (x : R) (l : list R) :
  exists m, foldl np.min2 (Fin x) (map Fin l) = Fin m
            /\ m <= x /\ Forall (fun v => m <= v) l.
Proof.
  revert x. induction l as [|a l IH]; intros x.
  - exists x. split; [reflexivity |]. split; [lra | constructor].
  - cbn [map foldl]. unfold np.min2 at 2. cbn [isnan nltb].
    destruct (Rlt_dec a x) as [H|H].
    + destruct (IH a) as (m & E & Hm & Hall). exists m.
      split; [exact E |]. split; [lra |]. constructor; assumption.
    + destruct (IH x) as (m & E & Hm & Hall). exists m.
      split; [exact E |]. split; [lra |]. constructor; [lra | assumption].
Qed.

Lemma foldl_max2_finite (x : R) (l : list R) :
  exists m, foldl np.max2 (Fin x) (map Fin l) = Fin m
            /\ x <= m /\ Forall (fun v => v <= m) l.
Proof.
  revert x. induction l as [|a l IH]; intros x.
  - exists x. split; [reflexivity |]. split; [lra | constructor].
  - cbn [map foldl]. unfold np.max2 at 2. cbn [isnan nltb].
    destruct (Rlt_dec x a) as [H|H].
    + destruct (IH a) as (m & E & Hm & Hall). exists m.
      split; [exact E |]. split; [lra |]. constructor; [lra | assumption].
    + destruct (IH x) as (m & E & Hm & Hall). exists m.
      split; [exact E |]. split; [lra |]. constructor; [lra | assumption].
Qed.

(** The least and the greatest entry of a finite image that has a
    pixel. *)
Lemma np_min_finite (l : list R) :
  l <> [] ->
  exists m, np.min (map Fin l) = Ok (Fin m) /\ Forall (fun v => m <= v) l.
Proof.
  destruct l as [|x l]; [congruence |]. intros _.
  destruct (foldl_min2_finite x l) as (m & E & Hm & Hall).
  exists m. split; [cbn; rewrite E; reflexivity |].
  constructor; assumption.
Qed.

Lemma np_max_finite (l : list R) :
  l <> [] ->
  exists m, np.max (map Fin l) = Ok (Fin m) /\ Forall (fun v => v <= m) l.
Proof.
  destruct l as [|x l]; [congruence |]. intros _.
  destruct (foldl_max2_finite x l) as (m & E & Hm & Hall).
  exists m. split; [cbn; rewrite E; reflexivity |].
  constructor; assumption.
Qed.

Lemma concat_map_map {A B : Type} (f : A -> B) (img : list (list A)) :
  concat (map (map f) img) = map f (concat img).
Proof.
  induction img as [|row img IH]; [reflexivity |].
  cbn. rewrite IH, map_app. reflexivity.
Qed.

Lemma concat_outer_nonempty {A B C : Type} (f : A -> B -> C) (xs : list A)
    (ys : list B) :
  xs <> [] -> ys <> [] -> concat (outer f xs ys) <> [].
Proof.
  destruct xs as [|x xs]; [congruence |].
  destruct ys as [|y ys]; [congruence |]. discriminate.
Qed.

(** A window that spans the whole range of a finite image selects every
    pixel. *)
Lemma whole_range_mask (img : list (list R)) (lo hi : R) :
  Forall (fun v => lo <= v) (concat img) ->
  Forall (fun v => v <= hi) (concat img) ->
  map (map (fun v => (v >=? Fin lo)%num && (v <=? Fin hi)%num))
      (map (map Fin) img)
  = map (map (fun _ => true)) img.
Proof.
  intros Hlo Hhi. rewrite map_map.
  induction img as [|row img IH]; [reflexivity |].
  cbn [concat] in Hlo, Hhi.
  apply Forall_app in Hlo as [Hlo1 Hlo2].
  apply Forall_app in Hhi as [Hhi1 Hhi2].
  cbn [map]. rewrite IH by assumption. f_equal.
  rewrite map_map. clear IH Hlo2 Hhi2.
  induction row as [|v row IH]; [reflexivity |].
  apply Forall_cons in Hlo1 as [Hv1 Hlo1].
  apply Forall_cons in Hhi1 as [Hv2 Hhi1].
  cbn [map]. rewrite IH by assumption. f_equal.
  unfold ngeb. cbn [nleb].
  destruct (Rle_dec lo v); [| lra]. destruct (Rle_dec v hi); [| lra].
  reflexivity.
Qed.

Lemma zip_with_andb_true {A : Type} (img : list (list A)) :
  zip_with (zip_with andb) (map (map (fun _ => true)) img)
           (map (map (fun _ => true)) img)
  = map (map (fun _ => true)) img.
Proof.
  rewrite zip_with_map_map. apply map_ext. intros row.
  rewrite zip_with_map_map. reflexivity.
Qed.

Lemma map_const_replicate {A B : Type} (c : B) (l : list A) :
  map (fun _ => c) l = replicate (length l) c.
Proof. induction l as [|x l IH]; [reflexivity |]. cbn. rewrite IH. reflexivity. Qed.

(** [disk_coordinates] on a finite grid, with finite centre and angles
    and an inclination whose cosine is not zero, gives finite images of
    the shape of the grid. *)
Lemma disk_coordinates_finite (self : imagecube) (xs ys : list R)
    (a b i p : R) :
  xaxis self = map Fin xs -> yaxis self = map Fin ys ->
  cos (i * (PI / 180)) <> 0 ->
  exists fr ft : R -> R -> R,
    disk_coordinates self (Fin a) (Fin b) (Fin i) (Fin p)
    = (map (map Fin) (outer fr (reverse xs) ys),
       map (map Fin) (outer ft (reverse xs) ys)).
Proof.
  intros Hx Hy Hc.
  set (t := (p + 90 + 90) * (PI / 180)).
  set (c := cos (i * (PI / 180))) in *.
  exists (fun x y =>
            sqrt (((x - a) * cos t + (y - b) * sin t)
                  * ((x - a) * cos t + (y - b) * sin t)
                  + ((y - b) * cos t + - ((x - a) * sin t)) / c
                    * (((y - b) * cos t + - ((x - a) * sin t)) / c))),
         (fun x y =>
            Ratan2 (((y - b) * cos t + - ((x - a) * sin t)) / c)
                   ((x - a) * cos t + (y - b) * sin t)).
  rewrite disk_coordinates_pixels. cbv zeta.
  rewrite Hx, Hy, finite_sky_offsets, finite_offsets, !outer_map.
  assert (Hm : forall (f : R -> R -> R) (l1 l2 : list R),
             map (map Fin) (outer f l1 l2)
             = outer (fun x y => Fin (f x y)) l1 l2).
  { intros f l1 l2. unfold outer. rewrite map_map. apply map_ext.
    intros y. rewrite map_map. reflexivity. }
  rewrite !Hm.
  f_equal; apply outer_ext; intros x y; cbn; fold t; fold c;
    destruct (Req_dec_T c 0) as [N|_]; try contradiction; reflexivity.
Qed.

(** Called without limits, [_get_mask] selects every pixel of a finite
    grid that has at least one pixel, for every finite centre and
    position angle and every inclination whose cosine is not zero. *)
Theorem get_mask_default_selects_all (self : imagecube) (xs ys : list R)
    (a b i p : R) :
  xaxis self = map Fin xs -> yaxis self = map Fin ys ->
  xs <> [] -> ys <> [] ->
  cos (i * (PI / 180)) <> 0 ->
  _get_mask self None None None None false false
    (Fin a) (Fin b) (Fin i) (Fin p)
  = Ok (replicate (length ys) (replicate (length xs) true)).
Proof.
  intros Hx Hy Hxs Hys Hc. unfold _get_mask. cbn [try_except mbind res_bind].
  destruct (disk_coordinates_finite self xs ys a b i p Hx Hy Hc)
    as (fr & ft & ->).
  assert (Hrev : reverse xs <> []).
  { intros E. apply Hxs. apply (f_equal (@length R)) in E.
    rewrite length_reverse in E. destruct xs; [reflexivity | discriminate]. }
  rewrite !concat_map_map.
  destruct (np_min_finite (concat (outer fr (reverse xs) ys)))
    as (rlo & -> & Hrlo); [apply concat_outer_nonempty; assumption |].
  destruct (np_max_finite (concat (outer fr (reverse xs) ys)))
    as (rhi & -> & Hrhi); [apply concat_outer_nonempty; assumption |].
  destruct (np_min_finite (concat (outer ft (reverse xs) ys)))
    as (tlo & -> & Htlo); [apply concat_outer_nonempty; assumption |].
  destruct (np_max_finite (concat (outer ft (reverse xs) ys)))
    as (thi & -> & Hthi); [apply concat_outer_nonempty; assumption |].
  cbn [mbind res_bind].
  rewrite !whole_range_mask by assumption.
  f_equal. unfold outer. rewrite !map_map. cbn.
  rewrite zip_with_map_map.
  transitivity (map (fun _ : R => replicate (length xs) true) ys).
  - apply map_ext. intros y. rewrite !map_map, zip_with_map_map. cbn.
    rewrite <- (length_reverse xs). apply map_const_replicate.
  - apply map_const_replicate.
Qed.

Lemma get_mask_default_selects_all_witness :
  _get_mask cube5 None None None None false false
    (Fin 0) (Fin 0) (Fin 0) (Fin 0)
  = Ok (replicate (length [0]) (replicate (length [-2; -1; 0; 1; 2]) true)).
Proof.
  apply (get_mask_default_selects_all cube5 [-2; -1; 0; 1; 2] [0] 0 0 0 0);
    try reflexivity; try discriminate.
  replace (0 * (PI / 180)) with 0 by lra. rewrite cos_0. lra.
Defined.

(** ** The height table and its lookup *)

Lemma filter_all_false {A : Type} (p : A -> bool) (l : list A) :
  (forall x, In x l -> p x = false) -> List.filter p l = [].
Proof.
  induction l as [|a l IH]; intros H; [reflexivity |]. cbn.
  rewrite (H a) by (left; reflexivity). apply IH.
  intros x Hx. apply H. right. exact Hx.
Qed.

(** In an increasing table, [k] entries lie before the one at [k]. *)
Lemma searchsorted_node (rs : list R) (k : nat) :
  increasing rs -> (k < length rs)%nat ->
  scipy.searchsorted (map Fin rs) (Fin (nth k rs 0)) = k.
Proof.
  unfold scipy.searchsorted. revert k.
  induction rs as [|a t IH]; intros k Hinc Hk; [cbn in Hk; lia |].
  assert (Hinc' : increasing t) by (destruct t; [exact I | apply Hinc]).
  destruct k as [|k].
  - cbn [nth]. rewrite filter_all_false; [reflexivity |]. intros x Hx.
    apply in_map_iff in Hx as (r & <- & Hr).
    unfold scipy.sort_leb. cbn [isnan nleb].
    destruct (Rle_dec a r) as [|N]; [reflexivity |].
    exfalso. apply N. apply (In_nth _ _ 0) in Hr as (j & Hj & <-).
    destruct j as [|j]; [cbn; lra |].
    apply (increasing_le (a :: t) 0 (S j) Hinc); [lia | exact Hj].
  - cbn [nth map List.filter].
    pose proof (increasing_nth (a :: t) 0 Hinc ltac:(cbn in Hk |- *; lia)) as H01.
    pose proof (increasing_le (a :: t) 1 (S k) Hinc ltac:(lia)
                  ltac:(cbn in Hk |- *; lia)) as Hle.
    cbn [nth] in H01, Hle.
    unfold scipy.sort_leb at 1. cbn [isnan nleb].
    destruct (Rle_dec (nth k t 0) a) as [N|_]; [lra |].
    cbn [negb length]. f_equal. apply IH; [exact Hinc' | cbn in Hk; lia].
Qed.

(** Linear interpolation over increasing radii returns, at a radius of
    the table, the height stored with it. *)
Lemma call_linear_node (rs zs : list R) (k : nat) (fill : bool) :
  increasing rs -> (2 <= length rs)%nat -> length zs = length rs ->
  (k < length rs)%nat ->
  scipy.call_linear (scipy.mk_interp1d (map Fin rs) (map Fin zs) fill)
                    (Fin (nth k rs 0))
  = Fin (nth k zs 0).
Proof.
  intros Hinc H2 Hlen Hk. unfold scipy.call_linear. cbn [scipy.xs scipy.ys].
  rewrite searchsorted_node, length_map by assumption.
  set (hi := Nat.min (Nat.max k 1) (length rs - 1)).
  assert (Hhi : (1 <= hi /\ hi < length rs /\ (k = hi \/ k = hi - 1))%nat)
    by (unfold hi; lia).
  destruct hi as [|lo]; [lia |]. cbn [Nat.sub] in *. rewrite Nat.sub_0_r in *.
  rewrite !(nth_indep (map Fin rs) NaN (Fin 0)) by (rewrite length_map; lia).
  rewrite !(nth_indep (map Fin zs) NaN (Fin 0)) by (rewrite length_map; lia).
  rewrite !map_nth.
  pose proof (increasing_nth rs lo Hinc ltac:(lia)) as Hlt.
  cbn [nsub nneg nadd]. rewrite ndiv_fin by lra. cbn [nmul nadd].
  destruct Hhi as (_ & _ & [-> | ->]); f_equal; field; lra.
Qed.

(** Over finite heights on increasing radii, the value at a finite
    radius is finite. *)
Lemma call_linear_finite (rs zs : list R) (v : R) (fill : bool) :
  increasing rs -> (2 <= length rs)%nat -> length zs = length rs ->
  exists z,
    scipy.call_linear (scipy.mk_interp1d (map Fin rs) (map Fin zs) fill)
                      (Fin v)
    = Fin z.
Proof.
  intros Hinc H2 Hlen. unfold scipy.call_linear. cbn [scipy.xs scipy.ys].
  rewrite length_map.
  set (hi := Nat.min (Nat.max _ 1) (length rs - 1)).
  assert (Hhi : (1 <= hi /\ hi < length rs)%nat) by (unfold hi; lia).
  destruct hi as [|lo]; [lia |]. cbn [Nat.sub]. rewrite Nat.sub_0_r.
  rewrite !(nth_indep (map Fin rs) NaN (Fin 0)) by (rewrite length_map; lia).
  rewrite !(nth_indep (map Fin zs) NaN (Fin 0)) by (rewrite length_map; lia).
  rewrite !map_nth.
  pose proof (increasing_nth rs lo Hinc ltac:(lia)) as Hlt.
  cbn [nsub nneg nadd]. rewrite ndiv_fin by lra. cbn [nmul nadd].
  eexists. reflexivity.
Qed.

(** On a table of finite heights over increasing radii the lookup
    returns, is the plain interpolant, and leaves the object alone. *)
Lemma emission_surface_finite_table (self : rotatedcube) (rs zs : list R)
    (radii : ndarray) :
  rvals self = map Fin rs -> zvals self = map Fin zs ->
  increasing rs -> (2 <= length rs)%nat -> length zs = length rs ->
  emission_surface self radii
  = Ok (ndmap (scipy.call_linear
                 (scipy.mk_interp1d (map Fin rs) (map Fin zs) true)) radii,
        self).
Proof.
  intros Hr Hz Hinc H2 Hlen.
  unfold emission_surface, emission_surface_body. rewrite Hr, Hz.
  assert (Hrep : emission_surface_repair (map Fin rs) (map Fin zs)
                 = Ok (map Fin zs)).
  { destruct zs as [|z0 zs']; [cbn in Hlen; lia |].
    destruct (last_map_Fin (fun z => z) (z0 :: zs') ltac:(discriminate))
      as [b Hb].
    apply (emission_surface_repair_id _ _ (Fin z0) (Fin b));
      [reflexivity | reflexivity | | reflexivity].
    rewrite <- Hb. f_equal. }
  rewrite Hrep. cbn [mbind res_bind].
  rewrite scipy_new_increasing
    by (try assumption; rewrite length_map; assumption).
  cbn [mbind res_bind]. unfold scipy.call.
  cbn [scipy.extrapolate negb andb mbind res_bind].
  rewrite <- Hz, set_zvals_same. rewrite Hz. reflexivity.
Qed.

(** Asking for the heights at the radii of the table gives the table
    back: on finite heights over at least two increasing radii,
    [emission_surface(self.rvals)] is [self.zvals], and the object is
    unchanged. *)
Theorem emission_surface_at_table_radii (self : rotatedcube)
    (rs zs : list R) :
  rvals self = map Fin rs -> zvals self = map Fin zs ->
  increasing rs -> (2 <= length rs)%nat -> length zs = length rs ->
  emission_surface self (Vec (rvals self)) = Ok (Vec (zvals self), self).
Proof.
  intros Hr Hz Hinc H2 Hlen.
  rewrite (emission_surface_finite_table self rs zs) by assumption.
  rewrite Hr, Hz. cbn [ndmap]. do 3 f_equal.
  apply list_eq. intros k. rewrite !map_is_fmap, !list_lookup_fmap.
  destruct (Nat.lt_ge_cases k (length rs)) as [Hk|Hk].
  - destruct (rs !! k) as [r|] eqn:Er;
      [| apply lookup_ge_None in Er; lia].
    destruct (zs !! k) as [z|] eqn:Ez;
      [| apply lookup_ge_None in Ez; lia].
    cbn [fmap option_fmap option_map]. f_equal.
    rewrite <- (nth_lookup_Some _ _ 0 _ Er), <- (nth_lookup_Some _ _ 0 _ Ez).
    apply call_linear_node; assumption.
  - rewrite (lookup_ge_None_2 rs), (lookup_ge_None_2 zs) by lia.
    reflexivity.
Qed.

Lemma emission_surface_at_table_radii_witness :
  emission_surface cube8 (Vec (rvals cube8)) = Ok (Vec (zvals cube8), cube8).
Proof.
  apply (emission_surface_at_table_radii cube8 [0.75; 1.25] [0; 0]);
    try reflexivity; cbn; (lra || lia).
Defined.

Ltac bind_ok H :=
  repeat match type of H with
  | (match ?m with Ok _ => _ | Raise _ => _ end) = Ok _ =>
      let E := fresh "E" in destruct m eqn:E; [| discriminate H]
  | (?m ≫= _) = Ok _ =>
      let E := fresh "E" in
      destruct m eqn:E; [cbn [mbind res_bind] in H | discriminate H]
  | (if ?b then _ else _) = Ok _ =>
      let E := fresh "E" in destruct b eqn:E; try discriminate H
  end.

Lemma index_Ok_lt {A : Type} (l : list A) (i : nat) (a : A) :
  index l i = Ok a -> (i < length l)%nat.
Proof.
  unfold index. destruct (l !! i) eqn:E; [| discriminate].
  intros _. apply lookup_lt_Some in E. exact E.
Qed.

(** Neither repair changes the length of the table. *)
Lemma repair_leading_length (rv zv z1 : list num) :
  repair_leading rv zv = Ok z1 -> length z1 = length zv.
Proof.
  unfold repair_leading. intros H. bind_ok H.
  - match goal with
    | Hc : scipy.call _ _ = Ok _ |- _ =>
        unfold scipy.call in Hc;
        match type of Hc with
        | (if ?b then _ else _) = _ => destruct b; [discriminate Hc |]
        end;
        injection Hc as <-
    end.
    injection H as <-. cbn [ndmap ndflatten].
    repeat match goal with
    | Hi : index _ _ = Ok _ |- _ => apply index_Ok_lt in Hi
    end.
    rewrite length_app, length_map, length_take, length_drop. lia.
  - injection H as <-. reflexivity.
Qed.

Lemma repair_trailing_length (zv z1 : list num) :
  repair_trailing zv = Ok z1 -> length z1 = length zv.
Proof.
  unfold repair_trailing. intros H. bind_ok H.
  - injection H as <-.
    rewrite length_app, length_take, length_replicate. lia.
  - injection H as <-. reflexivity.
Qed.

(** [emission_surface] returns only on a table with one height per
    radius and at least two entries; when it returns, the table has kept
    its length and nothing but [zvals] has been written. *)
Theorem emission_surface_returns_only_on_a_table (self self' : rotatedcube)
    (radii v : ndarray) :
  emission_surface self radii = Ok (v, self') ->
  length (rvals self) = length (zvals self)
  /\ (2 <= length (zvals self))%nat
  /\ length (zvals self') = length (zvals self)
  /\ self' = set_zvals self (zvals self').
Proof.
  unfold emission_surface, emission_surface_body, emission_surface_repair.
  intros H.
  destruct (repair_leading (rvals self) (zvals self)) as [z1|] eqn:E1;
    [| discriminate].
  cbn [mbind res_bind] in H.
  destruct (repair_trailing z1) as [z2|] eqn:E2; [| discriminate].
  cbn [mbind res_bind] in H.
  destruct (scipy.new (rvals self) z2 true) as [f|] eqn:E3; [| discriminate].
  cbn [mbind res_bind] in H.
  destruct (scipy.call f radii) as [z|]; [| discriminate].
  cbn [mbind res_bind] in H. injection H as <- <-.
  apply repair_leading_length in E1. apply repair_trailing_length in E2.
  unfold scipy.new in E3.
  destruct (Nat.eqb_spec (length (rvals self)) (length z2)) as [Hl|];
    [| discriminate].
  destruct (Nat.ltb_spec (length (rvals self)) 2); [discriminate |].
  cbn [zvals set_zvals]. repeat split; lia.
Qed.

Lemma emission_surface_returns_only_on_a_table_witness :
  length (rvals cube8) = length (zvals cube8)
  /\ (2 <= length (zvals cube8))%nat
  /\ length (zvals cube8) = length (zvals cube8)
  /\ cube8 = set_zvals cube8 (zvals cube8).
Proof.
  apply (emission_surface_returns_only_on_a_table cube8 cube8
           (Scalar (Fin 2))
           (ndmap (scipy.call_linear
                     (scipy.mk_interp1d (map Fin [0.75; 1.25])
                                        (map Fin [0; 0]) true))
                  (Scalar (Fin 2)))).
  apply (emission_surface_finite_table cube8 [0.75; 1.25] [0; 0]);
    try reflexivity; cbn; (lra || lia).
Defined.

Lemma repair_trailing_clean (zv : list num) (b : num) :
  last zv = Some b -> isnan b = false -> repair_trailing zv = Ok zv.
Proof.
  intros Hl Hb. unfold repair_trailing.
  rewrite (index_last_lookup _ _ Hl). cbn. rewrite Hb. reflexivity.
Qed.

Lemma repair_leading_clean (rv zv : list num) (a : num) :
  zv !! 0%nat = Some a -> isnan a = false -> repair_leading rv zv = Ok zv.
Proof.
  intros H0 Ha. unfold repair_leading.
  rewrite (index_lookup _ _ _ H0). cbn. rewrite Ha. reflexivity.
Qed.

Lemma not_nan_isnan (z : num) : Some z <> Some NaN -> isnan z = false.
Proof. destruct z; try reflexivity. intros H. contradiction H. reflexivity. Qed.

(** What the two repairs leave behind is a table they do not touch
    again. *)
Lemma repair_fixed_point (rs : list R) (zv out : list num) :
  increasing rs -> 0 <= nth 0 rs 0 ->
  length zv = length rs -> (1 <= length rs)%nat ->
  emission_surface_repair (map Fin rs) zv = Ok out ->
  emission_surface_repair (map Fin rs) out = Ok out
  /\ length out = length zv.
Proof.
  intros Hinc Hr0 Hlen H1 Hrep.
  destruct (repair_leading_spec rs zv Hinc Hr0 Hlen H1)
    as (L & zv1 & Hlead & Hlen1 & HL & HLnan & HLok & Hramp & Hkeep).
  assert (Hne1 : zv1 <> []) by (intros ->; cbn in Hlen1; lia).
  destruct (repair_trailing_spec zv1 Hne1)
    as (T & out' & Htrail & Hlen2 & HTnan & HTok & Hpre & Hzero).
  unfold emission_surface_repair in Hrep. rewrite Hlead in Hrep.
  cbn [mbind res_bind] in Hrep. rewrite Htrail in Hrep.
  injection Hrep as <-.
  split; [| lia].
  assert (Hlast : exists b, last out' = Some b /\ isnan b = false).
  { destruct (some_nan_cases (last zv1)) as [Hn|Hn].
    - destruct (HTnan Hn) as (HT & _ & _). exists (Fin 0).
      split; [| reflexivity].
      rewrite last_lookup. apply Hzero. lia.
    - assert (E : out' = zv1).
      { apply list_eq. intros i.
        destruct (Nat.lt_ge_cases i (length zv1)) as [Hi|Hi].
        - apply Hpre. rewrite (HTok Hn). exact Hi.
        - rewrite !lookup_ge_None_2 by lia. reflexivity. }
      rewrite E. destruct (last zv1) as [b|] eqn:Eb.
      + exists b. split; [reflexivity |]. apply not_nan_isnan. exact Hn.
      + apply last_None in Eb. contradiction. }
  destruct Hlast as (b & Hb & Hbn).
  assert (Hfirst : repair_leading (map Fin rs) out' = Ok out').
  { destruct (out' !! 0%nat) as [z0|] eqn:E0;
      [| apply lookup_ge_None in E0; lia].
    destruct (isnan z0) eqn:Ez0;
      [| apply (repair_leading_clean _ _ z0 E0 Ez0)].
    destruct z0; try discriminate.
    assert (HT0 : (0 < T)%nat).
    { destruct T; [| lia]. rewrite Hzero in E0 by lia. discriminate. }
    rewrite Hpre in E0 by lia.
    assert (HL0 : L = 0%nat).
    { destruct L; [reflexivity |].
      destruct (Hramp 0%nat ltac:(lia)) as (zL & _ & Hz).
      rewrite Hz in E0. discriminate. }
    subst L.
    assert (Ezv : zv1 = zv).
    { apply list_eq. intros i. apply Hkeep. lia. }
    assert (Hn : last zv1 <> Some NaN).
    { intros Hn. destruct (HTnan Hn) as (_ & _ & H3).
      apply (H3 0%nat HT0). exact E0. }
    assert (E : out' = zv1).
    { apply list_eq. intros i.
      destruct (Nat.lt_ge_cases i (length zv1)) as [Hi|Hi].
      - apply Hpre. rewrite (HTok Hn). exact Hi.
      - rewrite !lookup_ge_None_2 by lia. reflexivity. }
    rewrite E, Ezv. rewrite Ezv in Hlead. exact Hlead. }
  unfold emission_surface_repair. rewrite Hfirst. cbn [mbind res_bind].
  apply (repair_trailing_clean _ b Hb Hbn).
Qed.

Lemma set_zvals_twice (self : rotatedcube) (z z' : list num) :
  set_zvals (set_zvals self z) z' = set_zvals self z'.
Proof. reflexivity. Qed.

(** A second lookup finds nothing left to repair: on a table over
    increasing non-negative radii, whatever the first call has written,
    every later call leaves the object as the first call left it, and
    the same radii give the same heights again. *)
Theorem emission_surface_second_call (self self1 : rotatedcube)
    (rs : list R) (radii v : ndarray) :
  rvals self = map Fin rs -> increasing rs -> 0 <= nth 0 rs 0 ->
  length (zvals self) = length rs -> (2 <= length rs)%nat ->
  emission_surface self radii = Ok (v, self1) ->
  emission_surface self1 radii = Ok (v, self1)
  /\ forall radii', exists v',
       emission_surface self1 radii' = Ok (v', self1).
Proof.
  intros Hr Hinc Hr0 Hlen H2 Hcall.
  unfold emission_surface, emission_surface_body in Hcall.
  rewrite Hr in Hcall.
  destruct (emission_surface_repair (map Fin rs) (zvals self)) as [out|] eqn:Erep;
    [| discriminate].
  cbn [mbind res_bind] in Hcall.
  destruct (repair_fixed_point rs (zvals self) out Hinc Hr0 Hlen ltac:(lia) Erep)
    as [Hfix Hlen'].
  rewrite scipy_new_increasing in Hcall by (try assumption; lia).
  cbn [mbind res_bind] in Hcall. unfold scipy.call in Hcall.
  cbn [scipy.extrapolate negb andb mbind res_bind] in Hcall.
  injection Hcall as <- <-.
  assert (Hany : forall radii',
             emission_surface (set_zvals self out) radii'
             = Ok (ndmap (scipy.call_linear
                            (scipy.mk_interp1d (map Fin rs) out true)) radii',
                   set_zvals self out)).
  { intros radii'. unfold emission_surface, emission_surface_body.
    cbn [rvals zvals set_zvals]. rewrite Hr, Hfix. cbn [mbind res_bind].
    rewrite scipy_new_increasing by (try assumption; lia).
    reflexivity. }
  split; [apply Hany |]. intros radii'. eexists. apply Hany.
Qed.

Lemma emission_surface_second_call_witness :
  exists v self1,
    emission_surface cube10w (Scalar (Fin 2)) = Ok (v, self1)
    /\ emission_surface self1 (Scalar (Fin 2)) = Ok (v, self1)
    /\ forall radii', exists v',
         emission_surface self1 radii' = Ok (v', self1).
Proof.
  assert (Hr : rvals cube10w = map Fin [1; 2; 3; 4; 5]) by reflexivity.
  assert (Hinc : increasing [1; 2; 3; 4; 5]) by (cbn; lra).
  assert (Hr0 : 0 <= nth 0 [1; 2; 3; 4; 5] 0) by (cbn; lra).
  assert (Hlen : length (zvals cube10w) = length [1; 2; 3; 4; 5])
    by reflexivity.
  assert (H2 : (2 <= length [1; 2; 3; 4; 5])%nat) by (cbn; lia).
  destruct (emission_surface cube10w (Scalar (Fin 2)))
    as [[v self1]|e] eqn:E.
  - exists v, self1. split; [reflexivity |].
    apply (emission_surface_second_call cube10w self1 [1; 2; 3; 4; 5]
             (Scalar (Fin 2)) v Hr Hinc Hr0 Hlen H2 E).
  - exfalso. unfold emission_surface, emission_surface_body in E.
    rewrite Hr in E.
    destruct (repair_leading_spec [1; 2; 3; 4; 5] (zvals cube10w) Hinc Hr0
                Hlen ltac:(cbn; lia))
      as (L & zv1 & Hlead & Hlen1 & _).
    assert (Hne1 : zv1 <> []) by (intros ->; cbn in Hlen1; lia).
    destruct (repair_trailing_spec zv1 Hne1)
      as (T & out & Htrail & Hlen2 & _).
    unfold emission_surface_repair in E. rewrite Hlead in E.
    cbn [mbind res_bind] in E. rewrite Htrail in E.
    cbn [mbind res_bind] in E.
    rewrite scipy_new_increasing in E by (try assumption; lia).
    discriminate E.
Defined.

Lemma first_true_replicate_false (n : nat) :
  np.first_true (replicate n false) = None.
Proof. induction n as [|n IH]; [reflexivity |]. cbn. rewrite IH. reflexivity. Qed.

(** A table that holds nothing but NaN is turned into a flat surface:
    over at least two increasing radii, the first lookup sets every
    height to 0 and returns 0. *)
Theorem emission_surface_all_nan (self : rotatedcube) (rs : list R) (v : R) :
  rvals self = map Fin rs -> increasing rs -> (2 <= length rs)%nat ->
  zvals self = replicate (length rs) NaN ->
  emission_surface self (Scalar (Fin v))
  = Ok (Scalar (Fin 0), set_zvals self (np.zeros (length rs))).
Proof.
  intros Hr Hinc H2 Hz.
  unfold emission_surface, emission_surface_body. rewrite Hr, Hz.
  destruct rs as [|r0 [|r1 rs']]; [cbn in H2; lia | cbn in H2; lia |].
  set (rs := r0 :: r1 :: rs') in *. set (n := length rs) in *.
  assert (Hn : n = S (S (length rs'))) by reflexivity.
  assert (Hlead : repair_leading (map Fin rs) (replicate n NaN)
                  = Ok (replicate n NaN)).
  { unfold repair_leading.
    assert (E0 : index (replicate n NaN) 0 = Ok NaN)
      by (rewrite Hn; reflexivity).
    rewrite E0. cbn [mbind res_bind isnan].
    assert (Ea : np.argmax (map isfinite (replicate n NaN)) = Ok 0%nat).
    { apply argmax_no_true; [rewrite Hn; discriminate |].
      rewrite map_is_fmap, fmap_replicate. apply first_true_replicate_false. }
    rewrite Ea. cbn [mbind res_bind].
    assert (Er : index (map Fin rs) 0 = Ok (Fin r0)) by reflexivity.
    rewrite Er. cbn [mbind res_bind]. rewrite E0. cbn [mbind res_bind].
    unfold scipy.new.
    cbn [length Nat.eqb negb Nat.ltb Nat.leb mbind res_bind].
    unfold scipy.call. cbn [take ndflatten existsb andb ndmap map app drop].
    rewrite andb_false_r. reflexivity. }
  assert (Htrail : repair_trailing (replicate n NaN) = Ok (np.zeros n)).
  { unfold repair_trailing.
    assert (El : index_last (replicate n NaN) = Ok NaN).
    { apply index_last_lookup. rewrite last_lookup, length_replicate.
      apply lookup_replicate. split; [reflexivity | lia]. }
    rewrite El. cbn [mbind res_bind isnan].
    assert (Ea : np.argmax (map isnan (replicate n NaN)) = Ok 0%nat)
      by (rewrite Hn; reflexivity).
    rewrite Ea. cbn [mbind res_bind take app].
    rewrite length_replicate, Nat.sub_0_r. reflexivity. }
  unfold emission_surface_repair. rewrite Hlead. cbn [mbind res_bind].
  rewrite Htrail. cbn [mbind res_bind].
  rewrite scipy_new_increasing
    by (try assumption; unfold np.zeros; rewrite length_replicate; reflexivity).
  cbn [mbind res_bind]. unfold scipy.call.
  cbn [scipy.extrapolate negb andb mbind res_bind ndmap].
  rewrite (call_linear_affine rs (np.zeros n) 0 0 v true Hinc H2).
  - replace (0 * v + 0) with 0 by lra. reflexivity.
  - intros k Hk. rewrite nth_zeros by assumption. f_equal. lra.
Qed.

Lemma emission_surface_all_nan_witness :
  emission_surface cube_nan (Scalar (Fin 3))
  = Ok (Scalar (Fin 0), set_zvals cube_nan (np.zeros (length [1; 2]))).
Proof.
  apply (emission_surface_all_nan cube_nan [1; 2] 3);
    try reflexivity; cbn; (lra || lia).
Defined.

(** ** Analytical surfaces *)

(** The conical surface.  On a cube whose table sits on at least two
    increasing radii, after
    [set_emission_surface_analytical('conical', [psi, z_0])] with
    [cos(psi)] not zero, the lookup at every finite radius [r] gives
    [r * tan(psi) + z_0], inside and outside the tabulated range, and
    leaves the object alone; with [theta = [psi]] the offset is 0. *)
Theorem conical_surface_heights (self : rotatedcube) (rs : list R)
    (psi z0 : R) :
  rvals self = map Fin rs -> increasing rs -> (2 <= length rs)%nat ->
  cos (psi * (PI / 180)) <> 0 ->
  (exists self1,
     set_emission_surface_analytical self "conical" [Fin psi; Fin z0]
     = Ok self1
     /\ forall r, emission_surface self1 (Scalar (Fin r))
                  = Ok (Scalar (Fin (r * tan (psi * (PI / 180)) + z0)),
                        self1))
  /\ (exists self1,
        set_emission_surface_analytical self "conical" [Fin psi] = Ok self1
        /\ forall r, emission_surface self1 (Scalar (Fin r))
                     = Ok (Scalar (Fin (r * tan (psi * (PI / 180)))),
                           self1)).
Proof.
  intros Hr Hinc H2 Hcos.
  set (t := tan (psi * (PI / 180))).
  assert (Htan : np.tan (np.radians (Fin psi)) = Fin t).
  { unfold np.tan, np.radians. cbn [nmul np.sin np.cos].
    rewrite ndiv_fin by assumption. reflexivity. }
  assert (Hcall : forall d r,
             emission_surface
               (set_zvals self (map (fun x => Fin (x * t + d)) rs))
               (Scalar (Fin r))
             = Ok (Scalar (Fin (r * t + d)),
                   set_zvals self (map (fun x => Fin (x * t + d)) rs))).
  { intros d r.
    rewrite (emission_surface_finite_table _ rs
               (map (fun x => x * t + d) rs));
      [| exact Hr | cbn [zvals set_zvals]; rewrite map_map; reflexivity
       | assumption | assumption | apply length_map].
    cbn [ndmap]. rewrite map_map.
    rewrite (call_linear_affine rs _ t d r true Hinc H2).
    - replace (t * r + d) with (r * t + d) by lra. reflexivity.
    - intros i Hi.
      rewrite (nth_indep _ NaN (Fin (0 * t + d)))
        by (rewrite length_map; lia).
      rewrite (map_nth (fun x => Fin (x * t + d))). f_equal. lra. }
  assert (E : String.eqb (lower "conical") "powerlaw" = false)
    by (vm_compute; reflexivity).
  assert (E' : String.eqb (lower "conical") "conical" = true)
    by (vm_compute; reflexivity).
  split.
  - exists (set_zvals self (map (fun x => Fin (x * t + z0)) rs)).
    split; [| apply Hcall].
    unfold set_emission_surface_analytical. rewrite E, E'.
    cbn [length Nat.leb Nat.ltb Nat.eqb negb andb index of_option lookup
         list_lookup mbind res_bind].
    rewrite Htan, Hr, map_map. reflexivity.
  - exists (set_zvals self (map (fun x => Fin (x * t + 0)) rs)).
    split.
    + unfold set_emission_surface_analytical. rewrite E, E'.
      cbn [length Nat.leb Nat.ltb Nat.eqb negb andb index of_option lookup
           list_lookup mbind res_bind].
      rewrite Htan, Hr, map_map. reflexivity.
    + intros r. rewrite Hcall.
      replace (r * t + 0) with (r * t) by lra. reflexivity.
Qed.

Lemma conical_surface_heights_witness :
  (exists self1,
     set_emission_surface_analytical cube8 "conical" [Fin 0; Fin 1]
     = Ok self1
     /\ forall r, emission_surface self1 (Scalar (Fin r))
                  = Ok (Scalar (Fin (r * tan (0 * (PI / 180)) + 1)), self1))
  /\ (exists self1,
        set_emission_surface_analytical cube8 "conical" [Fin 0] = Ok self1
        /\ forall r, emission_surface self1 (Scalar (Fin r))
                     = Ok (Scalar (Fin (r * tan (0 * (PI / 180)))), self1)).
Proof.
  apply (conical_surface_heights cube8 [0.75; 1.25] 0 1).
  - reflexivity.
  - cbn. lra.
  - cbn. lia.
  - replace (0 * (PI / 180)) with 0 by lra. rewrite cos_0. lra.
Defined.


(** ** The raised coordinates of a face-on disk *)

Lemma outer_finite_image (f : R -> R -> R) (xs ys : list R) :
  finite_image xs ys (outer (fun x y => Fin (f x y)) xs ys).
Proof.
  exists (outer f xs ys). split; [| split].
  - unfold outer. rewrite map_map. apply map_ext. intros y.
    rewrite map_map. reflexivity.
  - unfold outer. apply length_map.
  - unfold outer. apply Forall_forall. intros row Hin.
    apply list_elem_of_In, in_map_iff in Hin. destruct Hin as (y & <- & _).
    apply length_map.
Qed.

Section face_on.

Variables (self : rotatedcube) (rs zs xs ys : list R).
Hypothesis Hrvals : rvals self = map Fin rs.
Hypothesis Hzvals : zvals self = map Fin zs.
Hypothesis Hinc : increasing rs.
Hypothesis Hlen : (2 <= length rs)%nat.
Hypothesis Hzlen : length zs = length rs.
Hypothesis Hxaxis : xaxis self = map Fin xs.
Hypothesis Hyaxis : yaxis self = map Fin ys.
Hypothesis Hi : inc self = Fin 0.

Lemma iteration_face_on (rpix : option (list (list num))) :
  match rpix with Some r => finite_image xs ys r | None => True end ->
  _disk_coordinates_3D_iteration self rpix
  = Ok ((outer (fun x y => Fin (sqrt (x * x + y * y))) xs ys,
         outer (fun x y => Fin (Ratan2 y x)) xs ys), self).
Proof using All.
  intros Hshape. unfold _disk_coordinates_3D_iteration.
  set (rp := match rpix with Some r => r | None => _ end).
  assert (Hrp : finite_image xs ys rp).
  { unfold rp. destruct rpix as [r|]; [exact Hshape |].
    rewrite Hxaxis, Hyaxis.
    replace (map (fun y => map (fun x => np.hypot x y) (map Fin xs))
                 (map Fin ys))
      with (outer (fun x y => Fin (sqrt (x * x + y * y))) xs ys).
    - apply outer_finite_image.
    - unfold outer. rewrite !map_map. apply map_ext. intros y.
      rewrite !map_map. reflexivity. }
  destruct Hrp as (rr & -> & Hrows & Hcols).
  rewrite (emission_surface_finite_table self rs zs) by assumption.
  cbn [mbind res_bind ndmap].
  rewrite Hxaxis, Hyaxis, Hi.
  set (s := if String.eqb (tilt self) "north" then Fin 1 else Fin (-1)).
  assert (H0 : 0 * (PI / 180) = 0) by lra.
  assert (Htan : np.tan (np.radians (Fin 0)) = Fin 0).
  { unfold np.tan. cbn. rewrite H0, cos_0, sin_0.
    destruct (Req_dec_T 1 0); [lra |]. f_equal. lra. }
  assert (Hcosr : np.cos (np.radians (Fin 0)) = Fin 1).
  { cbn. rewrite H0, cos_0. reflexivity. }
  rewrite Htan, Hcosr.
  assert (Hs : exists sv, s = Fin sv).
  { unfold s. destruct (String.eqb _ _); eexists; reflexivity. }
  destruct Hs as [sv Hs]. rewrite Hs.
  do 3 f_equal.
  - apply (pixel_grid _ _ _ _ _ _ xs ys rr Hrows Hcols).
    intros x y r.
    destruct (call_linear_finite rs zs r true Hinc Hlen Hzlen) as [z ->].
    cbn. destruct (Req_dec_T 1 0); [lra |]. cbn.
    apply (f_equal Fin), (f_equal sqrt). field.
  - apply (pixel_grid _ _ _ _ _ _ xs ys rr Hrows Hcols).
    intros x y r.
    destruct (call_linear_finite rs zs r true Hinc Hlen Hzlen) as [z ->].
    cbn. destruct (Req_dec_T 1 0); [lra |]. cbn.
    apply (f_equal Fin). f_equal; field.
Qed.

Lemma loop_face_on (n : nat)
    (cur : option (list (list num) * list (list num))) :
  match cur with Some rt => finite_image xs ys rt.1 | None => True end ->
  disk_coordinates_3D_loop (S n) self cur
  = Ok (Some (outer (fun x y => Fin (sqrt (x * x + y * y))) xs ys,
              outer (fun x y => Fin (Ratan2 y x)) xs ys), self).
Proof using All.
  revert cur. induction n as [|n IH]; intros cur Hcur.
  - cbn [disk_coordinates_3D_loop].
    rewrite iteration_face_on by (destruct cur; exact Hcur).
    reflexivity.
  - change (disk_coordinates_3D_loop (S (S n)) self cur)
      with ('(rt, self') ← _disk_coordinates_3D_iteration self (fst <$> cur);
            disk_coordinates_3D_loop (S n) self' (Some rt)).
    rewrite iteration_face_on by (destruct cur; exact Hcur).
    cbn [mbind res_bind]. apply IH. apply outer_finite_image.
Qed.

(** Seen face-on, the height of the surface does not show: with
    inclination 0, a finite grid and any table of finite heights over
    at least two increasing radii, [disk_coordinates_3D] returns the
    plain polar coordinates of the stored axes for either tilt and any
    [niter >= 1], and leaves the object alone. *)
Theorem disk_coordinates_3D_face_on (niter : nat) :
  (1 <= niter)%nat ->
  disk_coordinates_3D self niter
  = Ok ((outer (fun x y => Fin (sqrt (x * x + y * y))) xs ys,
         outer (fun x y => Fin (Ratan2 y x)) xs ys), self).
Proof using All.
  intros Hn. destruct niter as [|n]; [lia |].
  unfold disk_coordinates_3D. rewrite loop_face_on by exact I.
  reflexivity.
Qed.

End face_on.

Lemma disk_coordinates_3D_face_on_witness :
  disk_coordinates_3D cube_face_on 5
  = Ok ((outer (fun x y => Fin (sqrt (x * x + y * y))) [0; 1] [0],
         outer (fun x y => Fin (Ratan2 y x)) [0; 1] [0]), cube_face_on).
Proof.
  apply (disk_coordinates_3D_face_on cube_face_on [1; 2] [0.5; 3] [0; 1] [0]);
    try reflexivity; cbn; (lra || lia).
Defined.

(** ** What the constructor guarantees *)

Lemma length_linspace (start stop : num) (n : nat) :
  length (np.linspace start stop n) = n.
Proof.
  unfold np.linspace.
  assert (Ha : length (np.arange_n n) = n)
    by (unfold np.arange_n; rewrite length_map, length_seq; reflexivity).
  destruct (1 <? n)%nat.
  - rewrite length_insert, length_map.
    destruct (_ =? _)%num; rewrite length_map; exact Ha.
  - rewrite !length_map. exact Ha.
Qed.

Lemma length_average2_edges (rb : list num) :
  length (np.average2 (drop 1 rb) (take (length rb - 1) rb))
  = (length rb - 1)%nat.
Proof.
  unfold np.average2. rewrite length_zip_with, length_drop, length_take. lia.
Qed.

(** Whenever [_radial_sampling] returns, there is one centre per pair of
    neighbouring edges. *)
Lemma radial_sampling_lengths (self : imagecube)
    (rbins rvals : option (list num)) (rb rv : list num) :
  _radial_sampling self rbins rvals = Ok (rb, rv) ->
  length rv = (length rb - 1)%nat.
Proof.
  unfold _radial_sampling. intros H.
  destruct (bool_decide (rbins ≠ None) && bool_decide (rvals ≠ None));
    [discriminate |].
  destruct rvals as [c|].
  - destruct (index (np.diff c) 0); [| discriminate].
    cbn [mbind res_bind] in H.
    destruct (index c 0); [| discriminate]. cbn [mbind res_bind] in H.
    destruct (index_last c); [| discriminate]. cbn [mbind res_bind] in H.
    injection H as <- <-. apply length_average2_edges.
  - cbn [mbind res_bind] in H. destruct rbins as [e|].
    + injection H as <- <-. apply length_average2_edges.
    + destruct (np.max (xaxis self)); [| discriminate].
      cbn [mbind res_bind] in H.
      destruct (np.arange _ _ _); [| discriminate].
      cbn [mbind res_bind] in H.
      injection H as <- <-. apply length_average2_edges.
Qed.

(** What [rotatedcube.__init__] guarantees when it returns: the tilt is
    stored in lower case and is ['north'] or ['south'], the inclination
    was given and lies in [[0, 90]] (so it is not NaN), distance and mass
    were given, the flat coordinates are those for position angle 0, and
    the height table is all zeros with one height per bin centre and one
    centre per pair of neighbouring edges. *)
Theorem init_postconditions (cube : imagecube) (tilt0 : string)
    (inc0 mstar0 dist0 : option num) (cx cy : num) (self : rotatedcube) :
  __init__ cube tilt0 inc0 mstar0 dist0 cx cy = Ok self ->
  base self = cube
  /\ tilt self = lower tilt0
  /\ (tilt self = "north" \/ tilt self = "south")
  /\ inc0 = Some (inc self)
  /\ (Fin 0 <=? inc self)%num = true /\ (inc self <=? Fin 90)%num = true
  /\ mstar0 = Some (mstar self) /\ dist0 = Some (dist self)
  /\ (rdisk self, tdisk self) = disk_coordinates cube cx cy (inc self) (Fin 0)
  /\ zvals self = np.zeros (length (rvals self))
  /\ length (rvals self) = (length (rbins self) - 1)%nat.
Proof.
  unfold __init__. intros H.
  destruct (bool_decide (lower tilt0 ∈ ["north"; "south"])) eqn:Et;
    [| discriminate].
  apply bool_decide_eq_true in Et. cbn [negb] in H.
  destruct inc0 as [i|]; [| discriminate]. cbn [of_option mbind res_bind] in H.
  destruct ((Fin 0 <=? i)%num && (i <=? Fin 90)%num) eqn:Ei; [| discriminate].
  apply andb_prop in Ei as [Ei1 Ei2]. cbn [negb] in H.
  destruct dist0 as [d|]; [| discriminate]. cbn [of_option mbind res_bind] in H.
  destruct (disk_coordinates cube cx cy i (Fin 0)) as [rd td] eqn:Ed.
  destruct mstar0 as [m|]; [| discriminate]. cbn [of_option mbind res_bind] in H.
  destruct (_radial_sampling cube None None) as [[rb rv]|] eqn:Es;
    [| discriminate].
  cbn [mbind res_bind] in H. injection H as <-.
  cbn [base tilt inc mstar dist rdisk tdisk zvals rvals rbins].
  repeat split; try reflexivity; try assumption;
    try (symmetry; exact Ed);
    try (apply (radial_sampling_lengths cube None None rb rv Es)).
  apply elem_of_cons in Et as [Et|Et]; [left; exact Et |].
  apply elem_of_cons in Et as [Et|Et]; [right; exact Et | inversion Et].
Qed.

Lemma init_postconditions_witness :
  base cube7 = cube5
  /\ tilt cube7 = lower "north"
  /\ (tilt cube7 = "north" \/ tilt cube7 = "south")
  /\ Some (Fin 30) = Some (inc cube7)
  /\ (Fin 0 <=? inc cube7)%num = true /\ (inc cube7 <=? Fin 90)%num = true
  /\ Some (Fin 1) = Some (mstar cube7) /\ Some (Fin 100) = Some (dist cube7)
  /\ (rdisk cube7, tdisk cube7)
     = disk_coordinates cube5 (Fin 0) (Fin 0) (inc cube7) (Fin 0)
  /\ zvals cube7 = np.zeros (length (rvals cube7))
  /\ length (rvals cube7) = (length (rbins cube7) - 1)%nat.
Proof.
  apply (init_postconditions cube5 "north" (Some (Fin 30)) (Some (Fin 1))
           (Some (Fin 100)) (Fin 0) (Fin 0) cube7).
  exact cube7_init.
Defined.

(** ** The sweep of rotatedcube.py *)

Lemma foldM_ext {A S : Type} (f g : S -> A -> res S) (s : S) (l : list A) :
  (forall s a, f s a = g s a) -> foldM f s l = foldM g s l.
Proof.
  intros H. revert s. induction l as [|a l IH]; intros s; [reflexivity |].
  cbn. rewrite H. destruct (g s a); [apply IH | reflexivity].
Qed.

Section main_sweep_invariants.

Variables sc_G sc_au : num.
Variable _get_vrot_from_GP :
  rotatedcube -> list (list num) -> list num -> bool -> nat -> nat -> nat
  -> bool -> bool -> num -> res ndarray.

(** The linewidth solver is out of reach: the loop tests
    [method.lower() == 'dV'], which no lower-cased string satisfies, so
    [get_rotation_profile] gives the same outcome whatever
    [_get_vrot_from_width] would do, for every method and every
    input. *)
Theorem sweep_never_reaches_width_solver
    (width1 width2 :
       rotatedcube -> list (list num) -> list num -> bool -> res ndarray)
    (self : rotatedcube) (include_height : bool)
    (rbins rpnts : option (list num)) (resample : bool)
    (PA_min PA_max : option num) (exclude_PA : bool) (method : string)
    (nwalkers nburnin nsteps : nat) (plot_walkers plot_corner : bool) :
  get_rotation_profile sc_G sc_au width1 _get_vrot_from_GP self
    include_height rbins rpnts resample PA_min PA_max exclude_PA method
    nwalkers nburnin nsteps plot_walkers plot_corner
  = get_rotation_profile sc_G sc_au width2 _get_vrot_from_GP self
      include_height rbins rpnts resample PA_min PA_max exclude_PA method
      nwalkers nburnin nsteps plot_walkers plot_corner.
Proof using Type.
  unfold get_rotation_profile.
  destruct (negb (bool_decide (lower method ∈ ["dv"; "gp"])));
    [reflexivity |].
  match goal with
  | |- (?m ≫= _) = _ => destruct m as [[rt self']|e]; [| reflexivity]
  end.
  cbn [mbind res_bind].
  destruct (_radial_sampling self' rbins rpnts) as [[rb rp]|e];
    [| reflexivity].
  cbn [mbind res_bind].
  match goal with
  | |- (if ?b then _ else _) = _ => destruct b; [reflexivity |]
  end.
  match goal with
  | |- (foldM ?f ?s ?l ≫= _) = (foldM ?g _ _ ≫= _) =>
      rewrite (foldM_ext f g s l); [reflexivity |]
  end.
  intros st r. unfold get_rotation_profile_step.
  rewrite lower_never_dV. reflexivity.
Qed.

Variable _get_vrot_from_width :
  rotatedcube -> list (list num) -> list num -> bool -> res ndarray.

Lemma sweep_step_appends (self : rotatedcube) (rbins : list num)
    (dvals_T : list (list num)) (tvals : list num) (resample : bool)
    (PA_min PA_max : option num) (exclude_PA : bool) (method : string)
    (nwalkers nburnin nsteps : nat) (plot_walkers plot_corner : bool)
    (st st' : list ndarray * list solver_call) (r : nat) :
  get_rotation_profile_step sc_G sc_au _get_vrot_from_width
    _get_vrot_from_GP self rbins dvals_T tvals resample PA_min PA_max
    exclude_PA method nwalkers nburnin nsteps plot_walkers plot_corner
    st r = Ok st' ->
  length st'.1 = S (length st.1) /\ length st'.2 = S (length st.2).
Proof using Type.
  unfold get_rotation_profile_step. rewrite lower_never_dV. intros H.
  repeat match type of H with
  | (?m ≫= _) = Ok _ =>
      destruct m; [cbn [mbind res_bind] in H | discriminate H]
  end.
  injection H as <-. cbn [fst snd]. rewrite !length_app. cbn. lia.
Qed.

Lemma sweep_fold_appends (f : list ndarray * list solver_call -> nat
                              -> res (list ndarray * list solver_call))
    (bins : list nat) (st st' : list ndarray * list solver_call) :
  (forall s r s', f s r = Ok s' ->
     length s'.1 = S (length s.1) /\ length s'.2 = S (length s.2)) ->
  foldM f st bins = Ok st' ->
  length st'.1 = (length st.1 + length bins)%nat
  /\ length st'.2 = (length st.2 + length bins)%nat.
Proof using Type.
  intros Hf. revert st. induction bins as [|r bins IH]; intros st H.
  - cbn in H. injection H as <-. cbn. lia.
  - cbn [foldM] in H. destruct (f st r) as [s|] eqn:E; [| discriminate].
    cbn [mbind res_bind] in H. apply Hf in E as [E1 E2].
    apply IH in H as [H1 H2]. cbn [length]. lia.
Qed.

(** Whenever [get_rotation_profile] returns, it returns one result and
    has made one solver call for each bin centre it returns. *)
Theorem sweep_one_result_per_bin (self self' : rotatedcube)
    (include_height : bool) (rbins rpnts : option (list num))
    (resample : bool) (PA_min PA_max : option num) (exclude_PA : bool)
    (method : string) (nwalkers nburnin nsteps : nat)
    (plot_walkers plot_corner : bool) (centres : list num)
    (v_rot : list ndarray) (calls : list solver_call) :
  get_rotation_profile sc_G sc_au _get_vrot_from_width _get_vrot_from_GP
    self include_height rbins rpnts resample PA_min PA_max exclude_PA
    method nwalkers nburnin nsteps plot_walkers plot_corner
  = Ok ((centres, v_rot), calls, self') ->
  length v_rot = length centres /\ length calls = length centres.
Proof using Type.
  unfold get_rotation_profile. intros H.
  destruct (negb (bool_decide (lower method ∈ ["dv"; "gp"])));
    [discriminate |].
  match type of H with
  | (?m ≫= _) = _ => destruct m as [[rt self1]|e]; [| discriminate]
  end.
  cbn [mbind res_bind] in H.
  destruct (_radial_sampling self1 rbins rpnts) as [[rb rp]|e] eqn:Es;
    [| discriminate].
  cbn [mbind res_bind] in H.
  match type of H with
  | (if ?b then _ else _) = _ => destruct b; [discriminate |]
  end.
  match type of H with
  | (?m ≫= _) = _ => destruct m as [[vr cs]|e] eqn:Ef; [| discriminate]
  end.
  cbn [mbind res_bind] in H. injection H as <- <- <- <-.
  apply sweep_fold_appends in Ef.
  2:{ intros s r s'. apply sweep_step_appends. }
  cbn [fst snd length] in Ef. rewrite length_seq in Ef.
  apply radial_sampling_lengths in Es. lia.
Qed.

End main_sweep_invariants.

Lemma sweep_cube7_example :
  let vkep := _projected_vkep (Fin 1) (Fin 1) cube7
                (np.mean [Fin 10; Fin 20]) in
  get_rotation_profile (Fin 1) (Fin 1) solver_width0 solver_gp0
    cube7 true (Some [Fin 10; Fin 20]) None true None None false "dV"
    32 100 100 false false
  = Ok (([Fin ((20 + 10) / 2)], [Scalar (Fin 0)]),
        [call_GP 1 [] [] vkep], cube7).
Proof.
  intros vkep. unfold get_rotation_profile.
  rewrite bool_decide_eq_true_2 by (vm_compute; left).
  cbn [negb].
  replace (String.eqb (lower "dV") "gp") with false by (vm_compute; reflexivity).
  cbn [andb].
  rewrite (disk_coordinates_3D_zero_surface cube7 [0.75; 1.25]
             [-2; -1; 0; 1; 2] [0] 30);
    try reflexivity; try (cbn; lra); try (cbn; lia).
  2:{ pose proof (cos_radians_pos 30 ltac:(lra)). lra. }
  cbn [mbind res_bind snd].
  assert (Hs : _radial_sampling cube7 (Some [Fin 10; Fin 20]) None
               = Ok ([Fin 10; Fin 20], [Fin ((20 + 10) / 2)])).
  { unfold _radial_sampling. Rdecide. reflexivity. }
  rewrite Hs. cbn [mbind res_bind].
  cbn [data velax xaxis yaxis base cube7 cube5 map concat app length
       Nat.eqb andb forallb Nat.mul Nat.add negb seq nth Nat.sub foldM].
  unfold get_rotation_profile_step.
  cbn [index of_option lookup list_lookup Nat.sub mbind res_bind].
  rewrite cube7_mask. cbn [mbind res_bind concat app].
  unfold boolean_index, thin_azimuth, outer.
  cbn [map concat app length Nat.eqb zip zip_with List.filter snd fmap
       list_fmap mbind res_bind].
  rewrite lower_never_dV. fold vkep. reflexivity.
Qed.

Lemma sweep_one_result_per_bin_witness :
  length [Scalar (Fin 0)] = length [Fin ((20 + 10) / 2)]
  /\ length [call_GP 1 [] []
               (_projected_vkep (Fin 1) (Fin 1) cube7
                  (np.mean [Fin 10; Fin 20]))]
     = length [Fin ((20 + 10) / 2)].
Proof.
  apply (sweep_one_result_per_bin (Fin 1) (Fin 1) solver_gp0 solver_width0
           cube7 cube7 true (Some [Fin 10; Fin 20]) None true None None
           false "dV" 32 100 100 false false).
  exact sweep_cube7_example.
Defined.

(** ** Keplerian velocities *)

Lemma sqrt_quarter (a : R) : 0 <= a -> sqrt (a / 4) = sqrt a / 2.
Proof.
  intros Ha. rewrite sqrt_div_alt by lra.
  replace 4 with (2 * 2) by lra. rewrite sqrt_square by lra. reflexivity.
Qed.

(** [_projected_vkep] follows Kepler's law: for positive constants, mass
    and distance it is finite at every positive radius, four times the
    radius halves it, and it vanishes for a face-on disk. *)
Theorem projected_vkep_kepler_law (sc_G sc_au : num) (self : rotatedcube)
    (G au M D i r : R) :
  sc_G = Fin G -> sc_au = Fin au ->
  mstar self = Fin M -> dist self = Fin D -> inc self = Fin i ->
  0 < G -> 0 < au -> 0 < M -> 0 < D -> 0 < r ->
  exists v,
    _projected_vkep sc_G sc_au self (Fin r) = Fin v
    /\ _projected_vkep sc_G sc_au self (Fin (4 * r)) = Fin (v / 2)
    /\ (i = 0 -> v = 0).
Proof.
  intros -> -> HM HD Hi HG Hau HM0 HD0 Hr.
  unfold _projected_vkep. rewrite HM, HD, Hi. unfold msun, np.radians.
  cbn [nmul np.sin].
  set (K := G * M * 1.988e30).
  assert (HK : 0 < K) by (unfold K; nra).
  rewrite !ndiv_fin by lra.
  assert (Hq : forall x, 0 < x -> 0 <= K / x / D / au).
  { intros x Hx. apply Rlt_le. repeat apply Rdiv_lt_0_compat; lra. }
  cbn [np.sqrt].
  destruct (Rlt_dec (K / r / D / au) 0) as [N|_];
    [pose proof (Hq r Hr); lra |].
  destruct (Rlt_dec (K / (4 * r) / D / au) 0) as [N|_];
    [pose proof (Hq (4 * r) ltac:(lra)); lra |].
  cbn [nmul]. eexists. split; [reflexivity |]. split.
  - f_equal. replace (K / (4 * r) / D / au) with (K / r / D / au / 4)
      by (field; lra).
    rewrite sqrt_quarter by (apply Hq; assumption). lra.
  - intros ->. replace (0 * (PI / 180)) with 0 by lra. rewrite sin_0. lra.
Qed.

Lemma projected_vkep_kepler_law_witness :
  exists v,
    _projected_vkep (Fin 1) (Fin 1) cube7 (Fin 2) = Fin v
    /\ _projected_vkep (Fin 1) (Fin 1) cube7 (Fin (4 * 2)) = Fin (v / 2)
    /\ (30 = 0 -> v = 0).
Proof.
  apply (projected_vkep_kepler_law (Fin 1) (Fin 1) cube7 1 1 1 100 30 2);
    try reflexivity; lra.
Defined.

(** ** misc/rotatedcube.py *)

Lemma sin_radians_between (i : R) :
  0 < i < 90 -> 0 < sin (i * (PI / 180)) < 1.
Proof.
  intros Hi. pose proof PI_RGT_0 as Hpi.
  assert (Hx : 0 < i * (PI / 180) < PI / 2) by (split; nra).
  split; [apply sin_gt_0; lra |].
  pose proof (cos_gt_0 (i * (PI / 180)) ltac:(lra) ltac:(lra)) as Hc.
  pose proof (sin2_cos2 (i * (PI / 180))) as H. unfold Rsqr in H.
  pose proof (SIN_bound (i * (PI / 180))) as [_ Hs].
  destruct (Rle_lt_or_eq_dec _ _ Hs) as [Hlt|Heq]; [exact Hlt |].
  rewrite Heq in H. nra.
Qed.

(** The two model curves of [fit_rotation_curve] project differently:
    [_keplerian_mstar] multiplies the Keplerian speed by [sin(inc)],
    [_keplerian_inc] takes the square root of the squared speed times
    [sin(inc)].  At the stored mass and inclination, for positive
    constants, mass, distance and radius and [0 < inc < 90], the second
    is strictly larger. *)
Theorem keplerian_inc_exceeds_keplerian_mstar (sc_G sc_au : num)
    (self : misc.rotatedcube) (G au M D i r : R) :
  sc_G = Fin G -> sc_au = Fin au ->
  misc.mstar self = Fin M -> misc.dist self = Fin D ->
  misc.inc self = Fin i ->
  0 < G -> 0 < au -> 0 < M -> 0 < D -> 0 < r -> 0 < i < 90 ->
  exists a b,
    misc_surface._keplerian_mstar sc_G sc_au self (Fin r) (misc.mstar self)
    = Fin a
    /\ misc_surface._keplerian_inc sc_G sc_au self (Fin r) (misc.inc self)
       = Fin b
    /\ a * a = b * b * sin (i * (PI / 180))
    /\ 0 < a < b.
Proof.
  intros -> -> HM HD Hi HG Hau HM0 HD0 Hr Hi0.
  unfold misc_surface._keplerian_mstar, misc_surface._keplerian_inc.
  rewrite HM, HD, Hi. unfold msun, np.radians. cbn [nmul np.sin].
  set (K := G * M * 1.988e30 / r / au / D).
  assert (HK : 0 < K).
  { unfold K. repeat apply Rdiv_lt_0_compat; nra. }
  rewrite !ndiv_fin by lra. fold K.
  set (s := sin (i * (PI / 180))).
  pose proof (sin_radians_between i Hi0) as Hs. fold s in Hs.
  cbn [nmul np.sqrt].
  destruct (Rlt_dec K 0) as [N|_]; [lra |].
  destruct (Rlt_dec (K * s) 0) as [N|_]; [nra |].
  cbn [nmul]. eexists _, _. split; [reflexivity |]. split; [reflexivity |].
  assert (Hq : 0 < sqrt K) by (apply sqrt_lt_R0; assumption).
  assert (Hq2 : sqrt K * sqrt K = K) by (apply sqrt_sqrt; lra).
  assert (Hp : 0 < sqrt (K * s)) by (apply sqrt_lt_R0; nra).
  assert (Hp2 : sqrt (K * s) * sqrt (K * s) = K * s) by (apply sqrt_sqrt; nra).
  split; [nra |]. split; [nra |].
  destruct (Rlt_le_dec (sqrt K * s) (sqrt (K * s))) as [H|H]; [exact H |].
  exfalso.
  assert (Hsq : sqrt (K * s) * sqrt (K * s) <= sqrt K * s * (sqrt K * s))
    by (apply Rmult_le_compat; lra).
  rewrite Hp2 in Hsq.
  assert (Hsq' : sqrt K * s * (sqrt K * s) = K * (s * s)).
  { transitivity (sqrt K * sqrt K * (s * s)); [ring |].
    rewrite Hq2. reflexivity. }
  rewrite Hsq' in Hsq.
  assert (Hlt : K * (s * s) < K * s) by (apply Rmult_lt_compat_l; nra).
  lra.
Qed.

Lemma keplerian_inc_exceeds_keplerian_mstar_witness :
  exists a b,
    misc_surface._keplerian_mstar (Fin 1) (Fin 1) misc_cube (Fin 2)
      (misc.mstar misc_cube) = Fin a
    /\ misc_surface._keplerian_inc (Fin 1) (Fin 1) misc_cube (Fin 2)
         (misc.inc misc_cube) = Fin b
    /\ a * a = b * b * sin (30 * (PI / 180))
    /\ 0 < a < b.
Proof.
  apply (keplerian_inc_exceeds_keplerian_mstar (Fin 1) (Fin 1) misc_cube
           1 1 1 100 30 2); try reflexivity; lra.
Defined.

(** [set_emission_surface_analytical] of misc/rotatedcube.py writes the
    near side before it looks at the surface.  Without a valid [nearest]
    it raises a [ValueError] and the object is untouched.  With
    ['north'] or ['south'] the attributes [nearest] and [tilt] (1 or -1)
    are overwritten in every case, also when the call then raises
    because of [z_type] or [params]; in that case the heights are left
    as they were. *)
Theorem misc_set_surface_writes_side_first (self : misc.rotatedcube)
    (z_type : string) (params : list num) (nearest : option string) :
  let '(self', outcome) :=
    misc_surface.set_emission_surface_analytical self z_type params nearest in
  match nearest with
  | Some side =>
      if bool_decide (side ∈ ["north"; "south"]) then
        misc.nearest self' = side
        /\ misc.tilt self' = (if String.eqb side "north" then Fin 1
                              else Fin (-1))
        /\ misc.rvals self' = misc.rvals self
        /\ (forall e, outcome = Raise e ->
              misc.zvals self' = misc.zvals self
              /\ exists msg, e = ValueError msg)
      else self' = self /\ exists msg, outcome = Raise (ValueError msg)
  | None => self' = self /\ exists msg, outcome = Raise (ValueError msg)
  end.
Proof.
  unfold misc_surface.set_emission_surface_analytical.
  destruct nearest as [side|]; [| split; [reflexivity | eexists; reflexivity]].
  destruct (bool_decide (side ∈ ["north"; "south"]));
    [| split; [reflexivity | eexists; reflexivity]].
  cbn [negb].
  destruct (String.eqb (lower z_type) "flared").
  - destruct (negb (length params =? 2)%nat).
    + repeat split; try reflexivity.
      injection H as <-. eexists. reflexivity.
    + repeat split; try reflexivity; discriminate H.
  - destruct (String.eqb (lower z_type) "conical").
    + destruct (negb _).
      * repeat split; try reflexivity.
        injection H as <-. eexists. reflexivity.
      * repeat split; try reflexivity; discriminate H.
    + repeat split; try reflexivity.
      injection H as <-. eexists. reflexivity.
Qed.

Section misc_sweep_invariants.

Variables sc_G sc_au : num.
Variable eddy_found : bool.
Variable annulus : Type.
Variable kwargs : Type.
Variable set_return_all_no_plots : kwargs -> kwargs.
Variable get_annulus :
  misc.rotatedcube -> num -> num -> option num -> option num -> bool -> bool
  -> res ((list (list num) * list num) * misc.rotatedcube).
Variable ensemble :
  list (list num) -> list num -> list num -> res annulus.
Variable get_vrot_dV : annulus -> num -> res ndarray.

Local Abbreviation sweep_step gp :=
  (misc.get_rotation_profile_step sc_G sc_au annulus kwargs
     set_return_all_no_plots get_annulus ensemble get_vrot_dV gp).

Local Abbreviation sweep gp :=
  (misc.get_rotation_profile sc_G sc_au eddy_found annulus kwargs
     set_return_all_no_plots get_annulus ensemble get_vrot_dV gp).

Lemma misc_step_gp_blind (gp1 gp2 : annulus -> num -> kwargs -> res ndarray)
    (rbins rpnts : list num) (PA_min PA_max : option num)
    (exclude_PA : bool) (method : string) (beam_spacing : bool)
    (s1 s2 : misc.sweep_state kwargs) (r : nat) :
  String.eqb (lower method) "dv" = false ->
  same_but_results s1 s2 ->
  match sweep_step gp1 rbins rpnts PA_min PA_max exclude_PA method
          beam_spacing s1 r,
        sweep_step gp2 rbins rpnts PA_min PA_max exclude_PA method
          beam_spacing s2 r with
  | Ok t1, Ok t2 => same_but_results t1 t2
  | Raise e1, Raise e2 => e1 = e2
  | _, _ => False
  end.
Proof using Type.
  intros Hm (Hs & Hk & Hc & Hv). unfold misc.get_rotation_profile_step.
  rewrite Hm, Hs, Hk, Hc.
  destruct (index rbins (r - 1)) as [r_lo|]; [| reflexivity].
  destruct (index rbins r) as [r_hi|]; [| reflexivity].
  cbn [mbind res_bind].
  destruct (get_annulus _ _ _ _ _ _ _) as [[[spectra theta] self1]|];
    [| reflexivity].
  cbn [mbind res_bind].
  destruct (length theta <? 2)%nat.
  { unfold same_but_results.
    cbn [misc.self_ misc.kwargs_ misc.calls misc.v_rot].
    repeat split. rewrite !length_app, Hv. reflexivity. }
  destruct (np.nansum (concat spectra) =? Fin 0)%num.
  { unfold same_but_results.
    cbn [misc.self_ misc.kwargs_ misc.calls misc.v_rot].
    repeat split. rewrite !length_app, Hv. reflexivity. }
  destruct (ensemble _ _ _) as [a|]; [| reflexivity]. cbn [mbind res_bind].
  destruct (index rpnts (r - 1)) as [rp|]; [| reflexivity].
  cbn [mbind res_bind].
  destruct (misc.projected_vkep _ _ _ _ _) as [[v_kep self2]|];
    [| reflexivity].
  cbn [mbind res_bind]. unfold same_but_results.
  cbn [misc.self_ misc.kwargs_ misc.calls misc.v_rot].
  repeat split. rewrite !length_app, Hv. reflexivity.
Qed.

(** The loop of the sweep of misc/rotatedcube.py does not depend on
    what the GP solver does.  With a method other than ['dV'], an
    exception of the solver is caught and recorded as zeros: started
    from two states that agree on the object, the keyword arguments and
    the solver calls made, and hold as many results, the loop over any
    bins with two GP solvers raises the same exception in both runs, or
    ends in two states that agree in the same way. *)
Theorem misc_sweep_loop_is_blind_to_gp_solver
    (gp1 gp2 : annulus -> num -> kwargs -> res ndarray)
    (rbins rpnts : list num) (PA_min PA_max : option num)
    (exclude_PA : bool) (method : string) (beam_spacing : bool)
    (bins : list nat) (s1 s2 : misc.sweep_state kwargs) :
  String.eqb (lower method) "dv" = false ->
  same_but_results s1 s2 ->
  match foldM (sweep_step gp1 rbins rpnts PA_min PA_max exclude_PA method
                 beam_spacing) s1 bins,
        foldM (sweep_step gp2 rbins rpnts PA_min PA_max exclude_PA method
                 beam_spacing) s2 bins with
  | Ok t1, Ok t2 => same_but_results t1 t2
  | Raise e1, Raise e2 => e1 = e2
  | _, _ => False
  end.
Proof using Type.
  intros Hm. revert s1 s2. induction bins as [|r bins IH]; intros s1 s2 Hs.
  - exact Hs.
  - cbn [foldM].
    pose proof (misc_step_gp_blind gp1 gp2 rbins rpnts PA_min PA_max
                  exclude_PA method beam_spacing s1 s2 r Hm Hs) as Hstep.
    destruct (sweep_step gp1 _ _ _ _ _ _ _ s1 r) as [t1|e1],
             (sweep_step gp2 _ _ _ _ _ _ _ s2 r) as [t2|e2];
      try contradiction.
    + cbn [mbind res_bind]. apply IH. exact Hstep.
    + exact Hstep.
Qed.

Variable get_vrot_GP : annulus -> num -> kwargs -> res ndarray.

Lemma misc_step_appends (rbins rpnts : list num)
    (PA_min PA_max : option num) (exclude_PA : bool) (method : string)
    (beam_spacing : bool) (st st' : misc.sweep_state kwargs) (r : nat) :
  sweep_step get_vrot_GP rbins rpnts PA_min PA_max exclude_PA method
    beam_spacing st r = Ok st' ->
  length (misc.v_rot _ st') = S (length (misc.v_rot _ st))
  /\ (length (misc.calls _ st') <= S (length (misc.calls _ st)))%nat
  /\ (length (misc.calls _ st) <= length (misc.calls _ st'))%nat.
Proof using Type.
  unfold misc.get_rotation_profile_step. intros H.
  destruct (index rbins (r - 1)) as [r_lo|]; [| discriminate].
  destruct (index rbins r) as [r_hi|]; [| discriminate].
  cbn [mbind res_bind] in H.
  destruct (get_annulus _ _ _ _ _ _ _) as [[[spectra theta] self1]|];
    [| discriminate].
  cbn [mbind res_bind] in H.
  destruct (length theta <? 2)%nat.
  { injection H as <-. cbn [misc.v_rot misc.calls].
    rewrite length_app. cbn. lia. }
  destruct (np.nansum (concat spectra) =? Fin 0)%num.
  { injection H as <-. cbn [misc.v_rot misc.calls].
    rewrite length_app. cbn. lia. }
  destruct (ensemble _ _ _) as [a|]; [| discriminate].
  cbn [mbind res_bind] in H.
  destruct (index rpnts (r - 1)) as [rp|]; [| discriminate].
  cbn [mbind res_bind] in H.
  destruct (misc.projected_vkep _ _ _ _ _) as [[v_kep self2]|];
    [| discriminate].
  cbn [mbind res_bind] in H.
  destruct (String.eqb (lower method) "dv").
  - destruct (get_vrot_dV a v_kep); [| discriminate].
    cbn [mbind res_bind] in H. injection H as <-.
    cbn [misc.v_rot misc.calls]. rewrite !length_app. cbn. lia.
  - injection H as <-.
    cbn [misc.v_rot misc.calls]. rewrite !length_app. cbn. lia.
Qed.

Lemma misc_fold_appends (rbins rpnts : list num)
    (PA_min PA_max : option num) (exclude_PA : bool) (method : string)
    (beam_spacing : bool) (bins : list nat)
    (st st' : misc.sweep_state kwargs) :
  foldM (sweep_step get_vrot_GP rbins rpnts PA_min PA_max exclude_PA
           method beam_spacing) st bins = Ok st' ->
  length (misc.v_rot _ st')
  = (length (misc.v_rot _ st) + length bins)%nat
  /\ (length (misc.calls _ st')
      <= length (misc.calls _ st) + length bins)%nat.
Proof using Type.
  revert st. induction bins as [|r bins IH]; intros st H.
  - cbn in H. injection H as <-. cbn. lia.
  - cbn [foldM] in H.
    destruct (sweep_step get_vrot_GP _ _ _ _ _ _ _ st r) as [s|] eqn:E;
      [| discriminate].
    cbn [mbind res_bind] in H. apply misc_step_appends in E.
    apply IH in H. cbn [length]. lia.
Qed.

(** Whenever the sweep of misc/rotatedcube.py returns, it returns one
    result for each bin centre, and has called a solver at most once
    per bin. *)
Theorem misc_sweep_one_result_per_bin (self self' : misc.rotatedcube)
    (rbins rpnts : option (list num)) (resample : bool)
    (PA_min PA_max : option num) (exclude_PA : bool) (method : string)
    (beam_spacing : bool) (kw : kwargs) (centres : list num)
    (v_rot : list ndarray) (calls : list misc.solver_call) :
  sweep get_vrot_GP self rbins rpnts resample PA_min PA_max exclude_PA
    method beam_spacing kw
  = Ok ((centres, v_rot), calls, self') ->
  length v_rot = length centres
  /\ (length calls <= length centres)%nat.
Proof using Type.
  unfold misc.get_rotation_profile. intros H.
  destruct (negb eddy_found); [discriminate |].
  destruct (negb (bool_decide (lower method ∈ ["dv"; "gp"])));
    [discriminate |].
  destruct (_radial_sampling (misc.base self) rbins rpnts)
    as [[rb rp]|] eqn:Es; [| discriminate].
  cbn [mbind res_bind] in H.
  match type of H with
  | (?m ≫= _) = _ => destruct m as [st|] eqn:Ef; [| discriminate]
  end.
  cbn [mbind res_bind] in H. injection H as <- <- <- <-.
  apply misc_fold_appends in Ef.
  cbn [misc.v_rot misc.calls length] in Ef. rewrite length_seq in Ef.
  apply radial_sampling_lengths in Es. lia.
Qed.

End misc_sweep_invariants.

Lemma misc_sweep_example (gp : unit -> num -> unit -> res ndarray) :
  misc.get_rotation_profile (Fin 1) (Fin 1) true unit unit (fun kw => kw)
    get_annulus0 (fun _ _ _ => Ok tt) (fun _ _ => Ok (Scalar (Fin 0))) gp
    misc_cube (Some [Fin 10; Fin 20]) None true None None false "GP" true tt
  = Ok (([Fin ((20 + 10) / 2)], [Img (replicate 3 (replicate 4 NaN))]),
        [], misc_cube).
Proof.
  unfold misc.get_rotation_profile.
  rewrite bool_decide_eq_true_2 by (vm_compute; right; left).
  cbn [negb].
  assert (Hs : _radial_sampling (misc.base misc_cube)
                 (Some [Fin 10; Fin 20]) None
               = Ok ([Fin 10; Fin 20], [Fin ((20 + 10) / 2)])).
  { unfold _radial_sampling. Rdecide. reflexivity. }
  rewrite Hs. reflexivity.
Qed.

Lemma misc_sweep_loop_is_blind_to_gp_solver_witness :
  match foldM (misc.get_rotation_profile_step (Fin 1) (Fin 1) unit unit
                 (fun kw => kw) get_annulus2 (fun _ _ _ => Ok tt)
                 (fun _ _ => Ok (Scalar (Fin 0)))
                 (fun _ _ _ => Ok (Scalar (Fin 0)))
                 [Fin 10; Fin 20] [Fin 15] None None false "GP" true)
              (misc.mk_sweep_state unit misc_cube tt [] []) [1%nat],
        foldM (misc.get_rotation_profile_step (Fin 1) (Fin 1) unit unit
                 (fun kw => kw) get_annulus2 (fun _ _ _ => Ok tt)
                 (fun _ _ => Ok (Scalar (Fin 0)))
                 (fun _ _ _ => Raise TypeError)
                 [Fin 10; Fin 20] [Fin 15] None None false "GP" true)
              (misc.mk_sweep_state unit misc_cube tt [] []) [1%nat] with
  | Ok t1, Ok t2 => same_but_results t1 t2
  | Raise e1, Raise e2 => e1 = e2
  | _, _ => False
  end.
Proof.
  apply (misc_sweep_loop_is_blind_to_gp_solver (Fin 1) (Fin 1) unit unit
           (fun kw => kw) get_annulus2 (fun _ _ _ => Ok tt)
           (fun _ _ => Ok (Scalar (Fin 0)))
           (fun _ _ _ => Ok (Scalar (Fin 0)))
           (fun _ _ _ => Raise TypeError)
           [Fin 10; Fin 20] [Fin 15] None None false "GP" true [1%nat]).
  - vm_compute. reflexivity.
  - repeat split.
Defined.

Lemma misc_sweep_one_result_per_bin_witness :
  length [Img (replicate 3 (replicate 4 NaN))]
  = length [Fin ((20 + 10) / 2)]
  /\ (length (@nil misc.solver_call) <= length [Fin ((20 + 10) / 2)])%nat.
Proof.
  apply (misc_sweep_one_result_per_bin (Fin 1) (Fin 1) true unit unit
           (fun kw => kw) get_annulus0 (fun _ _ _ => Ok tt)
           (fun _ _ => Ok (Scalar (Fin 0)))
           (fun _ _ _ => Ok (Scalar (Fin 0)))
           misc_cube misc_cube (Some [Fin 10; Fin 20]) None true None None
           false "GP" true tt).
  apply misc_sweep_example.
Defined.

Lemma misc_sweep_not_available_witness :
  misc.get_rotation_profile (Fin 1) (Fin 1) true unit unit (fun kw => kw)
    get_annulus0 (fun _ _ _ => Ok tt) (fun _ _ => Ok (Scalar (Fin 0)))
    (fun _ _ _ => Ok (Scalar (Fin 0)))
    misc_cube (Some [Fin 10; Fin 20]) None true None None false "GP" true tt
  = Ok (([Fin ((20 + 10) / 2)],
         replicate (length [Fin 10; Fin 20] - 1)
           (if String.eqb (lower "GP") "dv"
            then Scalar NaN
            else Img (replicate 3 (replicate 4 NaN)))),
        [], misc_cube).
Proof.
  apply (misc_sweep_not_available (Fin 1) (Fin 1) true unit unit
           (fun kw => kw) get_annulus0 (fun _ _ _ => Ok tt)
           (fun _ _ => Ok (Scalar (Fin 0)))
           (fun _ _ _ => Ok (Scalar (Fin 0)))
           misc_cube (Some [Fin 10; Fin 20]) None [Fin 10; Fin 20]
           [Fin ((20 + 10) / 2)] true None None false "GP" true tt).
  - reflexivity.
  - right. vm_compute. reflexivity.
  - unfold _radial_sampling. Rdecide. reflexivity.
  - intros s r_lo r_hi. exists [], []. split; [reflexivity |].
    left. cbn. lia.
Defined.

(** ** The two projected Keplerian speeds *)

Lemma np_power_3 (x : R) :
  0 < x -> np.power (Fin x) (Fin 3) = Fin (x * x * x).
Proof.
  intros Hx. unfold np.power.
  rewrite neqb_fin_ne by lra.
  unfold neqb. destruct (Req_dec_T x 1) as [->|Hx1]; [f_equal; lra |].
  destruct (Rlt_dec 0 x) as [_|H]; [| contradiction].
  f_equal. replace 3 with (INR 3) by (cbn; lra).
  rewrite Rpower_pow by assumption.
  cbn. lra.
Qed.

(** Over a flat table the speed of misc/rotatedcube.py reduces to the one
    of rotatedcube.py: for positive constants, mass, distance and radius,
    a table of zeros over at least two increasing radii and [theta = 0],
    [projected_vkep] returns what [_projected_vkep] returns for an object
    with the same mass, distance and inclination, and leaves its object
    alone. *)
Theorem misc_projected_vkep_on_flat_surface (sc_G sc_au : num)
    (m : misc.rotatedcube) (s : rotatedcube) (rs : list R)
    (G au M D i r : R) :
  sc_G = Fin G -> sc_au = Fin au ->
  misc.mstar m = Fin M -> misc.dist m = Fin D -> misc.inc m = Fin i ->
  mstar s = Fin M -> dist s = Fin D -> inc s = Fin i ->
  misc.rvals m = map Fin rs -> increasing rs -> (2 <= length rs)%nat ->
  misc.zvals m = np.zeros (length rs) ->
  0 < G -> 0 < au -> 0 < M -> 0 < D -> 0 < r ->
  misc.projected_vkep sc_G sc_au m (Fin r) (Fin 0)
  = Ok (_projected_vkep sc_G sc_au s (Fin r), m).
Proof.
  intros -> -> HM HD Hi HM' HD' Hi' Hr Hinc H2 Hz HG Hau HM0 HD0 Hr0.
  unfold misc.projected_vkep, misc.emission_surface, emission_surface_body.
  rewrite Hr, Hz.
  assert (Hrep : emission_surface_repair (map Fin rs) (np.zeros (length rs))
                 = Ok (np.zeros (length rs))).
  { apply (emission_surface_repair_id _ _ (Fin 0) (Fin 0)); try reflexivity.
    - apply lookup_replicate. split; [reflexivity | lia].
    - rewrite last_lookup. apply lookup_replicate.
      unfold np.zeros. rewrite length_replicate. split; [reflexivity | lia]. }
  rewrite Hrep. cbn [mbind res_bind].
  rewrite scipy_new_increasing
    by (try assumption; unfold np.zeros; apply length_replicate).
  cbn [mbind res_bind]. unfold scipy.call.
  cbn [scipy.extrapolate negb andb mbind res_bind ndmap].
  rewrite (call_linear_affine rs (np.zeros (length rs)) 0 0 r true Hinc H2).
  2:{ intros k Hk. rewrite nth_zeros by assumption. f_equal. lra. }
  assert (Hsame : misc.set_zvals m (np.zeros (length rs)) = m).
  { rewrite <- Hz. destruct m. reflexivity. }
  rewrite Hsame. rewrite HM, HD, Hi.
  unfold _projected_vkep. rewrite HM', HD', Hi'.
  unfold msun, np.radians. cbn [nmul np.sin np.cos np.hypot].
  set (q := r * D * au).
  assert (Hq : 0 < q) by (unfold q; apply Rmult_lt_0_compat; nra).
  replace ((0 * r + 0) * D * au) with 0 by lra.
  replace (q * q + 0 * 0) with (q * q) by lra.
  rewrite sqrt_square by lra.
  rewrite np_power_2, np_power_3 by assumption. cbn [nmul].
  set (K := G * M * 1.988e30).
  assert (HK : 0 < K) by (unfold K; nra).
  assert (Hqqq : q * q * q <> 0)
    by (apply Rgt_not_eq; repeat apply Rmult_lt_0_compat; assumption).
  rewrite !ndiv_fin by (assumption || lra).
  assert (E : K * (q * q) / (q * q * q) = K / r / D / au).
  { unfold q. field. lra. }
  rewrite E. cbn [np.sqrt].
  destruct (Rlt_dec (K / r / D / au) 0) as [N|_].
  - exfalso. apply (Rlt_not_le _ _ N). apply Rlt_le.
    repeat apply Rdiv_lt_0_compat; lra.
  - cbn [nmul]. rewrite cos_0. f_equal. f_equal. f_equal. lra.
Qed.

Lemma misc_projected_vkep_on_flat_surface_witness :
  misc.projected_vkep (Fin 1) (Fin 1) misc_cube (Fin 2) (Fin 0)
  = Ok (_projected_vkep (Fin 1) (Fin 1) cube7 (Fin 2), misc_cube).
Proof.
  apply (misc_projected_vkep_on_flat_surface (Fin 1) (Fin 1) misc_cube cube7
           [0.75; 1.25] 1 1 1 100 30 2);
    try reflexivity; cbn; (lra || lia).
Defined.

(** ** Deprojected spectra *)

Lemma insert_sorted_last (a : R) (y : num) (l : list (num * num)) :
  Forall (fun q => exists b, q.1 = Fin b /\ b < a) l ->
  scipy.insert_sorted (Fin a, y) l = l ++ [(Fin a, y)].
Proof.
  induction l as [|[x z] l IH]; intros H; [reflexivity |].
  apply Forall_cons in H as [(b & Hb & Hlt) H]. cbn [fst] in Hb. subst x.
  cbn [scipy.insert_sorted fst snd app].
  unfold scipy.sort_leb. cbn [isnan nleb].
  destruct (Rle_dec a b) as [N|_]; [lra |].
  rewrite IH by assumption. reflexivity.
Qed.

Lemma decreasing_tail (a : R) (t : list R) :
  decreasing (a :: t) -> decreasing t /\ Forall (fun b => b < a) t.
Proof.
  revert a. induction t as [|b t IH]; intros a H;
    [split; [exact I | constructor] |].
  destruct H as [Hba H]. split; [exact H |].
  constructor; [exact Hba |].
  destruct (IH b H) as [_ Hall].
  eapply Forall_impl; [exact Hall |]. cbn. intros x Hx. lra.
Qed.

Lemma increasing_app_last (l : list R) (a : R) :
  increasing l -> Forall (fun b => b < a) l -> increasing (l ++ [a]).
Proof.
  induction l as [|b [|c t] IH]; intros Hinc Hall.
  - exact I.
  - apply Forall_cons in Hall as [Hb _]. cbn. split; [exact Hb | exact I].
  - destruct Hinc as [Hbc Hinc]. apply Forall_cons in Hall as [_ Hall].
    split; [exact Hbc |]. apply IH; assumption.
Qed.

Lemma increasing_reverse (l : list R) : decreasing l -> increasing (reverse l).
Proof.
  induction l as [|a t IH]; intros H; [exact I |].
  destruct (decreasing_tail a t H) as [Ht Hall].
  rewrite reverse_cons. apply increasing_app_last; [apply IH; exact Ht |].
  apply Forall_forall. intros x Hx. apply (proj1 (elem_of_reverse _ _)) in Hx.
  rewrite Forall_forall in Hall. apply Hall. exact Hx.
Qed.

(** Sorting a decreasing table reverses it. *)
Lemma sort_xy_decreasing (xs : list R) (ys : list num) :
  decreasing xs ->
  scipy.sort_xy (map Fin xs) ys = reverse (zip (map Fin xs) ys).
Proof.
  revert ys. induction xs as [|a t IH]; intros ys Hdec; [reflexivity |].
  destruct ys as [|y ys]; [reflexivity |].
  destruct (decreasing_tail a t Hdec) as [Ht Hall].
  unfold scipy.sort_xy in *. cbn [map zip zip_with foldr].
  specialize (IH ys Ht). cbn [zip] in IH. rewrite IH.
  rewrite reverse_cons. apply insert_sorted_last.
  apply Forall_forall. intros [x z] Hq. apply (proj1 (elem_of_reverse _ _)) in Hq.
  apply elem_of_zip_l in Hq. cbn [fst] in *.
  apply list_elem_of_fmap in Hq as (b & -> & Hb).
  exists b. split; [reflexivity |].
  rewrite Forall_forall in Hall. apply Hall. exact Hb.
Qed.

Lemma scipy_new_decreasing (xs : list R) (ys : list num) (fill : bool) :
  decreasing xs -> length ys = length xs -> (2 <= length xs)%nat ->
  scipy.new (map Fin xs) ys fill
  = Ok (scipy.mk_interp1d (map Fin (reverse xs)) (reverse ys) fill).
Proof.
  intros Hdec Hlen H2. unfold scipy.new. rewrite length_map, Hlen.
  rewrite Nat.eqb_refl. cbn [negb].
  destruct (Nat.ltb_spec (length xs) 2) as [H|H]; [lia |].
  rewrite sort_xy_decreasing by assumption.
  rewrite !map_is_fmap, !fmap_reverse.
  rewrite fst_zip by (rewrite length_fmap; lia).
  rewrite snd_zip by (rewrite length_fmap; lia). reflexivity.
Qed.

Lemma nth_reverse (l : list R) (k : nat) :
  (k < length l)%nat -> nth (length l - S k) (reverse l) 0 = nth k l 0.
Proof.
  intros Hk. apply nth_lookup_Some with (d := 0).
  rewrite reverse_lookup by lia.
  replace (length l - S (length l - S k))%nat with k by lia.
  destruct (nth_lookup_or_length l k 0) as [H|H]; [exact H | lia].
Qed.

(** Over a strictly monotone axis, the interpolant through a finite
    spectrum returns the spectrum at the channels themselves. *)
Lemma interp_at_nodes (vs sp : list R) :
  increasing vs \/ decreasing vs -> (2 <= length vs)%nat ->
  length sp = length vs ->
  exists f,
    scipy.new (map Fin vs) (map Fin sp) true = Ok f
    /\ scipy.call f (Vec (map Fin vs)) = Ok (Vec (map Fin sp)).
Proof.
  intros Hmono H2 Hlen.
  assert (Hnodes : forall f,
             scipy.extrapolate f = true ->
             (forall k, (k < length vs)%nat ->
                scipy.call_linear f (Fin (nth k vs 0)) = Fin (nth k sp 0)) ->
             scipy.call f (Vec (map Fin vs)) = Ok (Vec (map Fin sp))).
  { intros f Hf Hk. unfold scipy.call. rewrite Hf. cbn [negb andb ndmap].
    do 2 f_equal. apply list_eq. intros k.
    rewrite !map_is_fmap, !list_lookup_fmap.
    destruct (Nat.lt_ge_cases k (length vs)) as [Hlt|Hge].
    - destruct (vs !! k) as [v|] eqn:Ev;
        [| apply lookup_ge_None in Ev; lia].
      destruct (sp !! k) as [z|] eqn:Ez;
        [| apply lookup_ge_None in Ez; lia].
      cbn [fmap option_fmap option_map]. f_equal.
      rewrite <- (nth_lookup_Some _ _ 0 _ Ev), <- (nth_lookup_Some _ _ 0 _ Ez).
      apply Hk. exact Hlt.
    - rewrite (lookup_ge_None_2 vs), (lookup_ge_None_2 sp) by lia.
      reflexivity. }
  destruct Hmono as [Hinc|Hdec].
  - eexists. split.
    + apply scipy_new_increasing;
        [assumption | rewrite length_map; assumption | assumption].
    + apply Hnodes; [reflexivity |]. intros k Hk.
      apply call_linear_node; assumption.
  - eexists. split.
    + apply scipy_new_decreasing;
        [assumption | rewrite length_map; assumption | assumption].
    + apply Hnodes; [reflexivity |]. intros k Hk.
      replace (reverse (map Fin sp)) with (map Fin (reverse sp))
        by (rewrite !map_is_fmap; apply fmap_reverse).
      rewrite <- (nth_reverse vs k Hk).
      rewrite <- (nth_reverse sp k) by lia. rewrite Hlen.
      rewrite <- (length_reverse vs).
      apply call_linear_node.
      * apply increasing_reverse. exact Hdec.
      * rewrite length_reverse. exact H2.
      * rewrite !length_reverse. exact Hlen.
      * rewrite length_reverse. lia.
Qed.

Lemma mapM_ok {A B : Type} (f : A -> res B) (g : A -> B) (l : list A) :
  Forall (fun a => f a = Ok (g a)) l -> mapM f l = Ok (map g l).
Proof.
  induction l as [|a l IH]; intros H; [reflexivity |].
  apply Forall_cons in H as [Ha H]. cbn [mapM map]. rewrite Ha.
  cbn [mbind res_bind]. rewrite IH by assumption. reflexivity.
Qed.

Lemma velax_at_rest (vs : list R) (angle : R) :
  map (fun v => (v - Fin 0 * np.cos (Fin angle))%num) (map Fin vs)
  = map Fin vs.
Proof.
  rewrite map_map. apply map_ext. intros v. cbn. f_equal. lra.
Qed.

(** With rotation velocity 0 nothing is shifted: over a strictly
    monotone velocity axis of at least two channels, finite spectra come
    back from [_deproject_spectra] as they went in (squeezed, as the
    method squeezes its result). *)
Theorem deproject_spectra_at_rest (self : rotatedcube) (vs : list R)
    (rows : list (list R)) (angles : list R) :
  velax self = map Fin vs ->
  increasing vs \/ decreasing vs -> (2 <= length vs)%nat ->
  Forall (fun sp => length sp = length vs) rows ->
  length angles = length rows ->
  spectra._deproject_spectra self (map (map Fin) rows) (map Fin angles)
    (Fin 0)
  = Ok (squeeze_rows (map (map Fin) rows)).
Proof.
  intros Hv Hmono H2 Hrows Hlen. unfold spectra._deproject_spectra.
  rewrite (mapM_ok _ fst).
  - cbn [mbind res_bind]. do 2 f_equal.
    change (map fst ?l) with (l.*1).
    apply fst_zip. rewrite !length_map. lia.
  - apply Forall_forall. intros [sp angle] Hin.
    pose proof (elem_of_zip_l _ _ _ _ Hin) as Hsp.
    pose proof (elem_of_zip_r _ _ _ _ Hin) as Ha.
    apply list_elem_of_fmap in Hsp as (sp0 & -> & Hsp0).
    apply list_elem_of_fmap in Ha as (a0 & -> & _).
    rewrite Forall_forall in Hrows. specialize (Hrows sp0 Hsp0).
    cbv beta iota. rewrite Hv, velax_at_rest.
    destruct (interp_at_nodes vs sp0 Hmono H2 Hrows) as (f & -> & Hcall).
    cbn [mbind res_bind]. rewrite Hcall. reflexivity.
Qed.

Lemma deproject_spectra_at_rest_witness :
  spectra._deproject_spectra cube_two_channels
    (map (map Fin) [[1; 2]; [3; 4]]) (map Fin [0; 1]) (Fin 0)
  = Ok (squeeze_rows (map (map Fin) [[1; 2]; [3; 4]])).
Proof.
  apply (deproject_spectra_at_rest cube_two_channels [5; 3]
           [[1; 2]; [3; 4]] [0; 1]).
  - reflexivity.
  - right. cbn. lra.
  - cbn. lia.
  - repeat constructor.
  - reflexivity.
Defined.

Lemma increasing_shift (vs : list R) (s : R) :
  increasing vs -> increasing (map (fun v => v + - s) vs).
Proof.
  induction vs as [|a [|b t] IH]; intros H; [exact I | exact I |].
  destruct H as [Hab H]. split; [lra | apply IH; exact H].
Qed.

Lemma decreasing_shift (vs : list R) (s : R) :
  decreasing vs -> decreasing (map (fun v => v + - s) vs).
Proof.
  induction vs as [|a [|b t] IH]; intros H; [exact I | exact I |].
  destruct H as [Hab H]. split; [lra | apply IH; exact H].
Qed.

Section collapsed_spectrum.

Variable sort_arrays : list num -> list num -> res (list num * list num).

(** An annulus of one spectrum does not give a spectrum: with
    [resample=True], over a strictly monotone velocity axis of at least
    two channels, [_deprojected_spectrum] of a single finite spectrum
    returns the velocity axis and one number, the mean over the
    channels of the shifted spectrum (of the spectrum itself when the
    rotation velocity is 0), because the squeezed result has lost its
    first axis before [np.nanmean(..., axis=0)] is taken. *)
Theorem deprojected_spectrum_of_one_spectrum (self : rotatedcube)
    (vs sp : list R) (angle vrot : R) :
  velax self = map Fin vs ->
  increasing vs \/ decreasing vs -> (2 <= length vs)%nat ->
  length sp = length vs ->
  exists y,
    spectra._deprojected_spectrum sort_arrays self [map Fin sp]
      [Fin angle] (Fin vrot) true
    = Ok (Vec (velax self), Scalar y)
    /\ (vrot = 0 -> y = np.nanmean (map Fin sp)).
Proof using Type.
  intros Hv Hmono H2 Hlen.
  set (s := vrot * cos angle).
  assert (Hx : map (fun v => (v - Fin vrot * np.cos (Fin angle))%num)
                   (map Fin vs)
               = map Fin (map (fun v => v + - s) vs)).
  { rewrite !map_map. reflexivity. }
  assert (Hmono' : increasing (map (fun v => v + - s) vs)
                   \/ decreasing (map (fun v => v + - s) vs)).
  { destruct Hmono as [H|H];
      [left; apply increasing_shift | right; apply decreasing_shift];
      exact H. }
  assert (Hnew : exists f,
             scipy.new (map Fin (map (fun v => v + - s) vs)) (map Fin sp)
                       true = Ok f
             /\ scipy.extrapolate f = true).
  { destruct Hmono' as [H|H].
    - eexists. split.
      + apply scipy_new_increasing;
          [exact H | rewrite !length_map; exact Hlen
           | rewrite length_map; exact H2].
      + reflexivity.
    - eexists. split.
      + apply scipy_new_decreasing;
          [exact H | rewrite !length_map; exact Hlen
           | rewrite length_map; exact H2].
      + reflexivity. }
  destruct Hnew as (f & Hf & Hfill).
  assert (Hrow : spectra._deproject_spectra self [map Fin sp] [Fin angle]
                   (Fin vrot)
                 = Ok (Vec (map (scipy.call_linear f) (map Fin vs)))).
  { unfold spectra._deproject_spectra.
    cbn [zip zip_with mapM mbind res_bind]. rewrite Hv, Hx, Hf.
    cbn [mbind res_bind]. unfold scipy.call. rewrite Hfill.
    cbn [negb andb ndmap ndflatten mbind res_bind squeeze_rows].
    destruct vs as [|v0 [|v1 vs']]; [cbn in H2; lia | cbn in H2; lia |].
    reflexivity. }
  exists (np.nanmean (map (scipy.call_linear f) (map Fin vs))).
  split.
  - unfold spectra._deprojected_spectrum. rewrite Hrow.
    cbn [mbind res_bind nanmean0]. reflexivity.
  - intros ->.
    assert (Hs0 : map (fun v => v + - s) vs = vs).
    { unfold s. rewrite <- (map_id vs) at 2. apply map_ext. intros v. lra. }
    rewrite Hs0 in Hf.
    destruct (interp_at_nodes vs sp Hmono H2 Hlen) as (f' & Hf' & Hcall).
    rewrite Hf in Hf'. injection Hf' as <-.
    unfold scipy.call in Hcall. rewrite Hfill in Hcall.
    cbn [negb andb ndmap] in Hcall. injection Hcall as ->. reflexivity.
Qed.

End collapsed_spectrum.

Lemma deprojected_spectrum_of_one_spectrum_witness :
  exists y,
    spectra._deprojected_spectrum (fun x y => Ok (x, y)) cube_two_channels
      [map Fin [1; 2]] [Fin 0] (Fin 0) true
    = Ok (Vec (velax cube_two_channels), Scalar y)
    /\ (0 = 0 -> y = np.nanmean (map Fin [1; 2])).
Proof.
  apply (deprojected_spectrum_of_one_spectrum (fun x y => Ok (x, y))
           cube_two_channels [5; 3] [1; 2] 0 0).
  - reflexivity.
  - right. cbn. lra.
  - cbn. lia.
  - reflexivity.
Defined.

(** ** Collapsing the cube along the spectral axis *)

(** A reduction along the first axis of images that are all built over
    one image [im], pixel by pixel. *)
Lemma foldl_zip2d_pixels {A D : Type} (F : num -> num -> num)
    (a : A -> num) (g : D -> A -> num) (im : list (list A)) (ds : list D) :
  foldl (np.zip2d F) (map (map a) im) (map (fun d => map (map (g d)) im) ds)
  = map (map (fun c => foldl (fun acc d => F acc (g d c)) (a c) ds)) im.
Proof.
  revert a. induction ds as [|d ds IH]; intros a; [reflexivity |].
  cbn [map foldl]. rewrite zip2d_map_map. apply IH.
Qed.

Lemma replicate_as_map {A : Type} (x : A) (n : nat) :
  replicate n x = map (fun _ => x) (seq 0 n).
Proof. rewrite map_const_replicate, length_seq. reflexivity. Qed.

Lemma foldl_max2_const (c : R) (ds : list nat) :
  foldl (fun acc _ => np.max2 acc (Fin c)) (Fin c) ds = Fin c.
Proof.
  induction ds as [|d ds IH]; [reflexivity |]. cbn [foldl].
  unfold np.max2 at 2. cbn [isnan nltb].
  destruct (Rlt_dec c c) as [N|_]; [lra |]. exact IH.
Qed.

Lemma foldl_nansum_const (c a : R) (ds : list nat) :
  foldl (fun acc _ => if isnan (Fin c) then acc else (acc + Fin c)%num)
        (Fin a) ds
  = Fin (a + INR (length ds) * c).
Proof.
  revert a. induction ds as [|d ds IH]; intros a.
  - cbn. f_equal. lra.
  - cbn [foldl isnan nadd]. rewrite IH. f_equal.
    cbn [length]. rewrite S_INR. lra.
Qed.

(** The trapezoid sum of a constant telescopes. *)
Lemma foldl_trapz_const (vs : list R) (c a : R) (s n : nat) :
  foldl (fun acc k =>
           (acc + Fin (nth (S k) vs 0 + - nth k vs 0) * Fin (c + c) / Fin 2)%num)
        (Fin a) (seq s n)
  = Fin (a + c * (nth (s + n) vs 0 - nth s vs 0)).
Proof.
  revert a s. induction n as [|n IH]; intros a s.
  - cbn. rewrite Nat.add_0_r. f_equal. lra.
  - cbn [seq foldl nmul]. rewrite ndiv_fin by lra. cbn [nadd].
    rewrite IH. f_equal.
    replace (S s + n)%nat with (s + S n)%nat by lia. lra.
Qed.

Lemma diff_as_map (vs : list R) :
  np.diff (map Fin vs)
  = map (fun k => Fin (nth (S k) vs 0 + - nth k vs 0))
        (seq 0 (length vs - 1)).
Proof.
  unfold np.diff. apply list_eq. intros k.
  rewrite lookup_zip_with, lookup_drop.
  rewrite !map_is_fmap, !list_lookup_fmap.
  destruct (Nat.lt_ge_cases k (length vs - 1)) as [Hk|Hk].
  - rewrite lookup_seq_lt by assumption.
    destruct (nth_lookup_or_length vs (1 + k) 0) as [H1|H1]; [| lia].
    destruct (nth_lookup_or_length vs k 0) as [H0|H0]; [| lia].
    rewrite H1, H0. reflexivity.
  - rewrite lookup_seq_ge by assumption.
    rewrite (lookup_ge_None_2 vs (1 + k)) by lia. reflexivity.
Qed.

(** A cube whose spectrum is the same finite value in each of its
    [n + 1] channels, at every pixel, collapses as one expects: ['max']
    gives the image, ['sum'] gives [n + 1] times the image, and ['int']
    gives the image times the span of the velocity axis, last channel
    minus first (a negative factor on an axis that runs downwards). *)
Theorem collapse_cube_of_flat_spectra (self : imagecube)
    (im : list (list R)) (vs : list R) (n : nat) :
  data self = replicate (S n) (map (map Fin) im) ->
  velax self = map Fin vs -> length vs = S n ->
  _collapse_cube self "max" = Ok (concat (map (map Fin) im))
  /\ _collapse_cube self "sum"
     = Ok (concat (map (map (fun c => Fin (INR (S n) * c))) im))
  /\ _collapse_cube self "int"
     = Ok (concat (map (map (fun c => Fin (c * (nth n vs 0 - nth 0 vs 0))))
                       im)).
Proof.
  intros Hd Hv Hlen. unfold _collapse_cube.
  assert (Hz : zeros_image self = map (map (fun _ => Fin 0)) im).
  { unfold zeros_image. rewrite Hd. cbn [replicate]. unfold np.map2d.
    rewrite map_map. apply map_ext. intros row. apply map_map. }
  split; [| split].
  - rewrite bool_decide_eq_true_2 by (vm_compute; left).
    cbn [negb]. replace (String.eqb (lower "max") "max") with true
      by (vm_compute; reflexivity).
    rewrite Hd. cbn [replicate amax0 mbind res_bind].
    rewrite (replicate_as_map _ n).
    rewrite (foldl_zip2d_pixels np.max2 Fin (fun _ c => Fin c)).
    do 2 f_equal. apply map_ext. intros row. apply map_ext. intros c.
    apply foldl_max2_const.
  - rewrite bool_decide_eq_true_2 by (vm_compute; right; left).
    cbn [negb]. replace (String.eqb (lower "sum") "max") with false
      by (vm_compute; reflexivity).
    replace (String.eqb (lower "sum") "sum") with true
      by (vm_compute; reflexivity).
    cbn [mbind res_bind]. rewrite Hz, Hd. unfold nansum0.
    rewrite (replicate_as_map _ (S n)).
    rewrite (foldl_zip2d_pixels
               (fun s v => if isnan v then s else (s + v)%num)
               (fun _ => Fin 0) (fun _ c => Fin c)).
    do 2 f_equal. apply map_ext. intros row. apply map_ext. intros c.
    rewrite foldl_nansum_const, length_seq. f_equal. lra.
  - rewrite bool_decide_eq_true_2 by (vm_compute; right; right; left).
    cbn [negb]. replace (String.eqb (lower "int") "max") with false
      by (vm_compute; reflexivity).
    replace (String.eqb (lower "int") "sum") with false
      by (vm_compute; reflexivity).
    rewrite Hz, Hd, Hv. unfold trapz0.
    assert (Hfin : map (np.map2d (fun v => if isfinite v then v else Fin 0))
                       (replicate (S n) (map (map Fin) im))
                   = replicate (S n) (map (map Fin) im)).
    { rewrite map_is_fmap, fmap_replicate. f_equal. unfold np.map2d.
      rewrite map_map. apply map_ext. intros row. rewrite map_map.
      reflexivity. }
    rewrite Hfin, length_replicate.
    assert (Hpairs : zip_with (np.zip2d nadd)
                       (drop 1 (replicate (S n) (map (map Fin) im)))
                       (take (S n - 1) (replicate (S n) (map (map Fin) im)))
                     = map (fun _ => map (map (fun c => Fin (c + c))) im)
                           (seq 0 n)).
    { cbn [replicate drop]. rewrite drop_0, Nat.sub_succ, Nat.sub_0_r.
      change (map (map Fin) im :: replicate n (map (map Fin) im))
        with (replicate (S n) (map (map Fin) im)).
      rewrite take_replicate, Nat.min_l by lia.
      rewrite (replicate_as_map _ n), zip_with_map_map.
      apply map_ext. intros _. apply zip2d_map_map. }
    rewrite Hpairs, diff_as_map, Hlen, Nat.sub_succ, Nat.sub_0_r.
    unfold broadcast0. rewrite !length_map, length_seq, Nat.eqb_refl.
    cbn [mbind res_bind]. rewrite zip_with_map_map.
    rewrite (map_ext _ (fun k : nat =>
               map (map (fun c =>
                 (Fin (nth (S k) vs 0 + - nth k vs 0) * Fin (c + c)
                  / Fin 2)%num)) im)).
    2:{ intros k. unfold np.map2d. rewrite map_map. apply map_ext.
        intros row. apply map_map. }
    rewrite (foldl_zip2d_pixels nadd (fun _ => Fin 0)
               (fun k c => (Fin (nth (S k) vs 0 + - nth k vs 0)
                            * Fin (c + c) / Fin 2)%num)).
    do 2 f_equal. apply map_ext. intros row. apply map_ext. intros c.
    rewrite foldl_trapz_const. cbn [Nat.add]. f_equal. lra.
Qed.

Lemma collapse_cube_of_flat_spectra_witness :
  _collapse_cube cube_two_channels "max"
  = Ok (concat (map (map Fin) [[1; 1; 1; 1; 1]]))
  /\ _collapse_cube cube_two_channels "sum"
     = Ok (concat (map (map (fun c => Fin (INR 2 * c))) [[1; 1; 1; 1; 1]]))
  /\ _collapse_cube cube_two_channels "int"
     = Ok (concat (map (map (fun c =>
                               Fin (c * (nth 1 [5; 3] 0 - nth 0 [5; 3] 0))))
                       [[1; 1; 1; 1; 1]])).
Proof.
  apply (collapse_cube_of_flat_spectra cube_two_channels [[1; 1; 1; 1; 1]]
           [5; 3] 1); reflexivity.
Defined.

(** ** The radial profile *)

Lemma Forall_const_replicate (c : num) (l : list num) :
  Forall (fun v => v = c) l -> l = replicate (length l) c.
Proof.
  induction 1 as [|v l Hv _ IH]; [reflexivity |].
  cbn. rewrite Hv, <- IH. reflexivity.
Qed.

Lemma Forall_replicate_const (c : num) (k : nat) :
  Forall (fun v => v = c) (replicate k c).
Proof. induction k as [|k IH]; constructor; [reflexivity | exact IH]. Qed.

Lemma boolean_index_Forall {A : Type} (P : A -> Prop) (a t : list A)
    (mask : list bool) :
  Forall P a -> boolean_index a mask = Ok t -> Forall P t.
Proof.
  intros Ha H. unfold boolean_index in H.
  destruct (length a =? length mask)%nat; [| discriminate].
  injection H as <-. apply Forall_forall. intros x Hx.
  apply list_elem_of_fmap in Hx as ([y b] & -> & Hy). cbn [fst].
  apply list_elem_of_In, filter_In in Hy as [Hy _].
  apply list_elem_of_In, elem_of_zip_l in Hy. cbn [fst] in Hy.
  rewrite Forall_forall in Ha. apply Ha. exact Hy.
Qed.

Lemma sample_Forall {A B : Type} (P : A -> Prop) (q : A * B -> bool)
    (t : list A) (idx : list B) :
  Forall P t -> Forall P (fst <$> List.filter q (zip t idx)).
Proof.
  intros Ht. apply Forall_forall. intros x Hx.
  apply list_elem_of_fmap in Hx as ([y b] & -> & Hy). cbn [fst].
  apply list_elem_of_In, filter_In in Hy as [Hy _].
  apply list_elem_of_In, elem_of_zip_l in Hy. cbn [fst] in Hy.
  rewrite Forall_forall in Ht. apply Ht. exact Hy.
Qed.

Lemma foldl_nansum_replicate (c a : R) (k : nat) :
  foldl (fun s v => if isnan v then s else (s + v)%num) (Fin a)
        (replicate k (Fin c))
  = Fin (a + INR k * c).
Proof.
  revert a. induction k as [|k IH]; intros a.
  - cbn. f_equal. lra.
  - cbn [replicate foldl isnan nadd]. rewrite IH. f_equal.
    rewrite S_INR. lra.
Qed.

Lemma foldl_sum_replicate (c a : R) (k : nat) :
  foldl nadd (Fin a) (replicate k (Fin c)) = Fin (a + INR k * c).
Proof.
  revert a. induction k as [|k IH]; intros a.
  - cbn. f_equal. lra.
  - cbn [replicate foldl nadd]. rewrite IH. f_equal. rewrite S_INR. lra.
Qed.

Lemma filter_notnan_replicate (c : R) (k : nat) :
  List.filter (fun v => negb (isnan v)) (replicate k (Fin c))
  = replicate k (Fin c).
Proof. induction k as [|k IH]; [reflexivity |]. cbn. rewrite IH. reflexivity. Qed.

(** The mean of [k] copies of a finite value is the value, its standard
    deviation is 0; of no value at all, both are NaN. *)
Lemma nanmean_replicate (c : R) (k : nat) :
  np.nanmean (replicate k (Fin c)) = if (k =? 0)%nat then NaN else Fin c.
Proof.
  unfold np.nanmean, np.nansum.
  rewrite foldl_nansum_replicate, filter_notnan_replicate, length_replicate.
  destruct k as [|k].
  - cbn. destruct (Req_dec_T 0 0) as [_|N]; [| lra].
    unfold Rsign. destruct (Rlt_dec 0 (0 + 0 * c)) as [N|_]; [lra |].
    destruct (Rlt_dec (0 + 0 * c) 0) as [N|_]; [lra |]. reflexivity.
  - assert (Hk : INR (S k) <> 0) by (apply not_0_INR; lia).
    rewrite ndiv_fin by assumption. cbn [Nat.eqb]. f_equal. field.
    assumption.
Qed.

Lemma nanstd_replicate (c : R) (k : nat) :
  nanstd (replicate k (Fin c)) = if (k =? 0)%nat then NaN else Fin 0.
Proof.
  unfold nanstd. rewrite filter_notnan_replicate, length_replicate.
  destruct k as [|k]; [reflexivity |]. cbn [Nat.eqb].
  assert (Hk : INR (S k) <> 0) by (apply not_0_INR; lia).
  unfold np.sum. rewrite foldl_sum_replicate, ndiv_fin by assumption.
  replace ((0 + INR (S k) * c) / INR (S k)) with c by (field; assumption).
  rewrite map_is_fmap, fmap_replicate. cbn [nsub nneg nadd nmul].
  rewrite foldl_sum_replicate, ndiv_fin by assumption.
  replace ((0 + INR (S k) * ((c + - c) * (c + - c))) / INR (S k)) with 0
    by (field; assumption).
  cbn [np.sqrt]. destruct (Rlt_dec 0 0) as [N|_]; [lra |].
  rewrite sqrt_0. reflexivity.
Qed.

Lemma ndflatten_squeeze_list (l : list num) :
  ndflatten (squeeze_list l) = l.
Proof. destruct l as [|a [|b l]]; reflexivity. Qed.

Section radial_profile_properties.

Variable percentiles : list (list num) -> res (ndarray * ndarray).


End radial_profile_properties.

Lemma radial_profile_cube5_returns
    (percentiles : list (list num) -> res (ndarray * ndarray)) :
  exists r,
    radial_profile percentiles cube5 None
      (Some [Fin 0.5; Fin 1.5; Fin 2.5]) (Fin 0) (Fin 0) (Fin 0) (Fin 0)
      "max" "mean" None None false false None = Ok r.
Proof.
  unfold radial_profile.
  assert (Hc : _collapse_cube cube5 "max" = Ok (replicate 5 (Fin 1)))
    by reflexivity.
  rewrite Hc. cbn [mbind res_bind].
  assert (Hd : exists r1 r2 r3 r4 r5 t1 t2 t3 t4 t5,
             disk_coordinates cube5 (Fin 0) (Fin 0) (Fin 0) (Fin 0)
             = ([[r1; r2; r3; r4; r5]], [[t1; t2; t3; t4; t5]])).
  { rewrite disk_coordinates_pixels. cbv zeta. do 10 eexists. reflexivity. }
  destruct Hd as (r1 & r2 & r3 & r4 & r5 & t1 & t2 & t3 & t4 & t5 & Hd).
  unfold _get_mask, try_except. rewrite Hd.
  unfold _radial_sampling. cbn [bool_decide decide_rel negb andb].
  rewrite (bool_decide_eq_false_2 (None ≠ None))
    by (intros H; apply H; reflexivity).
  cbn [andb mbind res_bind index index_last of_option lookup list_lookup last
       concat app fst snd np.min np.max map zip_with length Nat.eqb negb
       replicate boolean_index].
  rewrite andb_false_r. cbn [mbind res_bind index index_last of_option lookup
    list_lookup last].
  assert (Hm : monotonicity [Fin 0.5; Fin 1.5; Fin 2.5] = 1%Z).
  { unfold monotonicity. cbn. Rdecide. reflexivity. }
  unfold digitize. rewrite Hm. cbn [mbind res_bind].
  rewrite bool_decide_eq_true_2 by (vm_compute; left).
  cbn [negb].
  replace (String.eqb (lower "mean") "mean") with true
    by (vm_compute; reflexivity).
  cbn [mbind res_bind]. eexists. reflexivity.
Qed.

